(** * The catalog manager of rancher-catalog-service

    A shallow embedding of [manager/catalogManager.go]: the in-memory
    [Catalog] index, its rebuild by [filepath.Walk] with [walkCatalog],
    the on-demand [ReadTemplateVersion] with its two-tier inheritance, and
    the single-slot refresh gate of [RefreshCatalog].

    Go state (the package variables [Catalog] and [refreshReqChannel], the
    checked-out tree under [./DATA/templates/] and the logger) is threaded
    through a small state monad whose computations may also panic, exit
    ([log.Fatal]) or block. *)

From Stdlib Require Import Ascii.
From stdpp Require Import gmap strings list fin_maps.

Local Open Scope string_scope.
Local Open Scope list_scope.

(** ** Strings *)

Module Strings.

(** [strings.HasPrefix s prefix]. *)
Definition HasPrefix (s pre : string) : bool := String.prefix pre s.

(** [strings.Split s sep] for a one-character separator: the pieces of
    [s] between separators; it never returns an empty slice. *)
Fixpoint Split (sep : ascii) (s : string) : list string :=
  match s with
  | EmptyString => [EmptyString]
  | String c r =>
      if Ascii.eqb c sep then EmptyString :: Split sep r
      else match Split sep r with
           | t :: ts => String c t :: ts
           | [] => [String c EmptyString]
           end
  end.

(** [s] minus the leading [pre], when [s] starts with it. *)
Fixpoint TrimPrefix (pre s : string) : option string :=
  match pre, s with
  | EmptyString, _ => Some s
  | String a pre', String b s' =>
      if Ascii.eqb a b then TrimPrefix pre' s' else None
  | String _ _, EmptyString => None
  end.

(** Does [c] occur in [s]? *)
Fixpoint Contains (c : ascii) (s : string) : bool :=
  match s with
  | EmptyString => false
  | String a r => Ascii.eqb a c || Contains c r
  end.

Definition slash : ascii := "/"%char.

End Strings.
Import Strings.

(** ** Data model *)

(** Modelled from the spec: the struct [model.Question] (package [model]
    is not part of the sources at hand); a question has a variable name,
    description, label, required flag, default value and declared type. *)
Record Question := mkQuestion {
  Variable_ : string;
  QDescription : string;
  Label : string;
  Required : bool;
  Default : string;
  QType : string
}.

(** Modelled from the spec: the struct [model.RancherCompose], one named
    section of an orchestration-compose document, of which the manager
    reads the [Questions] list only. *)
Record RancherCompose := mkRancherCompose {
  RC_Questions : list Question
}.

(** Modelled from the spec: the struct [model.Template], with the fields
    the manager assigns.  It serves both as Template Summary (an entry of
    [Catalog]) and as Template Version Detail (the result of
    [ReadTemplateVersion]).  Go's zero value is [emptyTemplate]; a nil map
    or slice reads like an empty one. *)
Record Template := mkTemplate {
  Path : string;
  Name : string;
  Category : string;
  Description : string;
  DefaultVersion : string;
  IconLink : string;
  VersionLinks : gmap string string;
  DockerCompose : string;
  RancherComposeText : string;
  Questions : list Question
}.

Definition emptyTemplate : Template :=
  mkTemplate "" "" "" "" "" "" ∅ "" "" [].

Definition set_Path (v : string) (t : Template) : Template :=
  mkTemplate v (Name t) (Category t) (Description t) (DefaultVersion t)
    (IconLink t) (VersionLinks t) (DockerCompose t) (RancherComposeText t)
    (Questions t).
Definition set_Name (v : string) (t : Template) : Template :=
  mkTemplate (Path t) v (Category t) (Description t) (DefaultVersion t)
    (IconLink t) (VersionLinks t) (DockerCompose t) (RancherComposeText t)
    (Questions t).
Definition set_Category (v : string) (t : Template) : Template :=
  mkTemplate (Path t) (Name t) v (Description t) (DefaultVersion t)
    (IconLink t) (VersionLinks t) (DockerCompose t) (RancherComposeText t)
    (Questions t).
Definition set_Description (v : string) (t : Template) : Template :=
  mkTemplate (Path t) (Name t) (Category t) v (DefaultVersion t)
    (IconLink t) (VersionLinks t) (DockerCompose t) (RancherComposeText t)
    (Questions t).
Definition set_DefaultVersion (v : string) (t : Template) : Template :=
  mkTemplate (Path t) (Name t) (Category t) (Description t) v
    (IconLink t) (VersionLinks t) (DockerCompose t) (RancherComposeText t)
    (Questions t).
Definition set_IconLink (v : string) (t : Template) : Template :=
  mkTemplate (Path t) (Name t) (Category t) (Description t) (DefaultVersion t)
    v (VersionLinks t) (DockerCompose t) (RancherComposeText t)
    (Questions t).
Definition set_VersionLinks (v : gmap string string) (t : Template) : Template :=
  mkTemplate (Path t) (Name t) (Category t) (Description t) (DefaultVersion t)
    (IconLink t) v (DockerCompose t) (RancherComposeText t)
    (Questions t).
Definition set_DockerCompose (v : string) (t : Template) : Template :=
  mkTemplate (Path t) (Name t) (Category t) (Description t) (DefaultVersion t)
    (IconLink t) (VersionLinks t) v (RancherComposeText t)
    (Questions t).
Definition set_RancherComposeText (v : string) (t : Template) : Template :=
  mkTemplate (Path t) (Name t) (Category t) (Description t) (DefaultVersion t)
    (IconLink t) (VersionLinks t) (DockerCompose t) v
    (Questions t).
Definition set_Questions (v : list Question) (t : Template) : Template :=
  mkTemplate (Path t) (Name t) (Category t) (Description t) (DefaultVersion t)
    (IconLink t) (VersionLinks t) (DockerCompose t) (RancherComposeText t)
    v.

(** The four fields a config file provides and a version inherits. *)
Definition configFields (t : Template) : string * string * string * string :=
  (Name t, Category t, Description t, DefaultVersion t).

(** ** The checked-out tree *)

(** A node of the tree below [./DATA/templates/].  A file whose contents
    cannot be read has no [data]; a directory the names of whose entries
    cannot be read is not [readable]; [NoStat] is an entry that its
    directory lists by name and on which [os.Lstat] fails (as it does on
    every entry of a directory that may be read but not searched).
    Entries are kept in the order [ioutil.ReadDir] and [filepath.Walk]
    deliver them (sorted by name). *)
#[warnings="-register-all"]
Inductive node :=
| File (data : option string)
| Dir (readable : bool) (entries : list (string * node))
| NoStat.

(** [os.FileInfo], as far as the manager looks at it. *)
Record FileInfo := mkFileInfo {
  FName : string;
  IsDir : bool
}.

Definition isDirNode (n : node) : bool :=
  match n with Dir _ _ => true | File _ | NoStat => false end.

(** Does [os.Lstat] succeed on the node? *)
Definition statable (n : node) : bool :=
  match n with NoStat => false | File _ | Dir _ _ => true end.

Definition infoOf (e : string * node) : FileInfo :=
  mkFileInfo (fst e) (isDirNode (snd e)).

Module FS.

(** The elements of a relative path: the pieces between slashes, without
    the empty ones and the [.] ones. *)
Definition segments (p : string) : list string :=
  List.filter (fun s => negb (String.eqb s "") && negb (String.eqb s "."))
    (Split slash p).

Fixpoint lookupEntry (name : string) (es : list (string * node)) : option node :=
  match es with
  | [] => None
  | (n, x) :: r => if String.eqb n name then Some x else lookupEntry name r
  end.

(** Where the elements [segs] lead from the node [n], whose ancestors
    are [up], the nearest first: a name leads to the entry of that name,
    [..] back to the parent. *)
Fixpoint descend (up : list node) (n : node) (segs : list string) : option node :=
  match segs with
  | [] => Some n
  | s :: r =>
      match n with
      | Dir _ es =>
          if String.eqb s ".." then
            match up with
            | p :: up' => descend up' p r
            | [] => None
            end
          else
            match lookupEntry s es with
            | Some x => descend (n :: up) x r
            | None => None
            end
      | File _ | NoStat => None
      end
  end.

(** The working directory of the service.  Nothing of it is modelled but
    [DATA/templates]; the rest of the file system is not modelled
    either, so a path that names something else, or leaves the working
    directory through [..], names nothing here. *)
Definition cwd (root : option node) : node :=
  Dir true [("DATA", Dir true match root with
                              | Some n => [("templates", n)]
                              | None => []
                              end)].

(** The node a path names, relative to the working directory. *)
Definition resolve (root : option node) (p : string) : option node :=
  descend [] (cwd root) (segments p).

(** [os.Stat]: the node at the path, or an error. *)
Definition Stat (root : option node) (p : string) : option node :=
  match resolve root p with
  | Some NoStat | None => None
  | Some n => Some n
  end.

(** [ioutil.ReadDir]: the entries of a directory, or an error.  It reads
    the names and calls [os.Lstat] on each; it fails when the names
    cannot be read and when the [os.Lstat] of an entry fails. *)
Definition ReadDir (root : option node) (p : string) : option (list FileInfo) :=
  match resolve root p with
  | Some (Dir true es) =>
      if forallb (fun e => statable (snd e)) es then Some (List.map infoOf es)
      else None
  | _ => None
  end.

(** [ioutil.ReadFile]: the contents of a file, or an error. *)
Definition ReadFile (root : option node) (p : string) : option string :=
  match resolve root p with
  | Some (File (Some d)) => Some d
  | _ => None
  end.

End FS.

(** ** State and effects *)

Inductive Level := Debug | Info | Error | Fatal.

(** What the service does to the outside: a call of the logger (logrus
    writes an entry when its level is enabled, [Debug] only under the
    [-debug] flag) or a command it runs.  [msg] is the text of the entry
    without the rendering of the error value that the call appends to it,
    which is the operating system's. *)
Inductive Event :=
| Log (lvl : Level) (msg : string)
| Exec (argv : list string).

(** [filepath.Walk] hands errors to its callback and interprets the
    callback's answer. *)
Inductive error := SkipDir | ErrLstat | ErrReadDir.

(** The package variables [Catalog] and [refreshReqChannel] (the values
    buffered in a channel of capacity 1), the tree below
    [./DATA/templates/] ([None] when it does not exist) and the events so
    far.  [Catalog] is nil until [Init] makes the map; a nil map reads
    like an empty one, and the service writes to it from [Init] on. *)
Record World := mkWorld {
  Catalog : gmap string Template;
  refreshReqChannel : list Z;
  tree : option node;
  events : list Event
}.

Definition set_Catalog (c : gmap string Template) (w : World) : World :=
  mkWorld c (refreshReqChannel w) (tree w) (events w).
Definition set_refreshReqChannel (b : list Z) (w : World) : World :=
  mkWorld (Catalog w) b (tree w) (events w).
Definition set_tree (t : option node) (w : World) : World :=
  mkWorld (Catalog w) (refreshReqChannel w) t (events w).
Definition emit (e : Event) (w : World) : World :=
  mkWorld (Catalog w) (refreshReqChannel w) (tree w) (events w ++ [e]).

(** How a Go call ends: it returns, panics, ends the process
    ([log.Fatal]) or blocks for ever. *)
Inductive outcome (A : Type) :=
| Ret (a : A)
| Panic
| Exit
| Block.
Arguments Ret {A} a.
Arguments Panic {A}.
Arguments Exit {A}.
Arguments Block {A}.

Definition M (A : Type) : Type := World -> outcome A * World.

Definition ret {A} (a : A) : M A := fun w => (Ret a, w).

Definition bind {A B} (c : M A) (k : A -> M B) : M B :=
  fun w =>
    match c w with
    | (Ret a, w') => k a w'
    | (Panic, w') => (Panic, w')
    | (Exit, w') => (Exit, w')
    | (Block, w') => (Block, w')
    end.

Notation "'let*' x ':=' c 'in' k" := (bind c (fun x => k))
  (at level 10, x pattern, c at level 100, k at level 200, only parsing).

Definition panic {A} : M A := fun w => (Panic, w).
Definition gets {A} (f : World -> A) : M A := fun w => (Ret (f w), w).
Definition modify (f : World -> World) : M unit := fun w => (Ret tt, f w).

Definition logf (lvl : Level) (msg : string) : M unit := modify (emit (Log lvl msg)).

(** [log.Fatal]: the entry is written and the process exits. *)
Definition logFatal {A} (msg : string) : M A :=
  fun w => (Exit, emit (Log Fatal msg) w).

(** Dereferencing a pointer that may be nil. *)
Definition deref {A} (p : option A) : M A :=
  match p with
  | Some a => ret a
  | None => panic
  end.

Fixpoint foldM {A B} (f : A -> B -> M A) (a : A) (l : list B) : M A :=
  match l with
  | [] => ret a
  | b :: r => let* a' := f a b in foldM f a' r
  end.

(** ** External collaborators *)

(** The YAML decoder, the version-control client and the order in which
    Go's [range] visits the keys of a map (which the language leaves
    unspecified, so it is an input here, one order per map and per file
    decoded).
    - [yaml_config] is [yaml.Unmarshal] into a [map[string]string];
    - [yaml_sections] is the pairs of the top-level mapping of an
      orchestration-compose document, in document order, when
      [yaml.Unmarshal] into a [map[string]model.RancherCompose] accepts it;
    - [catalogUrl] and [refreshInterval] are the values of the flags of
      these names, the second an [int64];
    - [git_clone] and [git_pull] give the tree after the command and
      whether the command succeeded. *)
Record Env := mkEnv {
  catalogUrl : string;
  refreshInterval : Z;
  yaml_config : string -> option (gmap string string);
  yaml_sections : string -> option (list (string * RancherCompose));
  range_order : string -> gmap string RancherCompose -> list string;
  git_clone : option node -> option node * bool;
  git_pull : option node -> option node * bool
}.

(** [range_order] visits every key of the map once. *)
Definition fair_range (E : Env) : Prop :=
  forall (f : string) (m : gmap string RancherCompose),
    range_order E f m ≡ₚ (map_to_list m).*1.

(** The Go map the decoder fills from the pairs of a document: a later
    pair with the same key replaces an earlier one. *)
Definition sectionsMap (secs : list (string * RancherCompose))
  : gmap string RancherCompose :=
  fold_left (fun m kv => <[fst kv := snd kv]> m) secs ∅.

(** [m[key]] on a Go map: the zero value when the key is absent. *)
Definition index0 (m : gmap string string) (k : string) : string :=
  default "" (m !! k).
Definition sectionAt (m : gmap string RancherCompose) (k : string) : RancherCompose :=
  default (mkRancherCompose []) (m !! k).

Definition catalogRoot : string := "./DATA/templates/".

(** The regular expression [^DATA/templates/[^/]+$]. *)
Definition metadataFolder_MatchString (p : string) : bool :=
  match TrimPrefix "DATA/templates/" p with
  | Some rest => negb (String.eqb rest "") && negb (Contains slash rest)
  | None => false
  end.

Module Filepath.

Fixpoint joinSegs (l : list string) : string :=
  match l with
  | [] => ""
  | [s] => s
  | s :: r => s +:+ "/" +:+ joinSegs r
  end.

(** [filepath.Clean] on the relative paths met here: empty and [.]
    elements go away ([..] elements, which no directory listing
    contains, are left alone). *)
Definition Clean (p : string) : string :=
  match FS.segments p with
  | [] => "."
  | l => joinSegs l
  end.

(** [filepath.Join dir name]. *)
Definition Join (dir name : string) : string := Clean (dir +:+ "/" +:+ name).

(** The last element of a path, the name [os.Lstat] reports. *)
Definition Base (p : string) : string := List.last (FS.segments p) ".".

End Filepath.

(** ** The manager *)

Section Manager.

Variable E : Env.

(** [filepath.Abs] only prefixes the working directory, so a file is
    addressed here by the relative path it is formed from. *)
Definition ioutil_ReadFile (p : string) : M (option string) :=
  gets (fun w => FS.ReadFile (tree w) p).

Definition ioutil_ReadDir (p : string) : M (option (list FileInfo)) :=
  gets (fun w => FS.ReadDir (tree w) p).

(** [readTemplateConfig]: the template behind the pointer is passed in
    and handed back. *)
Definition readTemplateConfig (relativePath : string) (template : Template)
  : M Template :=
  let* yamlFile := ioutil_ReadFile (relativePath +:+ "/config.yml") in
  match yamlFile with
  | None =>
      let* _ := logf Error ("Error reading config file under template: " +:+ relativePath) in
      ret template
  | Some yamlFile =>
      match yaml_config E yamlFile with
      | None =>
          let* _ := logf Error ("Error unmarshalling config.yml under template: " +:+ relativePath) in
          ret template
      | Some config =>
          let template := set_Name (index0 config "name") template in
          let template := set_Category (index0 config "category") template in
          let template := set_Description (index0 config "description") template in
          let template := set_DefaultVersion (index0 config "defaultVersion") template in
          ret template
      end
  end.

(** [readFile]: a pointer to the contents, nil when the file cannot be
    read. *)
Definition readFile (relativePath fileName : string) : M (option string) :=
  let* composeBytes := ioutil_ReadFile (relativePath +:+ "/" +:+ fileName) in
  match composeBytes with
  | None =>
      let* _ := logf Error ("Error reading file " +:+ relativePath +:+ "/" +:+ fileName) in
      ret None
  | Some b => ret (Some b)
  end.

(** The loop [for key, _ := range RC] of [ReadTemplateVersion]. *)
Definition rangeQuestions (fileName : string) (RC : gmap string RancherCompose)
    (newTemplate : Template) : Template :=
  fold_left (fun t key => set_Questions (RC_Questions (sectionAt RC key)) t)
    (range_order E fileName RC) newTemplate.

(** One turn of the loop over the entries of a version directory; the
    state of the loop is [newTemplate], [foundConfig] and [foundIcon]. *)
Definition versionEntry (path : string) (st : Template * bool * bool)
    (subfile : FileInfo) : M (Template * bool * bool) :=
  let '(newTemplate, foundConfig, foundIcon) := st in
  if HasPrefix (FName subfile) "config.yml" then
    let* newTemplate := readTemplateConfig (catalogRoot +:+ path) newTemplate in
    ret (newTemplate, true, foundIcon)
  else if HasPrefix (FName subfile) "catalogIcon" then
    ret (set_IconLink (path +:+ "/" +:+ FName subfile) newTemplate, foundConfig, true)
  else if HasPrefix (FName subfile) "docker-compose" then
    let* p := readFile (catalogRoot +:+ path) (FName subfile) in
    let* s := deref p in
    ret (set_DockerCompose s newTemplate, foundConfig, foundIcon)
  else if HasPrefix (FName subfile) "rancher-compose" then
    let* composeBytes := readFile (catalogRoot +:+ path) (FName subfile) in
    let* s := deref composeBytes in
    let newTemplate := set_RancherComposeText s newTemplate in
    match yaml_sections E s with
    | None =>
        let* _ := logf Error ("Error unmarshalling " +:+ FName subfile
                              +:+ " under template: " +:+ path) in
        ret (newTemplate, foundConfig, foundIcon)
    | Some secs =>
        ret (rangeQuestions (FName subfile) (sectionsMap secs) newTemplate,
             foundConfig, foundIcon)
    end
  else ret (newTemplate, foundConfig, foundIcon).

(** [tokens := strings.Split(path, "/"); parentPath := tokens[0]]. *)
Definition parentPathOf (path : string) : M string :=
  deref (Split slash path !! 0%nat).

Definition ReadTemplateVersion (path : string) : M Template :=
  let* dirList := ioutil_ReadDir (catalogRoot +:+ path) in
  let newTemplate := set_Path path emptyTemplate in
  match dirList with
  | None =>
      let* _ := logf Error ("Error reading template at path: " +:+ path) in
      ret newTemplate
  | Some dirList =>
      let* (newTemplate, foundConfig, foundIcon) :=
        foldM (versionEntry path) (newTemplate, false, false) dirList in
      let* newTemplate :=
        (if negb foundConfig then
           let* parentPath := parentPathOf path in
           let* parentMetadata := gets (fun w => Catalog w !! parentPath) in
           match parentMetadata with
           | Some parentMetadata =>
               let newTemplate := set_Name (Name parentMetadata) newTemplate in
               let newTemplate := set_Category (Category parentMetadata) newTemplate in
               let newTemplate := set_Description (Description parentMetadata) newTemplate in
               let newTemplate := set_DefaultVersion (DefaultVersion parentMetadata) newTemplate in
               ret newTemplate
           | None =>
               let* _ := logf Debug ("Could not find the parent metadata " +:+ parentPath) in
               ret newTemplate
           end
         else ret newTemplate) in
      let* newTemplate :=
        (if negb foundIcon then
           let* parentPath := parentPathOf path in
           let* parentMetadata := gets (fun w => Catalog w !! parentPath) in
           match parentMetadata with
           | Some parentMetadata =>
               ret (set_IconLink (IconLink parentMetadata) newTemplate)
           | None =>
               let* _ := logf Debug ("Could not find the parent metadata " +:+ parentPath) in
               ret newTemplate
           end
         else ret newTemplate) in
      ret newTemplate
  end.

(** The loop over [dirList] in [walkCatalog]; [name] is [f.Name()]. *)
Definition templateEntry (name : string) (newTemplate : Template)
    (subfile : FileInfo) : Template :=
  if IsDir subfile then
    set_VersionLinks
      (<[FName subfile := name +:+ "/" +:+ FName subfile]> (VersionLinks newTemplate))
      newTemplate
  else if HasPrefix (FName subfile) "catalogIcon" then
    set_IconLink (name +:+ "/" +:+ FName subfile) newTemplate
  else newTemplate.

(** [walkCatalog], the callback of the walk.  It does not look at [err];
    [f] is nil when [filepath.Walk] could not stat the path. *)
Definition walkCatalog (path : string) (f : option FileInfo) (err : option error)
  : M (option error) :=
  let* f := deref f in
  let* _ :=
    (if IsDir f && metadataFolder_MatchString path then
       let* _ := logf Debug ("Reading metadata folder for template:" +:+ FName f) in
       let newTemplate := set_Path (FName f) emptyTemplate in
       let* newTemplate := readTemplateConfig path newTemplate in
       let newTemplate := set_VersionLinks ∅ newTemplate in
       let* dirList := ioutil_ReadDir path in
       let* newTemplate :=
         match dirList with
         | None =>
             let* _ := logf Error ("Error reading directories at path: " +:+ FName f) in
             ret newTemplate
         | Some dirList =>
             ret (fold_left (templateEntry (FName f)) dirList newTemplate)
         end in
       modify (fun w => set_Catalog (<[FName f := newTemplate]> (Catalog w)) w)
     else ret tt) in
  ret None.

(** *** [filepath.Walk] *)

Definition isSkipDir (e : error) : bool :=
  match e with SkipDir => true | _ => false end.

Section Walk.

Variable walkFn : string -> option FileInfo -> option error -> M (option error).

(** [walk path info walkFn] of package [filepath], where [info] is
    the name and kind of the node [n] at [path]: the callback first,
    then the entries of a directory in order; a directory whose names
    cannot be read is reported to the callback a second time, with the
    error.  (Later releases of Go make that one call; for a callback
    that ignores the error, as [walkCatalog] does, the catalog is the
    same.)  In the loop over the names, an entry on which [os.Lstat]
    fails is reported to the callback with a nil [os.FileInfo] and the
    error, and is not walked.  On [NoStat] itself, which only
    [filepath.Walk] applies it to, [walk] is that report. *)
Fixpoint walk (path name : string) (n : node) {struct n} : M (option error) :=
  match n with
  | NoStat => walkFn path None (Some ErrLstat)
  | File _ | Dir _ _ =>
      let info := mkFileInfo name (isDirNode n) in
      let* err := walkFn path (Some info) None in
      match err with
      | Some e => if IsDir info && isSkipDir e then ret None else ret (Some e)
      | None =>
          match n with
          | File _ | NoStat => ret None
          | Dir false _ => walkFn path (Some info) (Some ErrReadDir)
          | Dir true es =>
              (fix walkList (es : list (string * node)) : M (option error) :=
                 match es with
                 | [] => ret None
                 | (sub, child) :: rest =>
                     match child with
                     | NoStat =>
                         let* err := walkFn (Filepath.Join path sub) None (Some ErrLstat) in
                         match err with
                         | Some e =>
                             if negb (isSkipDir e) then ret (Some e) else walkList rest
                         | None => walkList rest
                         end
                     | File _ | Dir _ _ =>
                         let* err := walk (Filepath.Join path sub) sub child in
                         match err with
                         | Some e =>
                             if negb (isDirNode child) || negb (isSkipDir e)
                             then ret (Some e)
                             else walkList rest
                         | None => walkList rest
                         end
                     end
                 end) es
          end
      end
  end.

(** The loop of [walk] over the entries of the directory at [path]. *)
Fixpoint walkEntries (path : string) (es : list (string * node)) : M (option error) :=
  match es with
  | [] => ret None
  | (sub, child) :: rest =>
      match child with
      | NoStat =>
          let* err := walkFn (Filepath.Join path sub) None (Some ErrLstat) in
          match err with
          | Some e => if negb (isSkipDir e) then ret (Some e) else walkEntries path rest
          | None => walkEntries path rest
          end
      | File _ | Dir _ _ =>
          let* err := walk (Filepath.Join path sub) sub child in
          match err with
          | Some e =>
              if negb (isDirNode child) || negb (isSkipDir e)
              then ret (Some e)
              else walkEntries path rest
          | None => walkEntries path rest
          end
      end
  end.

(** [filepath.Walk root walkFn]: when [os.Lstat] fails on the root, the
    callback is told so, with a nil [os.FileInfo]. *)
Definition Walk (root : string) : M (option error) :=
  let* t := gets tree in
  match t with
  | None => walkFn root None (Some ErrLstat)
  | Some n => walk root (Filepath.Base root) n
  end.

End Walk.

(** *** Synchronising and rebuilding *)

Definition cloneCatalog : M unit :=
  let* _ := logf Info ("Cloning the catalog from github url " +:+ catalogUrl E) in
  let* ok := (fun w =>
                let r := git_clone E (tree w) in
                (Ret (snd r),
                 set_tree (fst r)
                   (emit (Exec ["git"; "clone"; catalogUrl E; "./DATA"]) w))) in
  if ok then ret tt
  else logFatal "Failed to clone the catalog from github".

Definition pullCatalog : M unit :=
  let* _ := logf Info "Pulling the catalog from github to sync any new changes" in
  let* ok := (fun w =>
                let r := git_pull E (tree w) in
                (Ret (snd r),
                 set_tree (fst r)
                   (emit (Exec ["git"; "-C"; "./DATA"; "pull"; "origin"; "master"]) w))) in
  if ok then ret tt
  else logf Error ("Failed to pull the catalog from github repo " +:+ catalogUrl E).

(** The period of the ticker, [refreshInterval] seconds as a
    [time.Duration]: a product of [int64]s, which wraps around. *)
Definition tickerPeriod : Z :=
  ((refreshInterval E * 1000000000 + 2 ^ 63) mod 2 ^ 64 - 2 ^ 63)%Z.

(** [startCatalogBackgroundPoll]: [time.NewTicker] panics when the
    period is not positive; otherwise the goroutine that calls
    [RefreshCatalog] at every tick ([backgroundPoll] below) is started,
    and the call returns. *)
Definition startCatalogBackgroundPoll : M unit :=
  if (0 <? tickerPeriod)%Z then ret tt else panic.

(** [Init]: the checkout is cloned when [os.Stat] fails on the root and
    pulled otherwise; then the catalog is made and filled by the walk. *)
Definition Init : M unit :=
  let* st := gets (fun w => FS.Stat (tree w) catalogRoot) in
  let* _ := (match st with
             | None => cloneCatalog
             | Some _ => pullCatalog
             end) in
  let* _ := modify (set_Catalog ∅) in
  let* _ := Walk walkCatalog catalogRoot in
  startCatalogBackgroundPoll.

(** [case refreshReqChannel <- 1] of the [select]: the send goes through
    when the buffer of capacity 1 has room. *)
Definition trySend (v : Z) : M bool :=
  fun w =>
    if (length (refreshReqChannel w) <? 1)%nat
    then (Ret true, set_refreshReqChannel (refreshReqChannel w ++ [v]) w)
    else (Ret false, w).

(** [<-refreshReqChannel]. *)
Definition receive : M Z :=
  fun w =>
    match refreshReqChannel w with
    | v :: rest => (Ret v, set_refreshReqChannel rest w)
    | [] => (Block, w)
    end.

Definition RefreshCatalog : M unit :=
  let* sent := trySend 1 in
  if sent then
    let* _ := pullCatalog in
    let* _ := Walk walkCatalog catalogRoot in
    let* _ := receive in
    ret tt
  else logf Info "Refresh catalog is already in process, skipping".

(** The goroutine of [startCatalogBackgroundPoll] over the ticks it
    receives: it logs the tick (the time of which is not modelled) and
    calls [RefreshCatalog], one tick after the other. *)
Fixpoint backgroundPoll (ticks : nat) : M unit :=
  match ticks with
  | O => ret tt
  | S n =>
      let* _ := logf Info "Running background Catalog Refresh Thread at time" in
      let* _ := RefreshCatalog in
      backgroundPoll n
  end.

End Manager.

(** ** Notions used to state the properties *)

(** A state after some more events. *)
Definition emitAll (evs : list Event) (w : World) : World :=
  mkWorld (Catalog w) (refreshReqChannel w) (tree w) (events w ++ evs).


(** How the loop of [ReadTemplateVersion] classifies an entry. *)
Definition isConfigEntry (f : FileInfo) : bool := HasPrefix (FName f) "config.yml".
Definition isIconEntry (f : FileInfo) : bool := HasPrefix (FName f) "catalogIcon".
Definition isDockerEntry (f : FileInfo) : bool := HasPrefix (FName f) "docker-compose".
Definition isRancherEntry (f : FileInfo) : bool := HasPrefix (FName f) "rancher-compose".
Definition isComposeEntry (f : FileInfo) : bool := isDockerEntry f || isRancherEntry f.

(** Every compose file listed in [dirList] can be read. *)
Definition composeReadable (T : option node) (path : string) (dirList : list FileInfo) : Prop :=
  Forall (fun f => isComposeEntry f = true ->
                   FS.ReadFile T ((catalogRoot +:+ path) +:+ "/" +:+ FName f) <> None)
         dirList.

(** The template identifier of a version path, [tokens[0]]. *)
Definition templateId (path : string) : string :=
  default "" (Split slash path !! 0%nat).

(** The decoded [config.yml] of a directory, when there is one that can be
    read and decoded. *)
Definition configOf (E : Env) (T : option node) (relativePath : string)
  : option (gmap string string) :=
  match FS.ReadFile T (relativePath +:+ "/config.yml") with
  | Some data => yaml_config E data
  | None => None
  end.

Definition configValues (config : gmap string string) : string * string * string * string :=
  (index0 config "name", index0 config "category",
   index0 config "description", index0 config "defaultVersion").

(** The effect of a config file on the four config fields. *)
Definition applyConfigF (cfg : option (gmap string string))
    (fields : string * string * string * string) : string * string * string * string :=
  match cfg with
  | Some config => configValues config
  | None => fields
  end.

Definition noFields : string * string * string * string := ("", "", "", "").

Definition applyConfig (cfg : option (gmap string string)) (t : Template) : Template :=
  match cfg with
  | Some config =>
      set_DefaultVersion (index0 config "defaultVersion")
        (set_Description (index0 config "description")
           (set_Category (index0 config "category")
              (set_Name (index0 config "name") t)))
  | None => t
  end.

(** The summary [walkCatalog] builds for the template directory [name]. *)
Definition templateSummary (E : Env) (T : option node) (name : string) : Template :=
  let path := "DATA/templates/" +:+ name in
  let t := applyConfig (configOf E T path) (set_Path name emptyTemplate) in
  let t := set_VersionLinks ∅ t in
  match FS.ReadDir T path with
  | None => t
  | Some dirList => fold_left (templateEntry name) dirList t
  end.

(** [os.Lstat] succeeds on every entry the walk of the node comes to:
    the walk does not look into a directory whose names it cannot
    read. *)
Fixpoint walkable (n : node) : bool :=
  match n with
  | File _ => true
  | NoStat => false
  | Dir false _ => true
  | Dir true es => forallb (fun e => walkable (snd e)) es
  end.

Definition walkableTree (T : option node) : bool :=
  match T with
  | Some n => walkable n
  | None => false
  end.

(** The entries of a directory that a walk comes to: all of them, or
    those up to the first one which has something in it on which
    [os.Lstat] fails, where the callback panics. *)
Fixpoint walked (es : list (string * node)) : list (string * node) :=
  match es with
  | [] => []
  | e :: r => if walkable (snd e) then e :: walked r else [e]
  end.

(** The names of the directories among the entries [es]. *)
Definition dirNames (es : list (string * node)) : list string :=
  (List.filter (fun e => isDirNode (snd e)) es).*1.

(** The template directories a walk of the tree [T] comes across. *)
Definition discovered (T : option node) : list string :=
  match T with
  | Some (Dir true es) => dirNames (walked es)
  | _ => []
  end.

(** The catalog after the walk has come to the entry [e] of the root. *)
Definition installDir (E : Env) (T : option node) (c : gmap string Template)
    (e : string * node) : gmap string Template :=
  if isDirNode (snd e) then <[fst e := templateSummary E T (fst e)]> c else c.

(** The catalog after a walk of the tree [T] that started with [c],
    whether the walk has returned or panicked. *)
Definition rebuilt (E : Env) (T : option node) (c : gmap string Template)
  : gmap string Template :=
  match T with
  | Some (Dir true es) => fold_left (installDir E T) (walked es) c
  | _ => c
  end.

(** The tree [Init] walks: cloned when there was none, pulled otherwise. *)
Definition afterSync (E : Env) (w : World) : option node * bool :=
  match FS.Stat (tree w) catalogRoot with
  | None => git_clone E (tree w)
  | Some _ => git_pull E (tree w)
  end.

(** The elements of a path below the catalog root. *)
Definition pathSegs (segs : list string) : list string := "DATA" :: "templates" :: segs.

(** A file name as a file system hands it out. *)
Definition validName (s : string) : bool :=
  negb (String.eqb s "") && negb (Contains slash s)
  && negb (String.eqb s ".") && negb (String.eqb s "..").

(** Every entry of the node has such a name. *)
Fixpoint validNode (n : node) : bool :=
  match n with
  | File _ | NoStat => true
  | Dir _ es => forallb (fun e => validName (fst e) && validNode (snd e)) es
  end.

Definition validTree (T : option node) : bool :=
  match T with
  | Some n => validNode n
  | None => false
  end.

(** The tree, when there is one, has such names throughout. *)
Definition wellNamed (T : option node) : bool :=
  match T with
  | Some n => validNode n
  | None => true
  end.

(** A computation that leaves the channel of the gate alone. *)
Definition keepsGate {A} (c : M A) : Prop :=
  forall w, refreshReqChannel (snd (c w)) = refreshReqChannel w.

(** *** The walking goroutine, one callback at a time *)

Module Rebuild.

Record Call := mkCall {
  cpath : string;
  cinfo : option FileInfo;
  cerr : option error
}.

(** The calls [walk] makes of a callback that always answers nil. *)
Fixpoint walkCalls (path name : string) (n : node) {struct n} : list Call :=
  match n with
  | NoStat => [mkCall path None (Some ErrLstat)]
  | File _ | Dir _ _ =>
      let info := mkFileInfo name (isDirNode n) in
      mkCall path (Some info) None ::
        match n with
        | File _ | NoStat => []
        | Dir false _ => [mkCall path (Some info) (Some ErrReadDir)]
        | Dir true es =>
            flat_map (fun e => walkCalls (Filepath.Join path (fst e)) (fst e) (snd e)) es
        end
  end.

Definition WalkCalls (T : option node) (root : string) : list Call :=
  match T with
  | None => [mkCall root None (Some ErrLstat)]
  | Some n => walkCalls root (Filepath.Base root) n
  end.

(** The goroutine that walks, between two callbacks: the calls it has
    still to make and the state of the service. *)
Definition State : Type := list Call * World.

(** It makes the next call, which returns.  (A call that panics ends the
    goroutine.) *)
Inductive step (E : Env) : State -> State -> Prop :=
| step_call c cs w r w' :
    walkCatalog E (cpath c) (cinfo c) (cerr c) w = (Ret r, w') ->
    step E (c :: cs, w) (cs, w').

(** The states a rebuild started in [w0] is in between two callbacks.
    The service is in such a state for as long as the walk takes to read
    the next directory, and nothing keeps another goroutine from reading
    [Catalog] then. *)
Definition during (E : Env) (w0 : World) (s : State) : Prop :=
  rtc (step E) (WalkCalls (tree w0) catalogRoot, w0) s.

End Rebuild.

(** *** Concurrent calls of [RefreshCatalog] *)

Module Gate.

(** Where a goroutine is in [RefreshCatalog]. *)
Inductive pc := Start | Pulling | Walking | Releasing | Done | Stuck.

Inductive label := Acquire | Skip | Pull | Rebuild | Release.

Global Instance pc_eq_dec : EqDecision pc.
Proof. solve_decision. Defined.
Global Instance label_eq_dec : EqDecision label.
Proof. solve_decision. Defined.

(** A goroutine that panics or blocks goes no further. *)
Definition afterwards {A} (r : outcome A * World) (next : pc) : pc * World :=
  match r with
  | (Ret _, w) => (next, w)
  | (_, w) => (Stuck, w)
  end.

Definition skipMessage : string := "Refresh catalog is already in process, skipping".

(** One atomic action of a goroutine. *)
Definition threadStep (E : Env) (p : pc) (w : World) : option (label * (pc * World)) :=
  match p with
  | Start =>
      match trySend 1 w with
      | (Ret true, w') => Some (Acquire, (Pulling, w'))
      | (_, w') => Some (Skip, afterwards (logf Info skipMessage w') Done)
      end
  | Pulling => Some (Pull, afterwards (pullCatalog E w) Walking)
  | Walking => Some (Rebuild, afterwards (Walk (walkCatalog E) catalogRoot w) Releasing)
  | Releasing => Some (Release, afterwards (receive w) Done)
  | Done | Stuck => None
  end.

(** The goroutines that called [RefreshCatalog] and the shared state. *)
Definition System : Type := list pc * World.

Inductive step (E : Env) : System -> nat * label -> System -> Prop :=
| step_thread ths w i p l p' w' :
    ths !! i = Some p ->
    threadStep E p w = Some (l, (p', w')) ->
    step E (ths, w) (i, l) (<[i := p']> ths, w').

Inductive run (E : Env) : System -> list (nat * label) -> System -> Prop :=
| run_nil s : run E s [] s
| run_cons s x s' tr s'' : step E s x s' -> run E s' tr s'' -> run E s (x :: tr) s''.

(** Past the gate and not yet out of it. *)
Definition inFlight (p : pc) : bool :=
  match p with
  | Pulling | Walking | Releasing | Stuck => true
  | Start | Done => false
  end.

(** How many goroutines hold the gate. *)
Definition flying (ths : list pc) : nat := length (List.filter inFlight ths).

(** What a goroutine at [p] can have done so far. *)
Definition history (p : pc) : list (list label) :=
  match p with
  | Start => [[]]
  | Pulling => [[Acquire]]
  | Walking => [[Acquire; Pull]]
  | Releasing => [[Acquire; Pull; Rebuild]]
  | Done => [[Acquire; Pull; Rebuild; Release]; [Skip]]
  | Stuck => [[Acquire; Pull; Rebuild]; [Acquire; Pull; Rebuild; Release]]
  end.

(** The goroutines past the gate are as many as the values in the
    channel, at most one. *)
Definition gateInv (s : System) : Prop :=
  flying (fst s) = length (refreshReqChannel (snd s))
  /\ (flying (fst s) <= 1)%nat.

(** [n] calls of [RefreshCatalog] about to start, the gate free. *)
Definition initial (n : nat) (w : World) : System :=
  (replicate n Start, set_refreshReqChannel [] w).

Definition labelsOf (i : nat) (tr : list (nat * label)) : list label :=
  (List.filter (fun x => Nat.eqb (fst x) i) tr).*2.

Definition count (l : label) (tr : list (nat * label)) : nat :=
  length (List.filter (fun x => bool_decide (snd x = l)) tr).

(** One goroutine run on its own until it stops. *)
Fixpoint solo (E : Env) (fuel : nat) (p : pc) (w : World) : pc * World :=
  match fuel with
  | O => (p, w)
  | S k =>
      match threadStep E p w with
      | Some (_, (p', w')) => solo E k p' w'
      | None => (p, w)
      end
  end.

End Gate.

(** ** Example catalogs *)

Module Ex.

Definition nl : ascii := ascii_of_nat 10.

(** Stand-ins for the YAML decoder on the documents of the examples: one
    [key: value] pair per line, anything else is malformed.  For an
    orchestration-compose document the value lists the variables of the
    questions of the section, separated by commas. *)
Fixpoint cutAt (c : ascii) (s : string) : option (string * string) :=
  match s with
  | EmptyString => None
  | String a r =>
      if Ascii.eqb a c then Some (EmptyString, r)
      else match cutAt c r with
           | Some (k, v) => Some (String a k, v)
           | None => None
           end
  end.

Definition trimSpace (s : string) : string :=
  match s with
  | String a r => if Ascii.eqb a " " then r else s
  | EmptyString => s
  end.

Definition decodeLines {A} (val : string -> A) (s : string) : option (list (string * A)) :=
  foldr (fun line acc =>
           match acc with
           | None => None
           | Some l =>
               if String.eqb line "" then Some l
               else match cutAt ":" line with
                    | Some (k, v) => Some ((k, val (trimSpace v)) :: l)
                    | None => None
                    end
           end) (Some []) (Split nl s).

Definition decodeConfig (s : string) : option (gmap string string) :=
  match decodeLines (fun v => v) s with
  | Some l => Some (fold_left (fun m kv => <[fst kv := snd kv]> m) l ∅)
  | None => None
  end.

Definition question (v : string) : Question := mkQuestion v "" "" false "" "".

Definition decodeSections (s : string) : option (list (string * RancherCompose)) :=
  decodeLines (fun v => mkRancherCompose
                          (if String.eqb v "" then []
                           else List.map question (Split "," v))) s.

(** Two orders in which [range] may visit the keys of a map. *)
Definition ascending (_ : string) (m : gmap string RancherCompose) : list string :=
  (map_to_list m).*1.
Definition descending (_ : string) (m : gmap string RancherCompose) : list string :=
  rev (map_to_list m).*1.

(** [git pull] finds nothing new. *)
Definition upToDate (t : option node) : option node * bool := (t, true).

Definition env (order : string -> gmap string RancherCompose -> list string)
    (pull : option node -> option node * bool) : Env :=
  mkEnv "https://example.org/catalog.git" 60 decodeConfig decodeSections order
    upToDate pull.

Definition E0 : Env := env ascending upToDate.

Definition line2 (a b : string) : string := a +:+ String nl b.

(** Template [t] with six versions, and a template directory [broken]
    whose entries cannot be listed. *)
Definition templates : node :=
  Dir true
    [("broken", Dir false []);
     ("t", Dir true
        [("1", Dir true
            [("docker-compose.yml", File (Some "web: nginx"));
             ("rancher-compose.yml", File (Some "catalog: scale"))]);
         ("2", Dir true [("config.yml", File (Some "name: B"))]);
         ("3", Dir true [("config.yml.bak", File (Some "name: Z"))]);
         ("4", Dir true [("docker-compose.yml", File None)]);
         ("5", Dir true [("rancher-compose.yml", File (Some "not a mapping"))]);
         ("6", Dir true
            [("rancher-compose.yml",
              File (Some (line2 "a: x" "b: y")))]);
         ("catalogIcon-t.svg", File (Some "<svg/>"));
         ("config.yml", File (Some (line2 "name: A" "category: C")))])].

(** The service before [Init]. *)
Definition boot (tr : option node) : World := mkWorld ∅ [] tr [].

(** The service after [Init] on [templates]. *)
Definition serving (E : Env) : World := snd (Init E (boot (Some templates))).

(** Template [u] without metadata: in one tree it has no version [1], in
    the other its version [1] holds a config file that does not decode. *)
Definition missing : node := Dir true [("u", Dir true [])].
Definition malformed : node :=
  Dir true [("u", Dir true [("1", Dir true [("config.yml", File (Some "garbage"))])])].

(** Upstream dropped template [old] and added [new]. *)
Definition before : node := Dir true [("old", Dir true []); ("t", Dir true [])].
Definition after : node := Dir true [("new", Dir true []); ("t", Dir true [("1", Dir true [])])].
Definition pullAfter (_ : option node) : option node * bool := (Some after, true).

(** The service that has served [before] and has just pulled [after]. *)
Definition pulled : World :=
  snd (pullCatalog (env ascending pullAfter) (snd (Init E0 (boot (Some before))))).

(** The entries of template directory [t] may be read by name but not
    looked at (a directory with mode [r--]); [a] comes before it in the
    walk and [z] after it. *)
Definition locked : node :=
  Dir true [("a", Dir true []);
            ("t", Dir true [("1", NoStat); ("config.yml", NoStat)]);
            ("z", Dir true [])].
Definition pullLocked (_ : option node) : option node * bool := (Some locked, true).

(** The checkout has gone. *)
Definition pullGone (_ : option node) : option node * bool := (None, false).

(** The pull fails and leaves the tree as it is. *)
Definition pullFails (t : option node) : option node * bool := (t, false).

End Ex.

(** ** Further notions *)

(** A computation that, however it ends, takes a state to one related to
    it by [R]. *)
Definition respects (R : relation World) {A} (c : M A) : Prop :=
  forall w, R w (snd (c w)).

(** A logger call at error or debug level. *)
Definition quietEvent (e : Event) : bool :=
  match e with
  | Log Error _ | Log Debug _ => true
  | _ => false
  end.

(** The state after a computation that has done nothing but log, at error
    or debug level. *)
Definition onlyLogs (w w' : World) : Prop :=
  exists evs, w' = emitAll evs w /\ forallb quietEvent evs = true.

(** Every key of the catalog is as it was or holds an entry whose
    [Path] is the key. *)
Definition installs (w w' : World) : Prop :=
  forall k, Catalog w' !! k = Catalog w !! k
            \/ exists t, Catalog w' !! k = Some t /\ Path t = k.

(** The state after a computation that has left the tree and the gate
    alone, has logged at error or debug level, and has done nothing to
    the catalog but install entries under their [Path]. *)
Definition onlyInstalls (w w' : World) : Prop :=
  tree w' = tree w
  /\ refreshReqChannel w' = refreshReqChannel w
  /\ installs w w'
  /\ exists evs, events w' = events w ++ evs /\ forallb quietEvent evs = true.

(** Every entry of the catalog sits under its own [Path]. *)
Definition keyedByPath (c : gmap string Template) : Prop :=
  forall k t, c !! k = Some t -> Path t = k.

(** The entries of a listing that the loops take for icons, for
    deployment manifests and for orchestration manifests. *)
Definition iconsOf (dirList : list FileInfo) : list FileInfo :=
  List.filter isIconEntry dirList.
Definition dockersOf (dirList : list FileInfo) : list FileInfo :=
  List.filter isDockerEntry dirList.
Definition ranchersOf (dirList : list FileInfo) : list FileInfo :=
  List.filter isRancherEntry dirList.

(** The entries of the listing of a template directory that
    [walkCatalog] takes for an icon: files, not directories. *)
Definition templateIconsOf (dirList : list FileInfo) : list FileInfo :=
  List.filter (fun f => negb (IsDir f) && HasPrefix (FName f) "catalogIcon") dirList.

(** Is [v] the name of a directory in the listing? *)
Definition isVersionOf (dirList : list FileInfo) (v : string) : bool :=
  existsb (fun f => IsDir f && String.eqb (FName f) v) dirList.

(** The contents of a file of the version directory [path], empty when
    it cannot be read. *)
Definition contentsOf (T : option node) (path : string) (f : FileInfo) : string :=
  default "" (FS.ReadFile T ((catalogRoot +:+ path) +:+ "/" +:+ FName f)).

(** The questions after the loop of [ReadTemplateVersion] has come to
    the orchestration manifest [f], with [qs] gathered before it. *)
Definition questionsAfter (E : Env) (T : option node) (path : string)
    (qs : list Question) (f : FileInfo) : list Question :=
  match yaml_sections E (contentsOf T path f) with
  | None => qs
  | Some secs =>
      match last (range_order E (FName f) (sectionsMap secs)) with
      | Some key => RC_Questions (sectionAt (sectionsMap secs) key)
      | None => qs
      end
  end.

(** The commands and messages counted below. *)
Definition isPullEvent (e : Event) : bool :=
  match e with
  | Exec argv => bool_decide (argv = ["git"; "-C"; "./DATA"; "pull"; "origin"; "master"])
  | Log _ _ => false
  end.

Definition isSkipEvent (e : Event) : bool :=
  match e with
  | Log Info msg => String.eqb msg Gate.skipMessage
  | _ => false
  end.

Definition pulls (evs : list Event) : nat := length (List.filter isPullEvent evs).
Definition skips (evs : list Event) : nat := length (List.filter isSkipEvent evs).

(** A pull of a tree in which the walk can look at every entry it comes
    to leaves such a tree. *)
Definition keepsWalkable (E : Env) : Prop :=
  forall T, walkableTree T = true -> walkableTree (fst (git_pull E T)) = true.

(** What [pullCatalog] logs and runs. *)
Definition pullEvents (E : Env) (ok : bool) : list Event :=
  [Log Info "Pulling the catalog from github to sync any new changes";
   Exec ["git"; "-C"; "./DATA"; "pull"; "origin"; "master"]]
  ++ (if ok then []
      else [Log Error ("Failed to pull the catalog from github repo " +:+ catalogUrl E)]).

(** The actions a goroutine at [p] has left, at most. *)
Definition remaining (p : Gate.pc) : nat :=
  match p with
  | Gate.Start => 4
  | Gate.Pulling => 3
  | Gate.Walking => 2
  | Gate.Releasing => 1
  | Gate.Done | Gate.Stuck => 0
  end.

Definition work (ths : list Gate.pc) : nat := foldr (fun p n => remaining p + n)%nat 0%nat ths.

(** A state of the goroutines in which the gate is sound, the walk can
    look at every entry of the tree it comes to and no goroutine has
    panicked or blocked. *)
Definition healthy (s : Gate.System) : Prop :=
  Gate.gateInv s
  /\ walkableTree (tree (snd s)) = true
  /\ Forall (fun p => p <> Gate.Stuck) (fst s).

(** * Properties *)

(** ** Strings and states *)

Lemma Split_nonempty sep s : Split sep s <> [].
Proof.
  destruct s as [|c r]; simpl; [discriminate|].
  destruct (Ascii.eqb c sep); [discriminate|].
  destruct (Split sep r); discriminate.
Qed.

Lemma Split_head sep s : exists t ts, Split sep s = t :: ts.
Proof.
  destruct (Split sep s) as [|t ts] eqn:H; [|eauto].
  exfalso. by apply (Split_nonempty sep s).
Qed.

Lemma Split_app s1 s2 :
  Split slash (s1 +:+ String slash s2) = (Split slash s1 ++ Split slash s2)%list.
Proof.
  induction s1 as [|c r IH]; simpl.
  - reflexivity.
  - destruct (Ascii.eqb c slash).
    + by rewrite IH.
    + rewrite IH. destruct (Split_head slash r) as (t & ts & ->). reflexivity.
Qed.

Lemma Split_noslash s : Contains slash s = false -> Split slash s = [s].
Proof.
  induction s as [|c r IH]; simpl; [reflexivity|].
  intros H. apply orb_false_iff in H as [Hc Hr].
  rewrite Hc, (IH Hr). reflexivity.
Qed.

Lemma templateId_lookup path : Split slash path !! 0%nat = Some (templateId path).
Proof.
  unfold templateId. destruct (Split_head slash path) as (t & ts & ->). reflexivity.
Qed.

Lemma emitAll_nil w : emitAll [] w = w.
Proof. destruct w; unfold emitAll; simpl. by rewrite app_nil_r. Qed.

Lemma emitAll_app e1 e2 w : emitAll e2 (emitAll e1 w) = emitAll (e1 ++ e2) w.
Proof. unfold emitAll; simpl. by rewrite app_assoc. Qed.

Lemma prefix_String a s t :
  String.prefix (String a s) t = true ->
  exists t', t = String a t' /\ String.prefix s t' = true.
Proof.
  destruct t as [|b t']; cbn [String.prefix]; [discriminate|].
  destruct (ascii_dec a b) as [->|]; [eauto | discriminate].
Qed.

(** The four prefixes the loop of [ReadTemplateVersion] tests exclude one
    another, so the order of the tests does not matter. *)
Lemma entry_kinds_exclusive f :
  (isConfigEntry f = true -> isIconEntry f = false /\ isComposeEntry f = false)
  /\ (isIconEntry f = true -> isComposeEntry f = false)
  /\ (isDockerEntry f = true -> isRancherEntry f = false).
Proof.
  unfold isConfigEntry, isIconEntry, isComposeEntry, isDockerEntry,
    isRancherEntry, HasPrefix.
  split_and!.
  - intros (t & -> & (t' & -> & _)%prefix_String)%prefix_String. done.
  - intros (t & -> & _)%prefix_String. done.
  - intros (t & -> & _)%prefix_String. done.
Qed.

(** ** Reading a version directory *)

Section VersionFacts.

Variable E : Env.

Lemma configFields_applyConfig cfg t :
  configFields (applyConfig cfg t) = applyConfigF cfg (configFields t).
Proof. by destruct cfg. Qed.

Lemma applyConfigF_idem cfg fields :
  applyConfigF cfg (applyConfigF cfg fields) = applyConfigF cfg fields.
Proof. by destruct cfg. Qed.

(** [readTemplateConfig] returns, touches nothing but the log, and logs an
    error exactly when there is no config file it can read and decode. *)
Lemma readTemplateConfig_spec relativePath t w :
  exists evs,
    readTemplateConfig E relativePath t w
    = (Ret (applyConfig (configOf E (tree w) relativePath) t), emitAll evs w)
    /\ (configOf E (tree w) relativePath = None -> exists msg, evs = [Log Error msg])
    /\ (configOf E (tree w) relativePath <> None -> evs = []).
Proof.
  unfold readTemplateConfig, configOf, bind, ioutil_ReadFile, gets, logf, modify, ret.
  destruct (FS.ReadFile (tree w) (relativePath +:+ "/config.yml")) as [data|].
  - destruct (yaml_config E data) as [config|].
    + exists []. rewrite emitAll_nil. by split_and!.
    + eexists [_]. split_and!; [reflexivity | eauto | done].
  - eexists [_]. split_and!; [reflexivity | eauto | done].
Qed.

Lemma readFile_spec relativePath fileName w :
  exists evs,
    readFile relativePath fileName w
    = (Ret (FS.ReadFile (tree w) (relativePath +:+ "/" +:+ fileName)), emitAll evs w)
    /\ (FS.ReadFile (tree w) (relativePath +:+ "/" +:+ fileName) = None ->
        exists msg, evs = [Log Error msg]).
Proof.
  unfold readFile, bind, ioutil_ReadFile, gets, logf, modify, ret.
  destruct (FS.ReadFile (tree w) (relativePath +:+ "/" +:+ fileName)) as [data|].
  - exists []. by rewrite emitAll_nil.
  - eexists [_]. split; [reflexivity | eauto].
Qed.

Lemma rangeQuestions_fields fileName RC t :
  configFields (rangeQuestions E fileName RC t) = configFields t
  /\ IconLink (rangeQuestions E fileName RC t) = IconLink t
  /\ Path (rangeQuestions E fileName RC t) = Path t.
Proof.
  unfold rangeQuestions.
  generalize (range_order E fileName RC). intros keys. revert t.
  induction keys as [|k keys IH]; intros t; simpl; [done|].
  destruct (IH (set_Questions (RC_Questions (sectionAt RC k)) t)) as (-> & -> & ->).
  done.
Qed.

(** One turn of the loop, when the entry is not a compose file that
    cannot be read. *)
Lemma versionEntry_spec path t fc fi f w :
  (isComposeEntry f = true ->
   FS.ReadFile (tree w) ((catalogRoot +:+ path) +:+ "/" +:+ FName f) <> None) ->
  exists t' evs,
    versionEntry E path (t, fc, fi) f w
    = (Ret (t', fc || isConfigEntry f, fi || isIconEntry f), emitAll evs w)
    /\ configFields t'
       = (if isConfigEntry f
          then applyConfigF (configOf E (tree w) (catalogRoot +:+ path)) (configFields t)
          else configFields t)
    /\ IconLink t' = (if isIconEntry f then path +:+ "/" +:+ FName f else IconLink t)
    /\ Path t' = Path t
    /\ (isConfigEntry f = true ->
        configOf E (tree w) (catalogRoot +:+ path) = None ->
        exists msg, Log Error msg ∈ evs).
Proof.
  intros Hread.
  destruct (entry_kinds_exclusive f) as (Hcfg & Hicon & _).
  unfold versionEntry. fold (isConfigEntry f) (isIconEntry f).
  destruct (isConfigEntry f) eqn:Ec.
  { destruct (Hcfg eq_refl) as [-> _].
    destruct (readTemplateConfig_spec (catalogRoot +:+ path) t w) as (evs & Hr & Hnone & _).
    unfold bind. rewrite Hr. unfold ret.
    eexists _, evs. rewrite !orb_true_r, !orb_false_r.
    split_and!; try reflexivity.
    - apply configFields_applyConfig.
    - by destruct (configOf E (tree w) (catalogRoot +:+ path)).
    - by destruct (configOf E (tree w) (catalogRoot +:+ path)).
    - intros _ Hn. destruct (Hnone Hn) as [msg ->]. exists msg. by apply list_elem_of_singleton. }
  destruct (isIconEntry f) eqn:Ei.
  { exists (set_IconLink (path +:+ "/" +:+ FName f) t), [].
    rewrite emitAll_nil, !orb_true_r, !orb_false_r. unfold ret.
    by split_and!. }
  rewrite !orb_false_r.
  fold (isDockerEntry f) (isRancherEntry f).
  unfold isComposeEntry in Hread.
  destruct (isDockerEntry f) eqn:Ed.
  { destruct (readFile_spec (catalogRoot +:+ path) (FName f) w) as (evs & Hr & _).
    unfold bind. rewrite Hr.
    destruct (FS.ReadFile (tree w) ((catalogRoot +:+ path) +:+ "/" +:+ FName f)) as [s|];
      [|by destruct (Hread eq_refl)].
    simpl. unfold ret. by eexists _, evs. }
  destruct (isRancherEntry f) eqn:Er.
  { destruct (readFile_spec (catalogRoot +:+ path) (FName f) w) as (evs & Hr & _).
    unfold bind. rewrite Hr.
    destruct (FS.ReadFile (tree w) ((catalogRoot +:+ path) +:+ "/" +:+ FName f)) as [s|];
      [|by destruct (Hread eq_refl)].
    simpl. unfold ret.
    destruct (yaml_sections E s) as [secs|].
    - eexists _, evs.
      destruct (rangeQuestions_fields (FName f) (sectionsMap secs)
                  (set_RancherComposeText s t)) as (-> & -> & ->).
      by split_and!.
    - unfold logf, modify, bind. eexists _, (evs ++ [_])%list.
      rewrite <- emitAll_app. by split_and!. }
  exists t, []. rewrite emitAll_nil. unfold ret. by split_and!.
Qed.

Lemma composeReadable_cons T path f l :
  composeReadable T path (f :: l) ->
  (isComposeEntry f = true ->
   FS.ReadFile T ((catalogRoot +:+ path) +:+ "/" +:+ FName f) <> None)
  /\ composeReadable T path l.
Proof. unfold composeReadable. by intros [? ?]%Forall_cons. Qed.

(** The whole loop over the entries of a version directory. *)
Lemma versionLoop_spec path dirList : forall t fc fi w,
  composeReadable (tree w) path dirList ->
  exists t' evs,
    foldM (versionEntry E path) (t, fc, fi) dirList w
    = (Ret (t', fc || existsb isConfigEntry dirList, fi || existsb isIconEntry dirList),
       emitAll evs w)
    /\ configFields t'
       = (if existsb isConfigEntry dirList
          then applyConfigF (configOf E (tree w) (catalogRoot +:+ path)) (configFields t)
          else configFields t)
    /\ (existsb isIconEntry dirList = false -> IconLink t' = IconLink t)
    /\ Path t' = Path t
    /\ (existsb isConfigEntry dirList = true ->
        configOf E (tree w) (catalogRoot +:+ path) = None ->
        exists msg, Log Error msg ∈ evs).
Proof.
  induction dirList as [|f l IH]; intros t fc fi w Hread.
  - exists t, []. simpl. rewrite emitAll_nil, !orb_false_r. unfold ret.
    by split_and!.
  - apply composeReadable_cons in Hread as [Hf Hl].
    destruct (versionEntry_spec path t fc fi f w Hf)
      as (t1 & e1 & Hstep & Hcfg1 & Hicon1 & Hpath1 & Hlog1).
    destruct (IH t1 (fc || isConfigEntry f) (fi || isIconEntry f) (emitAll e1 w) Hl)
      as (t2 & e2 & Hrest & Hcfg2 & Hicon2 & Hpath2 & Hlog2).
    exists t2, (e1 ++ e2)%list.
    cbn [foldM]. unfold bind at 1. rewrite Hstep, Hrest, emitAll_app.
    cbn [existsb]. rewrite !orb_assoc.
    cbn [tree emitAll] in *.
    split_and!.
    + reflexivity.
    + rewrite Hcfg2, Hcfg1.
      destruct (isConfigEntry f), (existsb isConfigEntry l); simpl;
        by rewrite ?applyConfigF_idem.
    + intros [Hi1 Hi2]%orb_false_iff. rewrite (Hicon2 Hi2), Hicon1, Hi1. done.
    + by rewrite Hpath2.
    + intros Hex Hnone.
      apply orb_true_iff in Hex as [Hex|Hex].
      * destruct (Hlog1 Hex Hnone) as [msg Hin]. exists msg.
        apply elem_of_app. by left.
      * destruct (Hlog2 Hex Hnone) as [msg Hin]. exists msg.
        apply elem_of_app. by right.
Qed.

End VersionFacts.

Section VersionResult.

Variable E : Env.

Lemma parentPathOf_spec path w : parentPathOf path w = (Ret (templateId path), w).
Proof. unfold parentPathOf. by rewrite templateId_lookup. Qed.

(** A version directory that cannot be listed: the error is logged and
    the template that is returned has its [Path] only. *)
Lemma ReadTemplateVersion_unlisted path w :
  FS.ReadDir (tree w) (catalogRoot +:+ path) = None ->
  ReadTemplateVersion E path w
  = (Ret (set_Path path emptyTemplate),
     emit (Log Error ("Error reading template at path: " +:+ path)) w).
Proof.
  intros H. unfold ReadTemplateVersion, bind, ioutil_ReadDir, gets. by rewrite H.
Qed.

(** A version directory that is listed and whose compose files can be
    read: [ReadTemplateVersion] returns, and the config fields and the
    icon are the version's own or the parent's. *)
Lemma ReadTemplateVersion_listed path dirList w :
  FS.ReadDir (tree w) (catalogRoot +:+ path) = Some dirList ->
  composeReadable (tree w) path dirList ->
  exists t evs,
    ReadTemplateVersion E path w = (Ret t, emitAll evs w)
    /\ Path t = path
    /\ configFields t
       = (if existsb isConfigEntry dirList
          then applyConfigF (configOf E (tree w) (catalogRoot +:+ path)) noFields
          else match Catalog w !! templateId path with
               | Some parent => configFields parent
               | None => noFields
               end)
    /\ (existsb isIconEntry dirList = false ->
        IconLink t = match Catalog w !! templateId path with
                     | Some parent => IconLink parent
                     | None => ""
                     end)
    /\ (existsb isConfigEntry dirList = true ->
        configOf E (tree w) (catalogRoot +:+ path) = None ->
        exists msg, Log Error msg ∈ evs)
    /\ (Catalog w !! templateId path = None ->
        existsb isConfigEntry dirList && existsb isIconEntry dirList = false ->
        Log Debug ("Could not find the parent metadata " +:+ templateId path) ∈ evs).
Proof.
  intros Hdir Hread.
  destruct (versionLoop_spec E path dirList (set_Path path emptyTemplate) false false w Hread)
    as (t1 & e1 & Hloop & Hcfg & Hicon & Hpath & Hlog).
  unfold ReadTemplateVersion, ioutil_ReadDir, gets.
  unfold bind at 1. rewrite Hdir.
  unfold bind at 1. rewrite Hloop. cbn [orb].
  set (msg := "Could not find the parent metadata " +:+ templateId path).
  destruct (existsb isConfigEntry dirList) eqn:Ec;
    destruct (existsb isIconEntry dirList) eqn:Ei;
    cbn [negb]; unfold bind, ret, gets, logf, modify;
    rewrite ?parentPathOf_spec; cbn [Catalog emitAll emit];
    destruct (Catalog w !! templateId path) as [parent|] eqn:Ep;
    rewrite ?parentPathOf_spec; cbn [Catalog emitAll emit]; rewrite ?Ep.
  all: cbn [negb andb] in *.
  all: first
    [ eexists _, e1; split_and!;
      [ reflexivity | .. ]
    | eexists _, (e1 ++ [Log Debug msg])%list; split_and!;
      [ unfold emitAll, emit; cbn; by rewrite <- ?app_assoc | .. ]
    | eexists _, (e1 ++ [Log Debug msg; Log Debug msg])%list; split_and!;
      [ unfold emitAll, emit; cbn; by rewrite <- ?app_assoc | .. ] ].
  all: cbn; rewrite ?Hpath, ?Hcfg; try done.
  all: try (intros; rewrite ?Hicon by done; done).
  all: try (intros H1 H2; destruct (Hlog H1 H2) as [m Hm]; exists m;
            apply elem_of_app; by left).
  all: intros _ _; apply elem_of_app; right; apply elem_of_cons; by left.
Qed.

End VersionResult.

(** ** Paths and the tree *)

Lemma segments_app p name :
  FS.segments (p +:+ "/" +:+ name) = (FS.segments p ++ FS.segments name)%list.
Proof.
  unfold FS.segments.
  change (p +:+ "/" +:+ name) with (p +:+ String slash name).
  by rewrite Split_app, List.filter_app.
Qed.

Lemma descend_snoc name l : forall up n d,
  name <> ".." ->
  FS.descend up n l = Some d ->
  FS.descend up n (l ++ [name])
  = match d with
    | Dir _ es => FS.lookupEntry name es
    | File _ | NoStat => None
    end.
Proof.
  intros up n d Hname. revert up n.
  induction l as [|s l IH]; intros up n; cbn [FS.descend app].
  - intros [= ->]. apply String.eqb_neq in Hname.
    destruct d as [|r es|]; [done | | done]. rewrite Hname.
    by destruct (FS.lookupEntry name es).
  - destruct n as [|r es|]; [done | | done].
    destruct (String.eqb s "..").
    + destruct up as [|p up]; [done | apply IH].
    + destruct (FS.lookupEntry s es); [apply IH | done].
Qed.

Lemma lookupEntry_None name es :
  (forall e, e ∈ es -> fst e <> name) -> FS.lookupEntry name es = None.
Proof.
  induction es as [|[n x] es IH]; intros H; simpl; [done|].
  destruct (String.eqb_spec n name) as [->|_].
  - exfalso. apply (H (name, x)); [apply elem_of_cons; by left | done].
  - apply IH. intros e He. apply H, elem_of_cons. by right.
Qed.

(** A path below a directory names the entry of that name. *)
Lemma resolve_child T p name d :
  FS.resolve T p = Some d ->
  FS.segments name = [name] ->
  name <> ".." ->
  FS.resolve T (p +:+ "/" +:+ name)
  = match d with
    | Dir _ es => FS.lookupEntry name es
    | File _ | NoStat => None
    end.
Proof.
  unfold FS.resolve. rewrite segments_app. intros Hp -> Hname.
  by apply descend_snoc.
Qed.

(** A file that is not listed in its directory cannot be read. *)
Lemma ReadFile_unlisted T p name dirList :
  FS.ReadDir T p = Some dirList ->
  FS.segments name = [name] ->
  name <> ".." ->
  (forall f, f ∈ dirList -> FName f <> name) ->
  FS.ReadFile T (p +:+ "/" +:+ name) = None.
Proof.
  unfold FS.ReadDir, FS.ReadFile. intros Hdir Hname Hdots Hnot.
  destruct (FS.resolve T p) as [d|] eqn:Hp; [|done].
  rewrite (resolve_child T p name d Hp Hname Hdots).
  destruct d as [|[] es|]; try done.
  destruct (forallb (fun e => statable (snd e)) es); [|done].
  injection Hdir as <-.
  rewrite lookupEntry_None; [done|].
  intros e He. apply (Hnot (infoOf e)).
  apply list_elem_of_In, in_map, list_elem_of_In, He.
Qed.

Lemma existsb_elem {A} (P : A -> bool) (l : list A) :
  existsb P l = true <-> exists x, x ∈ l /\ P x = true.
Proof.
  rewrite existsb_exists. split; intros (x & Hx & HP); exists x;
    (split; [by apply list_elem_of_In | done]).
Qed.

Lemma existsb_none {A} (P : A -> bool) (l : list A) :
  (forall x, x ∈ l -> P x = false) -> existsb P l = false.
Proof.
  intros H. destruct (existsb P l) eqn:E; [|done].
  apply existsb_elem in E as (x & Hx & HP). by rewrite (H x Hx) in HP.
Qed.

(** ** What [ReadTemplateVersion] returns *)

(** C4. A version directory with its own [config.yml] gets name, category,
    description and default version from that file; one without a config
    file gets the four fields of the parent summary, looked up in
    [Catalog] by template id.  (In full: with an entry that starts with
    [config.yml] the fields are those of the decoded [config.yml], empty
    when it does not decode; without one they are those of the parent,
    empty when there is none.) *)
Theorem ReadTemplateVersion_config_inheritance E w path dirList :
  FS.ReadDir (tree w) (catalogRoot +:+ path) = Some dirList ->
  composeReadable (tree w) path dirList ->
  exists t w',
    ReadTemplateVersion E path w = (Ret t, w')
    /\ (forall config,
          (exists f, f ∈ dirList /\ FName f = "config.yml") ->
          configOf E (tree w) (catalogRoot +:+ path) = Some config ->
          configFields t = configValues config)
    /\ (forall parent,
          (forall f, f ∈ dirList -> isConfigEntry f = false) ->
          Catalog w !! templateId path = Some parent ->
          configFields t = configFields parent)
    /\ configFields t
       = if existsb isConfigEntry dirList
         then applyConfigF (configOf E (tree w) (catalogRoot +:+ path)) noFields
         else match Catalog w !! templateId path with
              | Some parent => configFields parent
              | None => noFields
              end.
Proof.
  intros Hdir Hread.
  destruct (ReadTemplateVersion_listed E path dirList w Hdir Hread)
    as (t & evs & Hrun & _ & Hcfg & _).
  exists t, (emitAll evs w). split_and!; [done | | | done].
  - intros config (f & Hf & Hname) Hconfig.
    assert (existsb isConfigEntry dirList = true) as Hex.
    { apply existsb_elem. exists f. split; [done|].
      unfold isConfigEntry. by rewrite Hname. }
    by rewrite Hcfg, Hex, Hconfig.
  - intros parent Hnone Hparent.
    by rewrite Hcfg, (existsb_none _ _ Hnone), Hparent.
Qed.

(** C10. A version directory with an entry such as [config.yml.bak] and no
    [config.yml]: the loop marks the version's own config as found, the
    read of [config.yml] fails and is logged, and the four config fields
    come back empty whatever the parent summary holds. *)
Theorem config_prefix_suppresses_inheritance E w path dirList :
  FS.ReadDir (tree w) (catalogRoot +:+ path) = Some dirList ->
  composeReadable (tree w) path dirList ->
  (exists f, f ∈ dirList /\ isConfigEntry f = true /\ FName f <> "config.yml") ->
  (forall f, f ∈ dirList -> FName f <> "config.yml") ->
  FS.ReadFile (tree w) ((catalogRoot +:+ path) +:+ "/config.yml") = None
  /\ (exists t1 foundIcon w1,
        foldM (versionEntry E path) (set_Path path emptyTemplate, false, false) dirList w
        = (Ret (t1, true, foundIcon), w1))
  /\ exists t w',
       ReadTemplateVersion E path w = (Ret t, w')
       /\ configFields t = noFields
       /\ exists msg, Log Error msg ∈ events w'.
Proof.
  intros Hdir Hread (f & Hf & Hpre & _) Hexact.
  assert (FS.ReadFile (tree w) ((catalogRoot +:+ path) +:+ "/config.yml") = None) as Hfile.
  { by apply (ReadFile_unlisted _ _ "config.yml" dirList). }
  assert (configOf E (tree w) (catalogRoot +:+ path) = None) as Hcfg
    by (unfold configOf; by rewrite Hfile).
  assert (existsb isConfigEntry dirList = true) as Hex
    by (apply existsb_elem; eauto).
  split_and!; [done | |].
  - destruct (versionLoop_spec E path dirList (set_Path path emptyTemplate) false false w Hread)
      as (t1 & e1 & Hloop & _).
    rewrite Hex in Hloop. eauto.
  - destruct (ReadTemplateVersion_listed E path dirList w Hdir Hread)
      as (t & evs & Hrun & _ & Hfields & _ & Hlog & _).
    exists t, (emitAll evs w). split_and!; [done | |].
    + by rewrite Hfields, Hex, Hcfg.
    + destruct (Hlog Hex Hcfg) as [msg Hmsg]. exists msg.
      cbn. apply elem_of_app. by right.
Qed.

(** C7. A version whose template id has no entry in [Catalog]: the lookup
    still returns; the config fields and the icon it would have inherited
    stay empty, and the failure is logged (at debug level when the
    directory exists, as an error when it does not). *)
Theorem missing_parent_is_not_fatal E w path :
  Catalog w !! templateId path = None ->
  (forall dirList,
     FS.ReadDir (tree w) (catalogRoot +:+ path) = Some dirList ->
     composeReadable (tree w) path dirList) ->
  exists t evs,
    ReadTemplateVersion E path w = (Ret t, emitAll evs w)
    /\ match FS.ReadDir (tree w) (catalogRoot +:+ path) with
       | None =>
           t = set_Path path emptyTemplate
           /\ Log Error ("Error reading template at path: " +:+ path) ∈ evs
       | Some dirList =>
           (existsb isConfigEntry dirList = false -> configFields t = noFields)
           /\ (existsb isIconEntry dirList = false -> IconLink t = "")
           /\ (existsb isConfigEntry dirList && existsb isIconEntry dirList = false ->
               Log Debug ("Could not find the parent metadata " +:+ templateId path) ∈ evs)
       end.
Proof.
  intros Hparent Hread.
  destruct (FS.ReadDir (tree w) (catalogRoot +:+ path)) as [dirList|] eqn:Hdir.
  - destruct (ReadTemplateVersion_listed E path dirList w Hdir (Hread dirList eq_refl))
      as (t & evs & Hrun & _ & Hcfg & Hicon & _ & Hdebug).
    exists t, evs. rewrite Hparent in Hcfg, Hicon. split_and!; [done | | done | by apply Hdebug].
    intros Hex. by rewrite Hcfg, Hex.
  - eexists _, [_]. split; [by apply ReadTemplateVersion_unlisted|].
    split; [done | by apply list_elem_of_singleton].
Qed.

(** C5, as the code has it.  A version directory that cannot be listed
    yields no error value: the failure is logged and the template with
    only its [Path] is returned, as for a directory without usable
    metadata.  And the lookup returns whenever the compose files that are
    listed can be read, whatever else is missing. *)
Theorem ReadTemplateVersion_missing_directory E w path :
  (FS.ReadDir (tree w) (catalogRoot +:+ path) = None ->
   ReadTemplateVersion E path w
   = (Ret (set_Path path emptyTemplate),
      emit (Log Error ("Error reading template at path: " +:+ path)) w))
  /\ (forall dirList,
        FS.ReadDir (tree w) (catalogRoot +:+ path) = Some dirList ->
        composeReadable (tree w) path dirList ->
        exists t w', ReadTemplateVersion E path w = (Ret t, w') /\ Path t = path).
Proof.
  split.
  - apply ReadTemplateVersion_unlisted.
  - intros dirList Hdir Hread.
    destruct (ReadTemplateVersion_listed E path dirList w Hdir Hread)
      as (t & evs & Hrun & Hpath & _).
    by exists t, (emitAll evs w).
Qed.

(** ** Compose files *)

Section ComposeFacts.

Variable E : Env.

Lemma foldM_app {A B} (f : A -> B -> M A) (a : A) (l1 l2 : list B) (w : World) :
  foldM f a (l1 ++ l2)%list w = bind (foldM f a l1) (fun a' => foldM f a' l2) w.
Proof.
  revert a w. induction l1 as [|b l1 IH]; intros a w; simpl.
  - reflexivity.
  - unfold bind. destruct (f a b w) as [[a'| | |] w']; try reflexivity.
    by rewrite IH.
Qed.

(** The loop over the keys leaves the questions of the key visited last. *)
Lemma rangeQuestions_last fileName RC t :
  Questions (rangeQuestions E fileName RC t)
  = match last (range_order E fileName RC) with
    | Some key => RC_Questions (sectionAt RC key)
    | None => Questions t
    end.
Proof.
  unfold rangeQuestions. generalize (range_order E fileName RC). intros keys.
  revert t. induction keys as [|k keys IH]; intros t; [done|].
  cbn [fold_left]. rewrite IH. destruct keys as [|k' keys]; [done|].
  change (last (k :: k' :: keys)) with (last (k' :: keys)).
  destruct (last (k' :: keys)) eqn:Hlast; [done|].
  by apply last_None in Hlast.
Qed.

Lemma rangeQuestions_text fileName RC t :
  RancherComposeText (rangeQuestions E fileName RC t) = RancherComposeText t.
Proof.
  unfold rangeQuestions. generalize (range_order E fileName RC). intros keys.
  revert t. induction keys as [|k keys IH]; intros t; [done|].
  cbn [fold_left]. by rewrite IH.
Qed.

(** An orchestration-compose file that is read and decoded. *)
Lemma versionEntry_rancher path t fc fi f w s secs :
  isRancherEntry f = true ->
  FS.ReadFile (tree w) ((catalogRoot +:+ path) +:+ "/" +:+ FName f) = Some s ->
  yaml_sections E s = Some secs ->
  versionEntry E path (t, fc, fi) f w
  = (Ret (rangeQuestions E (FName f) (sectionsMap secs) (set_RancherComposeText s t),
          fc, fi), w).
Proof.
  intros Hr Hfile Hyaml.
  destruct (entry_kinds_exclusive f) as (Hcfg & Hicon & Hdocker).
  unfold versionEntry. fold (isConfigEntry f) (isIconEntry f) (isDockerEntry f) (isRancherEntry f).
  unfold isComposeEntry in *. rewrite Hr, orb_true_r in *.
  destruct (isConfigEntry f); [by destruct (Hcfg eq_refl)|].
  destruct (isIconEntry f); [by discriminate (Hicon eq_refl)|].
  destruct (isDockerEntry f); [by discriminate (Hdocker eq_refl)|].
  unfold bind, readFile, ioutil_ReadFile, gets, bind. rewrite Hfile. cbn.
  by rewrite Hyaml.
Qed.

(** Entries other than orchestration-compose files leave the questions
    and the orchestration manifest alone. *)
Lemma versionEntry_keeps_questions path t fc fi f w :
  isRancherEntry f = false ->
  (isComposeEntry f = true ->
   FS.ReadFile (tree w) ((catalogRoot +:+ path) +:+ "/" +:+ FName f) <> None) ->
  exists t' fc' fi' evs,
    versionEntry E path (t, fc, fi) f w = (Ret (t', fc', fi'), emitAll evs w)
    /\ Questions t' = Questions t
    /\ RancherComposeText t' = RancherComposeText t.
Proof.
  intros Hr Hread. unfold isComposeEntry in Hread. rewrite Hr, orb_false_r in Hread.
  unfold versionEntry. fold (isConfigEntry f) (isIconEntry f) (isDockerEntry f) (isRancherEntry f).
  rewrite Hr.
  destruct (isConfigEntry f).
  { destruct (readTemplateConfig_spec E (catalogRoot +:+ path) t w) as (evs & Hc & _).
    unfold bind. rewrite Hc. unfold ret. eexists _, _, _, evs.
    split_and!; [done | by destruct (configOf E (tree w) (catalogRoot +:+ path)) ..]. }
  destruct (isIconEntry f).
  { eexists _, _, _, []. rewrite emitAll_nil. by split_and!. }
  destruct (isDockerEntry f).
  { destruct (readFile_spec (catalogRoot +:+ path) (FName f) w) as (evs & Hf & _).
    unfold bind. rewrite Hf.
    destruct (FS.ReadFile (tree w) ((catalogRoot +:+ path) +:+ "/" +:+ FName f)) as [s|];
      [|by destruct (Hread eq_refl)].
    cbn. eexists _, _, _, evs. by split_and!. }
  eexists _, _, _, []. rewrite emitAll_nil. by split_and!.
Qed.

Lemma versionLoop_keeps_questions path l : forall t fc fi w,
  existsb isRancherEntry l = false ->
  composeReadable (tree w) path l ->
  exists t' fc' fi' evs,
    foldM (versionEntry E path) (t, fc, fi) l w = (Ret (t', fc', fi'), emitAll evs w)
    /\ Questions t' = Questions t
    /\ RancherComposeText t' = RancherComposeText t.
Proof.
  induction l as [|f l IH]; intros t fc fi w Hno Hread.
  - eexists t, fc, fi, []. rewrite emitAll_nil. by split_and!.
  - cbn [existsb] in Hno. apply orb_false_iff in Hno as [Hf Hl].
    apply composeReadable_cons in Hread as [Hrf Hrl].
    destruct (versionEntry_keeps_questions path t fc fi f w Hf Hrf)
      as (t1 & fc1 & fi1 & e1 & Hstep & Hq1 & Hx1).
    destruct (IH t1 fc1 fi1 (emitAll e1 w) Hl Hrl)
      as (t2 & fc2 & fi2 & e2 & Hrest & Hq2 & Hx2).
    exists t2, fc2, fi2, (e1 ++ e2)%list.
    cbn [foldM]. unfold bind at 1. rewrite Hstep, Hrest, emitAll_app.
    split_and!; [done | by rewrite Hq2 | by rewrite Hx2].
Qed.

(** What follows the loop changes neither manifests nor questions. *)
Lemma ReadTemplateVersion_after_loop path dirList w t1 fc fi w1 :
  FS.ReadDir (tree w) (catalogRoot +:+ path) = Some dirList ->
  foldM (versionEntry E path) (set_Path path emptyTemplate, false, false) dirList w
  = (Ret (t1, fc, fi), w1) ->
  exists t w',
    ReadTemplateVersion E path w = (Ret t, w')
    /\ Questions t = Questions t1
    /\ RancherComposeText t = RancherComposeText t1
    /\ DockerCompose t = DockerCompose t1.
Proof.
  intros Hdir Hloop.
  unfold ReadTemplateVersion, ioutil_ReadDir, gets.
  unfold bind at 1. rewrite Hdir.
  unfold bind at 1. rewrite Hloop.
  destruct fc, fi; cbn [negb]; unfold bind, ret, gets, logf, modify;
    rewrite ?parentPathOf_spec;
    destruct (Catalog w1 !! templateId path) as [parent|] eqn:Ep;
    rewrite ?parentPathOf_spec; cbn [Catalog emit]; rewrite ?Ep;
    by eexists _, _.
Qed.

(** A compose file that is listed but cannot be read makes
    [ReadTemplateVersion] panic: [readFile] answers nil and the caller
    dereferences it. *)
Lemma versionEntry_unreadable_compose path st f w :
  isComposeEntry f = true ->
  FS.ReadFile (tree w) ((catalogRoot +:+ path) +:+ "/" +:+ FName f) = None ->
  fst (versionEntry E path st f w) = Panic.
Proof.
  intros Hc Hfile. destruct st as [[t fc] fi].
  destruct (entry_kinds_exclusive f) as (Hcfg & Hicon & _).
  unfold versionEntry. fold (isConfigEntry f) (isIconEntry f) (isDockerEntry f) (isRancherEntry f).
  destruct (isConfigEntry f); [destruct (Hcfg eq_refl); congruence|].
  destruct (isIconEntry f); [specialize (Hicon eq_refl); congruence|].
  unfold isComposeEntry in Hc.
  destruct (isDockerEntry f); [|cbn in Hc; rewrite Hc];
    unfold bind, readFile, ioutil_ReadFile, gets, bind; by rewrite Hfile.
Qed.

Lemma versionLoop_unreadable_compose path l : forall st w,
  (exists f, f ∈ l /\ isComposeEntry f = true
             /\ FS.ReadFile (tree w) ((catalogRoot +:+ path) +:+ "/" +:+ FName f) = None) ->
  fst (foldM (versionEntry E path) st l w) = Panic.
Proof.
  induction l as [|f0 l IH]; intros [[t fc] fi] w (f & Hin & Hc & Hfile).
  - by apply elem_of_nil in Hin.
  - cbn [foldM]. unfold bind.
    destruct (isComposeEntry f0) eqn:Hc0;
      [destruct (FS.ReadFile (tree w) ((catalogRoot +:+ path) +:+ "/" +:+ FName f0)) eqn:Hf0|].
    2: { pose proof (versionEntry_unreadable_compose path (t, fc, fi) f0 w Hc0 Hf0) as Hp.
         destruct (versionEntry E path (t, fc, fi) f0 w) as [[?| | |] ?]; by cbn in Hp. }
    all: destruct (versionEntry_spec E path t fc fi f0 w) as (t1 & e1 & -> & _);
      [congruence|].
    all: apply IH; exists f; split_and!; try done.
    all: apply elem_of_cons in Hin as [->|Hin]; [congruence | done].
Qed.

Lemma unreadable_compose_panics path dirList w f :
  FS.ReadDir (tree w) (catalogRoot +:+ path) = Some dirList ->
  f ∈ dirList ->
  isComposeEntry f = true ->
  FS.ReadFile (tree w) ((catalogRoot +:+ path) +:+ "/" +:+ FName f) = None ->
  fst (ReadTemplateVersion E path w) = Panic.
Proof.
  intros Hdir Hin Hc Hfile.
  pose proof (versionLoop_unreadable_compose path dirList
                (set_Path path emptyTemplate, false, false) w
                (ex_intro _ f (conj Hin (conj Hc Hfile)))) as Hloop.
  unfold ReadTemplateVersion, ioutil_ReadDir, gets.
  unfold bind at 1. rewrite Hdir. unfold bind at 1.
  destruct (foldM _ _ dirList w) as [[?| | |] ?]; by cbn in Hloop.
Qed.

End ComposeFacts.

Lemma fair_range_singleton E fileName key rc :
  fair_range E ->
  range_order E fileName (sectionsMap [(key, rc)]) = [key].
Proof.
  intros Hfair. specialize (Hfair fileName (sectionsMap [(key, rc)])).
  unfold sectionsMap in *. cbn [fold_left fst snd] in *.
  rewrite insert_empty, map_to_list_singleton in Hfair. cbn in Hfair.
  by apply Permutation_singleton_r in Hfair.
Qed.

(** A compose file that does not decode is survived: version [t/5] holds
    a [rancher-compose.yml] that is no mapping; the error is logged, the
    questions stay empty and the inherited fields are there. *)
Lemma malformed_compose_is_survived :
  exists t w',
    ReadTemplateVersion Ex.E0 "t/5" (Ex.serving Ex.E0) = (Ret t, w')
    /\ Questions t = [] /\ Name t = "A" /\ Category t = "C"
    /\ RancherComposeText t = "not a mapping"
    /\ events w'
       = events (Ex.serving Ex.E0)
         ++ [Log Error "Error unmarshalling rancher-compose.yml under template: t/5"].
Proof. eexists _, _. split_and!; [vm_compute; reflexivity | reflexivity ..]. Qed.

(** C3. Version [t/4] holds a [docker-compose.yml] whose contents cannot
    be read: [readFile] logs the error and answers nil, and
    [ReadTemplateVersion] panics on the nil pointer instead of going on
    to the remaining entries and returning. *)
Theorem unreadable_compose_file_panics :
  FS.ReadDir (tree (Ex.serving Ex.E0)) (catalogRoot +:+ "t/4")
  = Some [mkFileInfo "docker-compose.yml" false]
  /\ FS.ReadFile (tree (Ex.serving Ex.E0))
       ((catalogRoot +:+ "t/4") +:+ "/" +:+ "docker-compose.yml") = None
  /\ fst (ReadTemplateVersion Ex.E0 "t/4" (Ex.serving Ex.E0)) = Panic
  /\ events (snd (ReadTemplateVersion Ex.E0 "t/4" (Ex.serving Ex.E0)))
     = events (Ex.serving Ex.E0)
       ++ [Log Error "Error reading file ./DATA/templates/t/4/docker-compose.yml"].
Proof.
  assert (FS.ReadDir (tree (Ex.serving Ex.E0)) (catalogRoot +:+ "t/4")
          = Some [mkFileInfo "docker-compose.yml" false]) as Hdir by reflexivity.
  assert (FS.ReadFile (tree (Ex.serving Ex.E0))
            ((catalogRoot +:+ "t/4") +:+ "/" +:+ "docker-compose.yml") = None)
    as Hfile by reflexivity.
  split_and!; [done | done | | vm_compute; reflexivity].
  apply (unreadable_compose_panics Ex.E0 "t/4" _ _
           (mkFileInfo "docker-compose.yml" false) Hdir);
    [by apply list_elem_of_singleton | reflexivity | exact Hfile].
Qed.

(** C9, as the code has it.  The questions of a version are those of the
    section that the loop over the decoded map of its last
    orchestration-compose file visits last, in whatever order Go ranges
    over that map; a document with one section yields the questions of
    that section. *)
Theorem questions_of_section_ranged_last E w path l1 f l2 s secs :
  FS.ReadDir (tree w) (catalogRoot +:+ path) = Some (l1 ++ f :: l2)%list ->
  composeReadable (tree w) path (l1 ++ f :: l2)%list ->
  isRancherEntry f = true ->
  existsb isRancherEntry l2 = false ->
  FS.ReadFile (tree w) ((catalogRoot +:+ path) +:+ "/" +:+ FName f) = Some s ->
  yaml_sections E s = Some secs ->
  exists t w',
    ReadTemplateVersion E path w = (Ret t, w')
    /\ RancherComposeText t = s
    /\ (forall key,
          last (range_order E (FName f) (sectionsMap secs)) = Some key ->
          Questions t = RC_Questions (sectionAt (sectionsMap secs) key))
    /\ (fair_range E -> forall key rc,
          secs = [(key, rc)] -> Questions t = RC_Questions rc).
Proof.
  intros Hdir Hread Hr Hl2 Hfile Hyaml.
  unfold composeReadable in Hread.
  apply Forall_app in Hread as [Hread1 Hread2].
  apply Forall_cons in Hread2 as [_ Hread2].
  destruct (versionLoop_spec E path l1 (set_Path path emptyTemplate) false false w Hread1)
    as (t1 & e1 & Hloop1 & _).
  set (t2 := rangeQuestions E (FName f) (sectionsMap secs) (set_RancherComposeText s t1)).
  destruct (versionLoop_keeps_questions E path l2 t2
              (false || existsb isConfigEntry l1) (false || existsb isIconEntry l1)
              (emitAll e1 w) Hl2 Hread2)
    as (t3 & fc3 & fi3 & e3 & Hloop3 & Hq3 & Hx3).
  assert (foldM (versionEntry E path) (set_Path path emptyTemplate, false, false)
            (l1 ++ f :: l2)%list w = (Ret (t3, fc3, fi3), emitAll e3 (emitAll e1 w))) as Hloop.
  { rewrite foldM_app. unfold bind at 1. rewrite Hloop1.
    cbn [foldM]. unfold bind at 1.
    rewrite (versionEntry_rancher E path _ _ _ f (emitAll e1 w) s secs Hr Hfile Hyaml).
    exact Hloop3. }
  destruct (ReadTemplateVersion_after_loop E path _ w _ _ _ _ Hdir Hloop)
    as (t & w' & Hrun & Hq & Hx & _).
  exists t, w'. split_and!; [done | | |].
  - rewrite Hx, Hx3. unfold t2. by rewrite rangeQuestions_text.
  - intros key Hkey. rewrite Hq, Hq3. unfold t2.
    by rewrite rangeQuestions_last, Hkey.
  - intros Hfair key rc ->. rewrite Hq, Hq3. unfold t2.
    rewrite rangeQuestions_last, (fair_range_singleton E _ key rc Hfair).
    cbn. unfold sectionAt, sectionsMap. cbn. by rewrite lookup_insert_eq.
Qed.

(** ** [ReadTemplateVersion] on the example catalog *)

Lemma ascending_fair pull : fair_range (Ex.env Ex.ascending pull).
Proof. intros f m. reflexivity. Qed.

Lemma descending_fair pull : fair_range (Ex.env Ex.descending pull).
Proof.
  intros f m. cbn. unfold Ex.descending.
  symmetry. apply Permutation_rev.
Qed.

Lemma serving_t :
  Catalog (Ex.serving Ex.E0) !! "t"
  = Some (templateSummary Ex.E0 (Some Ex.templates) "t").
Proof. vm_compute. reflexivity. Qed.

Lemma composeReadable_serving path dirList :
  FS.ReadDir (Some Ex.templates) (catalogRoot +:+ path) = Some dirList ->
  forallb (fun f => negb (isComposeEntry f)
                    || bool_decide (FS.ReadFile (Some Ex.templates)
                                      ((catalogRoot +:+ path) +:+ "/" +:+ FName f) <> None))
    dirList = true ->
  composeReadable (Some Ex.templates) path dirList.
Proof.
  intros _ H. apply Forall_forall. intros f Hf Hc.
  rewrite forallb_forall in H. specialize (H f (proj1 (list_elem_of_In _ _) Hf)).
  rewrite Hc in H. cbn in H. by apply bool_decide_eq_true in H.
Qed.

(** Witness of C4: version [t/1] has no config file and inherits name [A]
    and category [C] from template [t]; version [t/2] has its own
    [config.yml] with name [B]. *)
Lemma ReadTemplateVersion_config_inheritance_witness :
  (exists t w',
     ReadTemplateVersion Ex.E0 "t/1" (Ex.serving Ex.E0) = (Ret t, w')
     /\ Name t = "A" /\ Category t = "C")
  /\ (exists t w',
        ReadTemplateVersion Ex.E0 "t/2" (Ex.serving Ex.E0) = (Ret t, w')
        /\ Name t = "B").
Proof.
  split.
  - destruct (ReadTemplateVersion_config_inheritance Ex.E0 (Ex.serving Ex.E0) "t/1"
                [mkFileInfo "docker-compose.yml" false;
                 mkFileInfo "rancher-compose.yml" false])
      as (t & w' & Hrun & _ & Hinherit & _).
    + reflexivity.
    + by apply composeReadable_serving.
    + exists t, w'. split; [exact Hrun|].
      assert (forall f, f ∈ [mkFileInfo "docker-compose.yml" false;
                             mkFileInfo "rancher-compose.yml" false] ->
                        isConfigEntry f = false) as Hnone.
      { intros f Hf. repeat (apply elem_of_cons in Hf as [->|Hf]; [reflexivity|]).
        by apply elem_of_nil in Hf. }
      specialize (Hinherit _ Hnone serving_t).
      by injection Hinherit as -> -> _ _.
  - destruct (ReadTemplateVersion_config_inheritance Ex.E0 (Ex.serving Ex.E0) "t/2"
                [mkFileInfo "config.yml" false])
      as (t & w' & Hrun & Hown & _ & _).
    + reflexivity.
    + by apply composeReadable_serving.
    + exists t, w'. split; [exact Hrun|].
      assert (exists f, f ∈ [mkFileInfo "config.yml" false] /\ FName f = "config.yml")
        as Hlisted.
      { eexists. split; [by apply list_elem_of_singleton | reflexivity]. }
      specialize (Hown (<["name" := "B"]> ∅) Hlisted eq_refl).
      by injection Hown as -> _ _ _.
Defined.

(** Witness of C10: version [t/3] holds [config.yml.bak] only; its config
    fields are empty although template [t] has name [A]. *)
Lemma config_prefix_suppresses_inheritance_witness :
  Name (templateSummary Ex.E0 (Some Ex.templates) "t") = "A"
  /\ exists t w',
       ReadTemplateVersion Ex.E0 "t/3" (Ex.serving Ex.E0) = (Ret t, w')
       /\ configFields t = noFields.
Proof.
  split; [reflexivity|].
  destruct (config_prefix_suppresses_inheritance Ex.E0 (Ex.serving Ex.E0) "t/3"
              [mkFileInfo "config.yml.bak" false])
    as (_ & _ & t & w' & Hrun & Hfields & _).
  - reflexivity.
  - by apply composeReadable_serving.
  - eexists. split; [by apply list_elem_of_singleton | by split].
  - intros f ->%list_elem_of_singleton. discriminate.
  - by exists t, w'.
Defined.

(** Witness of C7: before [Init] the catalog is empty, so version [t/1]
    finds no parent. *)
Lemma missing_parent_is_not_fatal_witness :
  exists t evs,
    ReadTemplateVersion Ex.E0 "t/1" (Ex.boot (Some Ex.templates))
    = (Ret t, emitAll evs (Ex.boot (Some Ex.templates)))
    /\ configFields t = noFields /\ IconLink t = ""
    /\ Log Debug "Could not find the parent metadata t" ∈ evs.
Proof.
  destruct (missing_parent_is_not_fatal Ex.E0 (Ex.boot (Some Ex.templates)) "t/1")
    as (t & evs & Hrun & Hrest).
  - reflexivity.
  - intros dirList Hdir. apply composeReadable_serving; [exact Hdir|].
    cbn in Hdir. by injection Hdir as <-.
  - exists t, evs. split; [exact Hrun|].
    change (FS.ReadDir (tree (Ex.boot (Some Ex.templates))) (catalogRoot +:+ "t/1"))
      with (Some [mkFileInfo "docker-compose.yml" false;
                  mkFileInfo "rancher-compose.yml" false]) in Hrest.
    destruct Hrest as (Hfields & Hicon & Hdebug).
    split_and!; [by apply Hfields | by apply Hicon | by apply Hdebug].
Defined.

(** Counterexample to C5: with version [u/1] absent, the lookup returns a
    template, the same one it returns when [u/1] exists and holds a config
    file that does not decode; nothing tells the two apart. *)
Lemma missing_directory_counterexample :
  let absent := snd (Init Ex.E0 (Ex.boot (Some Ex.missing))) in
  let present := snd (Init Ex.E0 (Ex.boot (Some Ex.malformed))) in
  FS.ReadDir (tree absent) (catalogRoot +:+ "u/1") = None
  /\ FS.ReadDir (tree present) (catalogRoot +:+ "u/1")
     = Some [mkFileInfo "config.yml" false]
  /\ configOf Ex.E0 (tree present) (catalogRoot +:+ "u/1") = None
  /\ fst (ReadTemplateVersion Ex.E0 "u/1" absent) = Ret (set_Path "u/1" emptyTemplate)
  /\ fst (ReadTemplateVersion Ex.E0 "u/1" present) = Ret (set_Path "u/1" emptyTemplate).
Proof. cbv zeta. split_and!; vm_compute; reflexivity. Qed.

(** Witness of the amended C5. *)
Lemma ReadTemplateVersion_missing_directory_witness :
  ReadTemplateVersion Ex.E0 "ghost/1" (Ex.serving Ex.E0)
  = (Ret (set_Path "ghost/1" emptyTemplate),
     emit (Log Error "Error reading template at path: ghost/1") (Ex.serving Ex.E0))
  /\ exists t w',
       ReadTemplateVersion Ex.E0 "t/1" (Ex.serving Ex.E0) = (Ret t, w')
       /\ Path t = "t/1".
Proof.
  split.
  - apply (proj1 (ReadTemplateVersion_missing_directory Ex.E0 (Ex.serving Ex.E0) "ghost/1")).
    reflexivity.
  - apply (proj2 (ReadTemplateVersion_missing_directory Ex.E0 (Ex.serving Ex.E0) "t/1")
             [mkFileInfo "docker-compose.yml" false;
              mkFileInfo "rancher-compose.yml" false]).
    + reflexivity.
    + by apply composeReadable_serving.
Defined.

(** Counterexample to C9: the document of version [t/6] has the sections
    [a] and [b], in that order, each with one question; when the loop
    over the decoded map visits [b] before [a], the questions of [a] are
    adopted, not those of the section decoded last. *)
Lemma last_section_counterexample :
  let E := Ex.env Ex.descending Ex.upToDate in
  fair_range E
  /\ yaml_sections E (Ex.line2 "a: x" "b: y")
     = Some [("a", mkRancherCompose [Ex.question "x"]);
             ("b", mkRancherCompose [Ex.question "y"])]
  /\ range_order E "rancher-compose.yml"
       (sectionsMap [("a", mkRancherCompose [Ex.question "x"]);
                     ("b", mkRancherCompose [Ex.question "y"])]) = ["b"; "a"]
  /\ exists t w',
       ReadTemplateVersion E "t/6" (Ex.serving E) = (Ret t, w')
       /\ Questions t = [Ex.question "x"]
       /\ Questions t <> [Ex.question "y"].
Proof.
  cbv zeta. split_and!.
  - apply descending_fair.
  - vm_compute. reflexivity.
  - vm_compute. reflexivity.
  - eexists _, _. split_and!; [vm_compute; reflexivity | reflexivity | discriminate].
Qed.

(** Witness of the amended C9: the document of version [t/1] has the one
    section [catalog], whose question is adopted. *)
Lemma questions_of_section_ranged_last_witness :
  exists t w',
    ReadTemplateVersion Ex.E0 "t/1" (Ex.serving Ex.E0) = (Ret t, w')
    /\ RancherComposeText t = "catalog: scale"
    /\ Questions t = [Ex.question "scale"].
Proof.
  destruct (questions_of_section_ranged_last Ex.E0 (Ex.serving Ex.E0) "t/1"
              [mkFileInfo "docker-compose.yml" false]
              (mkFileInfo "rancher-compose.yml" false) []
              "catalog: scale"
              [("catalog", mkRancherCompose [Ex.question "scale"])])
    as (t & w' & Hrun & Htext & _ & Hone).
  - reflexivity.
  - by apply composeReadable_serving.
  - reflexivity.
  - reflexivity.
  - reflexivity.
  - reflexivity.
  - exists t, w'. split_and!; [exact Hrun | exact Htext |].
    exact (Hone (ascending_fair _) _ _ eq_refl).
Defined.

(** ** Paths of the walk *)

Lemma node_ind' (P : node -> Prop) :
  (forall d, P (File d)) ->
  (forall r es, Forall (fun e => P (snd e)) es -> P (Dir r es)) ->
  P NoStat ->
  forall n, P n.
Proof.
  intros HF HD HN. fix IH 1. intros [d | r es |]; [apply HF | | apply HN].
  apply HD. induction es as [|[s c] es IHes]; constructor; [apply IH | apply IHes].
Qed.

Lemma validName_segments s : validName s = true -> FS.segments s = [s].
Proof.
  unfold validName. intros H.
  repeat (apply andb_true_iff in H as [H ?]).
  unfold FS.segments. rewrite Split_noslash by by apply negb_true_iff.
  cbn [List.filter]. by rewrite H, H1.
Qed.

Lemma validName_nonempty s : validName s = true -> s <> "".
Proof. by destruct s. Qed.

Lemma validName_noslash s : validName s = true -> Contains slash s = false.
Proof.
  unfold validName. intros H. repeat (apply andb_true_iff in H as [H ?]).
  by apply negb_true_iff.
Qed.

Lemma segments_joinSegs segs :
  Forall (fun s => validName s = true) segs ->
  FS.segments (Filepath.joinSegs segs) = segs.
Proof.
  induction 1 as [|s r Hs Hr IH]; [reflexivity|].
  destruct r as [|s' r].
  - by apply validName_segments.
  - change (Filepath.joinSegs (s :: s' :: r))
      with (s +:+ "/" +:+ Filepath.joinSegs (s' :: r)).
    by rewrite segments_app, IH, validName_segments.
Qed.

Lemma Join_joinSegs segs name :
  Forall (fun s => validName s = true) segs ->
  validName name = true ->
  Filepath.Join (Filepath.joinSegs segs) name = Filepath.joinSegs (segs ++ [name]).
Proof.
  intros Hsegs Hname. unfold Filepath.Join, Filepath.Clean.
  rewrite segments_app, segments_joinSegs, (validName_segments name) by done.
  by destruct segs.
Qed.

Lemma Join_catalogRoot name :
  validName name = true ->
  Filepath.Join catalogRoot name = "DATA/templates/" +:+ name.
Proof.
  intros Hname. unfold Filepath.Join, Filepath.Clean.
  by rewrite segments_app, (validName_segments name).
Qed.

Lemma Contains_app c a b : Contains c (a +:+ String c b) = true.
Proof.
  induction a as [|x a IH]; simpl.
  - by rewrite Ascii.eqb_refl.
  - by rewrite IH, orb_true_r.
Qed.

Lemma TrimPrefix_app pre s : TrimPrefix pre (pre +:+ s) = Some s.
Proof.
  induction pre as [|a pre IH]; simpl; [by destruct s|].
  by rewrite Ascii.eqb_refl.
Qed.

(** The pattern matches the children of the catalog root ... *)
Lemma MatchString_template name :
  validName name = true ->
  metadataFolder_MatchString ("DATA/templates/" +:+ name) = true.
Proof.
  intros H. unfold metadataFolder_MatchString.
  rewrite TrimPrefix_app, (validName_noslash _ H).
  apply validName_nonempty, String.eqb_neq in H. by rewrite H.
Qed.

(** ... and nothing further down. *)
Lemma MatchString_deep a b segs :
  metadataFolder_MatchString
    (Filepath.joinSegs ("DATA" :: "templates" :: a :: b :: segs)) = false.
Proof.
  unfold metadataFolder_MatchString.
  change (Filepath.joinSegs ("DATA" :: "templates" :: a :: b :: segs))
    with ("DATA/templates/" +:+ (a +:+ String slash (Filepath.joinSegs (b :: segs)))).
  by rewrite TrimPrefix_app, Contains_app, andb_false_r.
Qed.

(** ** The callback *)

Section WalkFacts.

Variable E : Env.

Lemma walkCatalog_skip path f err w :
  IsDir f && metadataFolder_MatchString path = false ->
  walkCatalog E path (Some f) err w = (Ret None, w).
Proof. intros H. unfold walkCatalog, bind, deref, ret. by rewrite H. Qed.

(** On a template directory the callback installs the summary of the
    directory, whatever it can or cannot read there. *)
Lemma walkCatalog_install name err w :
  metadataFolder_MatchString ("DATA/templates/" +:+ name) = true ->
  exists evs,
    walkCatalog E ("DATA/templates/" +:+ name) (Some (mkFileInfo name true)) err w
    = (Ret None,
       emitAll evs (set_Catalog (<[name := templateSummary E (tree w) name]> (Catalog w)) w))
    /\ (FS.ReadDir (tree w) ("DATA/templates/" +:+ name) = None ->
        Log Error ("Error reading directories at path: " +:+ name) ∈ evs).
Proof.
  intros Hname. unfold walkCatalog, deref.
  unfold bind at 1. unfold ret at 1. cbn [IsDir FName andb].
  rewrite Hname.
  unfold bind at 1. unfold bind at 1. unfold bind at 1.
  unfold logf at 1. unfold modify at 1.
  set (w1 := emit _ w).
  destruct (readTemplateConfig_spec E ("DATA/templates/" +:+ name)
              (set_Path name emptyTemplate) w1) as (e1 & Hcfg & _).
  unfold bind at 1. rewrite Hcfg.
  unfold bind at 1. unfold bind at 1. unfold ioutil_ReadDir, gets.
  unfold templateSummary. cbn [tree emitAll emit w1].
  destruct (FS.ReadDir (tree w) ("DATA/templates/" +:+ name)) as [dirList|].
  - exists (Log Debug ("Reading metadata folder for template:" +:+ name) :: e1).
    split; [|done].
    unfold bind, ret, modify, emitAll, set_Catalog, emit, w1. cbn.
    by rewrite <- app_assoc.
  - exists (Log Debug ("Reading metadata folder for template:" +:+ name) :: e1
            ++ [Log Error ("Error reading directories at path: " +:+ name)]).
    split.
    + unfold bind, ret, logf, modify, emitAll, set_Catalog, emit, w1. cbn.
      by rewrite <- !app_assoc.
    + intros _. apply elem_of_cons. right. apply elem_of_app. right.
      by apply list_elem_of_singleton.
Qed.


(** *** The walk *)

Lemma walk_File walkFn path name d w :
  walk walkFn path name (File d) w
  = bind (walkFn path (Some (mkFileInfo name false)) None)
      (fun err => match err with Some e => ret (Some e) | None => ret None end) w.
Proof. reflexivity. Qed.

Lemma walk_Dir_unreadable walkFn path name es w :
  walk walkFn path name (Dir false es) w
  = bind (walkFn path (Some (mkFileInfo name true)) None)
      (fun err => match err with
                  | Some e => if isSkipDir e then ret None else ret (Some e)
                  | None => walkFn path (Some (mkFileInfo name true)) (Some ErrReadDir)
                  end) w.
Proof. reflexivity. Qed.

Lemma walk_NoStat walkFn path name w :
  walk walkFn path name NoStat w = walkFn path None (Some ErrLstat) w.
Proof. reflexivity. Qed.

Lemma walk_Dir_readable walkFn path name es w :
  walk walkFn path name (Dir true es) w
  = bind (walkFn path (Some (mkFileInfo name true)) None)
      (fun err => match err with
                  | Some e => if isSkipDir e then ret None else ret (Some e)
                  | None => walkEntries walkFn path es
                  end) w.
Proof.
  cbn [walk isDirNode]. unfold bind.
  destruct (walkFn path (Some (mkFileInfo name true)) None w) as [[[e|]| | |] w1];
    try reflexivity.
  clear w. revert w1. induction es as [|[sub child] rest IH]; intros w; [reflexivity|].
  cbn [walkEntries]. destruct child as [d | r es |]; unfold bind.
  - destruct (walk walkFn (Filepath.Join path sub) sub (File d) w) as [[[e|]| | |] w1];
      try reflexivity; apply IH.
  - destruct (walk walkFn (Filepath.Join path sub) sub (Dir r es) w) as [[[e|]| | |] w1];
      try reflexivity; [|apply IH].
    cbn [isDirNode negb orb]. destruct (isSkipDir e); [apply IH | reflexivity].
  - destruct (walkFn (Filepath.Join path sub) None (Some ErrLstat) w) as [[[e|]| | |] w1];
      try reflexivity; [|apply IH].
    destruct (isSkipDir e); [apply IH | reflexivity].
Qed.

(** The loop of [walk] comes to an entry: an entry on which [os.Lstat]
    fails is reported to the callback, any other is walked. *)
Lemma walkEntries_cons walkFn path sub child rest w :
  walkEntries walkFn path ((sub, child) :: rest) w
  = bind (walk walkFn (Filepath.Join path sub) sub child)
      (fun err => match err with
                  | Some e =>
                      if (statable child && negb (isDirNode child)) || negb (isSkipDir e)
                      then ret (Some e)
                      else walkEntries walkFn path rest
                  | None => walkEntries walkFn path rest
                  end) w.
Proof.
  by destruct child.
Qed.

Lemma validNode_Dir r es :
  validNode (Dir r es) = true ->
  Forall (fun e => validName (fst e) = true /\ validNode (snd e) = true) es.
Proof.
  cbn [validNode]. intros H. apply Forall_forall. intros e He.
  rewrite forallb_forall in H.
  by apply andb_true_iff, H, list_elem_of_In.
Qed.

Lemma Forall_pathSegs segs :
  Forall (fun s => validName s = true) segs ->
  Forall (fun s => validName s = true) (pathSegs segs).
Proof. intros H. by repeat constructor. Qed.

(** The callback cannot go on without an [os.FileInfo]. *)
Lemma walkCatalog_nil path err w : walkCatalog E path None err w = (Panic, w).
Proof. reflexivity. Qed.

(** Below the template directories the callback does nothing, and the
    walk ends in a panic when it comes to an entry that [os.Lstat] fails
    on. *)
Lemma walk_deep n :
  validNode n = true ->
  forall segs name w,
    Forall (fun s => validName s = true) segs ->
    (2 <= length segs)%nat ->
    walk (walkCatalog E) (Filepath.joinSegs (pathSegs segs)) name n w
    = (if walkable n then Ret None else Panic, w).
Proof.
  induction n as [d | r es IH |] using node_ind'; intros Hvalid segs name w Hsegs Hlen.
  all: destruct segs as [|a [|b segs]]; [cbn in Hlen; lia .. |].
  - rewrite walk_File. unfold bind.
    by rewrite walkCatalog_skip.
  - assert (forall f err w, walkCatalog E (Filepath.joinSegs (pathSegs (a :: b :: segs)))
                              (Some f) err w = (Ret None, w)) as Hskip.
    { intros. apply walkCatalog_skip. unfold pathSegs.
      by rewrite MatchString_deep, andb_false_r. }
    destruct r.
    + rewrite walk_Dir_readable. unfold bind. rewrite Hskip. cbn [walkable].
      apply validNode_Dir in Hvalid.
      induction es as [|[sub child] rest IHrest]; [reflexivity|].
      apply Forall_cons in IH as [IHchild IH].
      apply Forall_cons in Hvalid as [[Hsub Hchild] Hvalid].
      rewrite walkEntries_cons. cbn [forallb fst snd] in *. unfold bind.
      rewrite Join_joinSegs; [|by apply Forall_pathSegs | done].
      change (pathSegs (a :: b :: segs) ++ [sub])
        with (pathSegs ((a :: b :: segs) ++ [sub])).
      rewrite IHchild; [| done | | cbn; lia].
      * destruct (walkable child); [by apply IHrest | reflexivity].
      * apply Forall_app. by split; [|constructor].
    + rewrite walk_Dir_unreadable. unfold bind. by rewrite !Hskip.
  - reflexivity.
Qed.

(** At a child of the catalog root the walk installs the summary of a
    directory and passes over a file. *)
Lemma walk_template name n w :
  validName name = true ->
  validNode n = true ->
  exists evs,
    walk (walkCatalog E) ("DATA/templates/" +:+ name) name n w
    = (if walkable n then Ret None else Panic,
       emitAll evs (set_Catalog (installDir E (tree w) (Catalog w) (name, n)) w))
    /\ (isDirNode n = true ->
        FS.ReadDir (tree w) ("DATA/templates/" +:+ name) = None ->
        Log Error ("Error reading directories at path: " +:+ name) ∈ evs).
Proof.
  intros Hname Hvalid. unfold installDir. cbn [fst snd].
  assert (emitAll [] (set_Catalog (Catalog w) w) = w) as Hsame.
  { destruct w. unfold emitAll, set_Catalog. simpl. by rewrite app_nil_r. }
  destruct n as [d | r es |].
  - exists []. rewrite walk_File. unfold bind.
    rewrite walkCatalog_skip by done. cbn [isDirNode walkable]. split; [|done].
    unfold ret. by rewrite Hsame.
  - cbn [isDirNode].
    pose proof (MatchString_template name Hname) as Hmatch.
    destruct (walkCatalog_install name None w Hmatch) as (e1 & Hcall & Hlog).
    destruct r.
    + exists e1. split; [|by intros _].
      rewrite walk_Dir_readable. unfold bind. rewrite Hcall.
      generalize (emitAll e1
                    (set_Catalog (<[name := templateSummary E (tree w) name]> (Catalog w)) w)).
      intros w1. apply validNode_Dir in Hvalid. cbn [walkable].
      induction es as [|[sub child] rest IHrest]; [reflexivity|].
      apply Forall_cons in Hvalid as [[Hsub Hchild] Hvalid].
      rewrite walkEntries_cons. cbn [forallb fst snd] in *. unfold bind.
      change ("DATA/templates/" +:+ name) with (Filepath.joinSegs (pathSegs [name])).
      rewrite Join_joinSegs; [|by apply Forall_pathSegs; constructor | done].
      change (pathSegs [name] ++ [sub]) with (pathSegs [name; sub]).
      rewrite (walk_deep child Hchild [name; sub]); [| | cbn; lia].
      * destruct (walkable child); [by apply IHrest | reflexivity].
      * by repeat constructor.
    + set (w1 := emitAll e1 _) in Hcall.
      destruct (walkCatalog_install name (Some ErrReadDir) w1 Hmatch) as (e2 & Hcall2 & _).
      exists (e1 ++ e2). split.
      * rewrite walk_Dir_unreadable. unfold bind. rewrite Hcall, Hcall2.
        unfold w1, emitAll, set_Catalog. cbn. by rewrite insert_insert_eq, app_assoc.
      * intros _ Hdir. apply elem_of_app. left. by apply Hlog.
  - exists []. cbn [isDirNode walkable]. rewrite walk_NoStat, walkCatalog_nil, Hsame.
    by split.
Qed.

End WalkFacts.

(** ** The rebuild *)

Section RebuildFacts.

Variable E : Env.

Lemma installDir_lookup T c e k :
  installDir E T c e !! k
  = if bool_decide (isDirNode (snd e) = true /\ fst e = k)
    then Some (templateSummary E T k) else c !! k.
Proof.
  unfold installDir. destruct (isDirNode (snd e)).
  - destruct (decide (fst e = k)) as [<-|Hne].
    + rewrite lookup_insert_eq. by rewrite bool_decide_eq_true_2.
    + rewrite lookup_insert_ne by done. rewrite bool_decide_eq_false_2; [done|].
      by intros [_ ?].
  - rewrite bool_decide_eq_false_2; [done|]. by intros [? _].
Qed.

Lemma fold_installDir_lookup T es : forall c k,
  fold_left (installDir E T) es c !! k
  = if bool_decide (k ∈ dirNames es)
    then Some (templateSummary E T k) else c !! k.
Proof.
  unfold dirNames.
  induction es as [|e es IH]; intros c k.
  - cbn. rewrite bool_decide_eq_false_2; [done|]. by intros ?%elem_of_nil.
  - cbn [fold_left List.filter]. rewrite IH, installDir_lookup.
    destruct (isDirNode (snd e)) eqn:Hd; cbn [fmap list_fmap];
      repeat case_bool_decide; try done; exfalso;
      rewrite ?elem_of_cons in *; intuition congruence.
Qed.

(** The catalog after a walk, key by key: the summary of a template
    directory the walk came across, the entry from before for every other
    key. *)
Lemma rebuilt_lookup T c k :
  rebuilt E T c !! k
  = if bool_decide (k ∈ discovered T) then Some (templateSummary E T k) else c !! k.
Proof.
  unfold rebuilt, discovered.
  destruct T as [[d | [] es |]|]; try (rewrite bool_decide_eq_false_2;
                                         [done | by intros ?%elem_of_nil]).
  apply fold_installDir_lookup.
Qed.

Lemma dirNames_app l1 l2 : dirNames (l1 ++ l2) = dirNames l1 ++ dirNames l2.
Proof. unfold dirNames. by rewrite List.filter_app, fmap_app. Qed.

Lemma walked_app l1 l2 :
  forallb (fun e => walkable (snd e)) l1 = true -> walked (l1 ++ l2) = l1 ++ walked l2.
Proof.
  induction l1 as [|e l1 IH]; [done|]. cbn [forallb walked app].
  intros [-> Hl1]%andb_true_iff. by rewrite IH.
Qed.

Lemma walked_all es :
  forallb (fun e => walkable (snd e)) es = true -> walked es = es.
Proof.
  induction es as [|e es IH]; [done|]. cbn [forallb walked].
  intros [-> Hes]%andb_true_iff. by rewrite IH.
Qed.

(** The walk of the entries of the root: it installs the template
    directories it comes to, and it comes to all of them unless it
    panics. *)
Lemma walkEntries_root es : forall w,
  Forall (fun e => validName (fst e) = true /\ validNode (snd e) = true) es ->
  exists evs,
    walkEntries (walkCatalog E) catalogRoot es w
    = (if forallb (fun e => walkable (snd e)) es then Ret None else Panic,
       emitAll evs
         (set_Catalog (fold_left (installDir E (tree w)) (walked es) (Catalog w)) w))
    /\ (forall e, e ∈ walked es -> isDirNode (snd e) = true ->
        FS.ReadDir (tree w) ("DATA/templates/" +:+ fst e) = None ->
        Log Error ("Error reading directories at path: " +:+ fst e) ∈ evs).
Proof.
  induction es as [|[sub child] rest IH]; intros w Hvalid.
  - exists []. split; [|by intros e ?%elem_of_nil].
    cbn. unfold ret. f_equal. destruct w. unfold emitAll, set_Catalog. simpl.
    by rewrite app_nil_r.
  - apply Forall_cons in Hvalid as [[Hsub Hchild] Hvalid]. cbn [fst snd] in *.
    destruct (walk_template E sub child w Hsub Hchild) as (e1 & Hwalk & Hlog1).
    rewrite walkEntries_cons. unfold bind. rewrite Join_catalogRoot by done.
    rewrite Hwalk. cbn [forallb walked snd].
    destruct (walkable child).
    + set (w1 := emitAll e1 _).
      destruct (IH w1 Hvalid) as (e2 & Hrest & Hlog2).
      exists (e1 ++ e2). split.
      * rewrite Hrest. unfold w1, emitAll, set_Catalog. cbn.
        by rewrite app_assoc.
      * intros e [->|He]%elem_of_cons Hdir Hnone; apply elem_of_app.
        -- left. by apply Hlog1.
        -- right. by apply (Hlog2 e).
    + exists e1. split; [done|].
      intros e ->%list_elem_of_singleton Hdir Hnone. by apply Hlog1.
Qed.

(** The walk of a tree touches only the catalog and the log and leaves
    the catalog [rebuilt]; it returns when [os.Lstat] succeeds on every
    entry it comes to, and panics when it comes to one on which it
    fails. *)
Lemma validTree_wellNamed T : validTree T = true -> wellNamed T = true.
Proof. by destruct T. Qed.

Lemma Walk_spec w :
  wellNamed (tree w) = true ->
  exists evs,
    Walk (walkCatalog E) catalogRoot w
    = (if walkableTree (tree w) then Ret None else Panic,
       emitAll evs (set_Catalog (rebuilt E (tree w) (Catalog w)) w))
    /\ (forall name, name ∈ discovered (tree w) ->
        FS.ReadDir (tree w) ("DATA/templates/" +:+ name) = None ->
        Log Error ("Error reading directories at path: " +:+ name) ∈ evs).
Proof.
  intros Hvalid. unfold Walk, gets. unfold bind at 1.
  unfold rebuilt, discovered, walkableTree.
  assert (forall f err w, walkCatalog E catalogRoot (Some f) err w = (Ret None, w)) as Hskip.
  { intros. apply walkCatalog_skip. by rewrite andb_false_r. }
  assert (emitAll [] (set_Catalog (Catalog w) w) = w) as Hsame.
  { destruct w. unfold emitAll, set_Catalog. simpl. by rewrite app_nil_r. }
  destruct (tree w) as [n|] eqn:Htree; cbn [wellNamed] in Hvalid; cycle 1.
  { exists []. rewrite walkCatalog_nil, Hsame.
    split; [done | by intros name ?%elem_of_nil]. }
  destruct n as [d | [] es |].
  - exists []. rewrite walk_File. unfold bind. rewrite Hskip, Hsame.
    split; [done | by intros name ?%elem_of_nil].
  - rewrite walk_Dir_readable. unfold bind. rewrite Hskip.
    destruct (walkEntries_root es w (validNode_Dir _ _ Hvalid)) as (evs & Hrun & Hlog).
    rewrite Htree in Hrun, Hlog. exists evs. split; [done|].
    intros name Hname Hnone. unfold dirNames in Hname.
    apply list_elem_of_fmap in Hname as (e & -> & He).
    apply list_elem_of_In, filter_In in He as [He Hd].
    apply (Hlog e); [by apply list_elem_of_In | done | done].
  - exists []. rewrite walk_Dir_unreadable. unfold bind. rewrite !Hskip, Hsame.
    split; [done | by intros name ?%elem_of_nil].
  - exists []. rewrite walk_NoStat, walkCatalog_nil, Hsame.
    split; [done | by intros name ?%elem_of_nil].
Qed.

Lemma pullCatalog_events w :
  pullCatalog E w
  = (Ret tt, emitAll (pullEvents E (snd (git_pull E (tree w))))
               (set_tree (fst (git_pull E (tree w))) w)).
Proof.
  unfold pullCatalog, bind, logf, modify, ret, pullEvents. cbn [tree emit].
  destruct (git_pull E (tree w)) as [T ok]. cbn [fst snd].
  destruct ok; unfold emitAll, set_tree, emit; cbn; f_equal; f_equal;
    by rewrite <- ?app_assoc.
Qed.

Lemma pullCatalog_spec w :
  exists evs,
    pullCatalog E w = (Ret tt, emitAll evs (set_tree (fst (git_pull E (tree w))) w)).
Proof. eexists. apply pullCatalog_events. Qed.

(** [os.Stat] on the root of the catalog. *)
Lemma Stat_root T :
  FS.Stat T catalogRoot
  = match T with
    | Some NoStat | None => None
    | Some n => Some n
    end.
Proof. by destruct T as [[| |]|]. Qed.

(** A refresh that finds the gate free: the pull, then the walk of the
    tree it leaves; the gate is free again when the walk has returned and
    is still held when it has panicked. *)
Lemma RefreshCatalog_spec w :
  refreshReqChannel w = [] ->
  wellNamed (fst (git_pull E (tree w))) = true ->
  exists evs,
    RefreshCatalog E w
    = (if walkableTree (fst (git_pull E (tree w))) then Ret tt else Panic,
       emitAll (pullEvents E (snd (git_pull E (tree w))) ++ evs)
         (set_Catalog (rebuilt E (fst (git_pull E (tree w))) (Catalog w))
            (set_tree (fst (git_pull E (tree w)))
               (set_refreshReqChannel
                  (if walkableTree (fst (git_pull E (tree w))) then [] else [1%Z]) w))))
    /\ (forall name, name ∈ discovered (fst (git_pull E (tree w))) ->
        FS.ReadDir (fst (git_pull E (tree w))) ("DATA/templates/" +:+ name) = None ->
        Log Error ("Error reading directories at path: " +:+ name) ∈ evs).
Proof.
  intros Hfree Hvalid. unfold RefreshCatalog, trySend.
  unfold bind at 1. rewrite Hfree. cbn [length Nat.ltb Nat.leb app].
  unfold bind at 1. rewrite pullCatalog_events. cbn [tree set_refreshReqChannel] in *.
  set (w1 := emitAll _ _).
  destruct (Walk_spec w1 Hvalid) as (e2 & Hwalk & Hlog).
  unfold bind at 1. rewrite Hwalk. exists e2. split; [|exact Hlog].
  change (tree w1) with (fst (git_pull E (tree w))).
  destruct (walkableTree (fst (git_pull E (tree w)))).
  - unfold bind, receive, ret, w1.
    unfold emitAll, set_Catalog, set_tree, set_refreshReqChannel.
    cbn [refreshReqChannel Catalog tree events].
    by rewrite app_assoc.
  - unfold w1, emitAll, set_Catalog, set_tree, set_refreshReqChannel.
    cbn [refreshReqChannel Catalog tree events].
    by rewrite app_assoc.
Qed.

Lemma RefreshCatalog_acquired w :
  refreshReqChannel w = [] ->
  validTree (fst (git_pull E (tree w))) = true ->
  walkableTree (fst (git_pull E (tree w))) = true ->
  exists evs,
    RefreshCatalog E w
    = (Ret tt,
       emitAll evs
         (set_Catalog (rebuilt E (fst (git_pull E (tree w))) (Catalog w))
            (set_tree (fst (git_pull E (tree w))) w))).
Proof.
  intros Hfree Hvalid Hwalk.
  destruct (RefreshCatalog_spec w Hfree (validTree_wellNamed _ Hvalid)) as (evs & Hrun & _).
  rewrite Hwalk in Hrun. eexists. rewrite Hrun. repeat f_equal.
  destruct w; cbn in *. by subst.
Qed.

(** [Init]: the synchronisation, the walk from an empty catalog, and the
    start of the ticker. *)
Lemma Init_spec w :
  wellNamed (fst (afterSync E w)) = true ->
  (FS.Stat (tree w) catalogRoot = None -> snd (git_clone E (tree w)) = true) ->
  exists evs,
    Init E w
    = (if walkableTree (fst (afterSync E w)) && (0 <? tickerPeriod E)%Z
       then Ret tt else Panic,
       emitAll evs
         (set_Catalog (rebuilt E (fst (afterSync E w)) ∅)
            (set_tree (fst (afterSync E w)) w))).
Proof.
  intros Hvalid Hclone. unfold Init, afterSync in *.
  unfold bind at 1. unfold gets at 1.
  assert (forall w1 e1,
            w1 = emitAll e1 (set_tree (fst (afterSync E w)) w) ->
            exists evs,
              bind (modify (set_Catalog ∅))
                (fun _ => bind (Walk (walkCatalog E) catalogRoot)
                            (fun _ => startCatalogBackgroundPoll E)) w1
              = (if walkableTree (fst (afterSync E w)) && (0 <? tickerPeriod E)%Z
                 then Ret tt else Panic,
                 emitAll evs
                   (set_Catalog (rebuilt E (fst (afterSync E w)) ∅)
                      (set_tree (fst (afterSync E w)) w)))) as Hrest.
  { intros w1 e1 ->. unfold bind at 1. unfold modify at 1.
    set (w1 := set_Catalog ∅ _).
    assert (wellNamed (tree w1) = true) as Hvalid1 by exact Hvalid.
    destruct (Walk_spec w1 Hvalid1) as (e2 & Hwalk & _).
    unfold bind at 1. rewrite Hwalk. exists (e1 ++ e2).
    change (tree w1) with (fst (afterSync E w)).
    unfold afterSync.
    destruct (walkableTree _); cbn [andb].
    - unfold startCatalogBackgroundPoll.
      destruct (0 <? tickerPeriod E)%Z; unfold ret, panic;
        unfold w1, emitAll, set_Catalog, set_tree; cbn; by rewrite app_assoc.
    - unfold w1, emitAll, set_Catalog, set_tree. cbn. by rewrite app_assoc. }
  unfold afterSync in Hrest.
  destruct (FS.Stat (tree w) catalogRoot) as [n|] eqn:Hstat.
  - unfold bind at 1. rewrite pullCatalog_events.
    by eapply Hrest.
  - specialize (Hclone eq_refl).
    unfold bind at 1. unfold cloneCatalog.
    unfold bind at 1. unfold logf at 1, modify at 1.
    unfold bind at 1. cbn [tree emit].
    destruct (git_clone E (tree w)) as [T ok]. cbn [fst snd] in *. subst ok.
    unfold ret at 1.
    eapply (Hrest _ [_; _]).
    unfold emitAll, set_tree, emit. cbn. by rewrite <- !app_assoc.
Qed.

End RebuildFacts.

(** ** What a rebuild leaves in the catalog *)

(** C1, as the code has it.  A rebuild writes the summaries it builds
    into the one catalog in place, one by one; no other map is built and
    put in its place.  After a refresh that found the gate free, every
    template directory the walk of the pulled tree has come to has its
    fresh summary and every other key has the entry it had before the
    refresh; this is so when the walk has returned and also when it has
    panicked, part of the way or at once because the pull has left no
    root.  [Init], and only [Init], makes a new map
    before its walk, so that after [Init] the catalog holds the summaries
    of the template directories the walk has come to and nothing else. *)
Theorem rebuild_updates_in_place E w :
  (refreshReqChannel w = [] ->
   wellNamed (fst (git_pull E (tree w))) = true ->
   exists w',
     RefreshCatalog E w
     = (if walkableTree (fst (git_pull E (tree w))) then Ret tt else Panic, w')
     /\ tree w' = fst (git_pull E (tree w))
     /\ forall k,
          Catalog w' !! k
          = if bool_decide (k ∈ discovered (tree w'))
            then Some (templateSummary E (tree w') k)
            else Catalog w !! k)
  /\ (wellNamed (fst (afterSync E w)) = true ->
      (FS.Stat (tree w) catalogRoot = None -> snd (git_clone E (tree w)) = true) ->
      exists w',
        Init E w
        = (if walkableTree (fst (afterSync E w)) && (0 <? tickerPeriod E)%Z
           then Ret tt else Panic, w')
        /\ tree w' = fst (afterSync E w)
        /\ forall k,
             Catalog w' !! k
             = if bool_decide (k ∈ discovered (tree w'))
               then Some (templateSummary E (tree w') k)
               else None).
Proof.
  split.
  - intros Hfree Hvalid.
    destruct (RefreshCatalog_spec E w Hfree Hvalid) as (evs & -> & _).
    eexists. split_and!; [reflexivity | reflexivity |]. intros k.
    cbn [Catalog tree emitAll set_Catalog set_tree].
    apply rebuilt_lookup.
  - intros Hvalid Hclone.
    destruct (Init_spec E w Hvalid Hclone) as (evs & ->).
    eexists. split_and!; [reflexivity | reflexivity |]. intros k.
    cbn [Catalog tree emitAll set_Catalog set_tree].
    by rewrite rebuilt_lookup, lookup_empty.
Qed.

(** Counterexample to C1: upstream has dropped template [old]; after the
    refresh that pulls this change the catalog still holds the entry of
    [old], next to the fresh entries of [new] and [t]. *)
Lemma stale_entry_counterexample :
  let E := Ex.env Ex.ascending Ex.pullAfter in
  let w := snd (Init Ex.E0 (Ex.boot (Some Ex.before))) in
  let w' := snd (RefreshCatalog E w) in
  fst (RefreshCatalog E w) = Ret tt
  /\ tree w' = Some Ex.after
  /\ discovered (tree w') = ["new"; "t"]
  /\ Catalog w' !! "old" = Some (templateSummary Ex.E0 (Some Ex.before) "old").
Proof. cbv zeta. split_and!; vm_compute; reflexivity. Qed.

(** Witness of the amended C1, on the same refresh and on [Init]. *)
Lemma rebuild_updates_in_place_witness :
  let E := Ex.env Ex.ascending Ex.pullAfter in
  let w := snd (Init Ex.E0 (Ex.boot (Some Ex.before))) in
  (exists w',
     RefreshCatalog E w = (Ret tt, w')
     /\ Catalog w' !! "new" = Some (templateSummary E (Some Ex.after) "new")
     /\ Catalog w' !! "old" = Catalog w !! "old")
  /\ (exists w',
        Init Ex.E0 (Ex.boot (Some Ex.before)) = (Ret tt, w')
        /\ Catalog w' !! "old" = Some (templateSummary Ex.E0 (Some Ex.before) "old")
        /\ Catalog w' !! "new" = None).
Proof.
  cbv zeta. split.
  - destruct (proj1 (rebuild_updates_in_place (Ex.env Ex.ascending Ex.pullAfter)
                       (snd (Init Ex.E0 (Ex.boot (Some Ex.before))))))
      as (w' & Hrun & Htree & Hkeys); [reflexivity | reflexivity |].
    exists w'. split; [exact Hrun|].
    change (fst (git_pull (Ex.env Ex.ascending Ex.pullAfter)
                   (tree (snd (Init Ex.E0 (Ex.boot (Some Ex.before)))))))
      with (Some Ex.after) in Htree.
    rewrite (Hkeys "new"), (Hkeys "old"), Htree. by split.
  - destruct (proj2 (rebuild_updates_in_place Ex.E0 (Ex.boot (Some Ex.before))))
      as (w' & Hrun & Htree & Hkeys); [reflexivity | discriminate |].
    exists w'. split; [exact Hrun|].
    change (fst (afterSync Ex.E0 (Ex.boot (Some Ex.before))))
      with (Some Ex.before) in Htree.
    rewrite (Hkeys "old"), (Hkeys "new"), Htree. by split.
Defined.

(** C8, as the code has it.  A template directory whose entries cannot be
    listed is installed all the same, with its name, the fields of its
    config file when that can be read, no version links and no icon, and
    the failure is logged; so are the template directories before it.
    What becomes of those after it depends on why the listing failed.
    When the walk can go through the directory (the names of its entries
    cannot be read either, so that it does not look into it), it goes on
    and installs the template directories it comes to.  When the names
    can be read and an entry cannot be looked at, the walk reports that
    entry to [walkCatalog] without an [os.FileInfo], [walkCatalog]
    panics, and no template directory after this one is installed. *)
Theorem unlisted_template_is_installed E w l1 name d l2 :
  tree w = Some (Dir true (l1 ++ (name, d) :: l2)) ->
  validTree (tree w) = true ->
  forallb (fun e => walkable (snd e)) l1 = true ->
  isDirNode d = true ->
  FS.ReadDir (tree w) ("DATA/templates/" +:+ name) = None ->
  exists w' evs,
    Walk (walkCatalog E) catalogRoot w
    = (if walkable d && forallb (fun e => walkable (snd e)) l2 then Ret None else Panic,
       w')
    /\ events w' = events w ++ evs
    /\ Log Error ("Error reading directories at path: " +:+ name) ∈ evs
    /\ Catalog w' !! name
       = Some (set_VersionLinks ∅
                 (applyConfig (configOf E (tree w) ("DATA/templates/" +:+ name))
                    (set_Path name emptyTemplate)))
    /\ (forall k, k ∈ dirNames l1 ->
                  Catalog w' !! k = Some (templateSummary E (tree w) k))
    /\ (walkable d = true ->
        forall k, k ∈ dirNames (walked l2) ->
                  Catalog w' !! k = Some (templateSummary E (tree w) k))
    /\ (walkable d = false ->
        forall k, k ∉ dirNames (l1 ++ [(name, d)]) ->
                  Catalog w' !! k = Catalog w !! k).
Proof.
  intros Htree Hvalid Hl1 Hdir Hnone.
  destruct (Walk_spec E w (validTree_wellNamed _ Hvalid)) as (evs & Hwalk & Hlog).
  assert (discovered (tree w)
          = dirNames l1 ++ name :: (if walkable d then dirNames (walked l2) else []))
    as Hdisc.
  { rewrite Htree. unfold discovered. rewrite walked_app by done.
    rewrite dirNames_app. f_equal. cbn [walked snd].
    destruct (walkable d); unfold dirNames; cbn [List.filter snd];
      by rewrite Hdir. }
  assert (walkableTree (tree w)
          = walkable d && forallb (fun e => walkable (snd e)) l2) as Hout.
  { rewrite Htree. cbn [walkableTree walkable]. rewrite forallb_app, Hl1.
    reflexivity. }
  rewrite Hout in Hwalk.
  exists (emitAll evs (set_Catalog (rebuilt E (tree w) (Catalog w)) w)), evs.
  split; [exact Hwalk|]. cbn [Catalog emitAll set_Catalog events].
  assert (forall k, k ∈ discovered (tree w) ->
                    rebuilt E (tree w) (Catalog w) !! k
                    = Some (templateSummary E (tree w) k)) as Hall.
  { intros k Hk. by rewrite rebuilt_lookup, bool_decide_eq_true_2. }
  assert (name ∈ discovered (tree w)) as Hname.
  { rewrite Hdisc. apply elem_of_app. right. apply elem_of_cons. by left. }
  split_and!.
  - done.
  - by apply Hlog.
  - rewrite (Hall name Hname). unfold templateSummary. by rewrite Hnone.
  - intros k Hk. apply Hall. rewrite Hdisc. apply elem_of_app. by left.
  - intros Hd k Hk. apply Hall. rewrite Hdisc, Hd.
    apply elem_of_app. right. apply elem_of_cons. by right.
  - intros Hd k Hk. rewrite rebuilt_lookup, bool_decide_eq_false_2; [done|].
    rewrite Hdisc, Hd. intros Hin. apply Hk.
    rewrite dirNames_app. unfold dirNames at 2. cbn [List.filter snd].
    by rewrite Hdir.
Qed.

(** Counterexample to C8: the entries of template directory [broken]
    cannot be listed, and after [Init] the catalog has an entry for it. *)
Lemma unlisted_template_counterexample :
  FS.ReadDir (tree (Ex.serving Ex.E0)) "DATA/templates/broken" = None
  /\ Catalog (Ex.serving Ex.E0) !! "broken" = Some (set_Path "broken" emptyTemplate).
Proof. split; vm_compute; reflexivity. Qed.

(** Witness of the amended C8.  On the example catalog the names of the
    entries of [broken] cannot be read: it is installed and so is [t],
    which the walk visits after it.  On the catalog with the directory
    [t] whose entries cannot be looked at, [a] and [t] are installed, the
    walk panics and [z] is not installed. *)
Lemma unlisted_template_is_installed_witness :
  (exists w',
     Walk (walkCatalog Ex.E0) catalogRoot (Ex.boot (Some Ex.templates)) = (Ret None, w')
     /\ Catalog w' !! "broken" = Some (set_Path "broken" emptyTemplate)
     /\ Catalog w' !! "t" = Some (templateSummary Ex.E0 (Some Ex.templates) "t"))
  /\ (exists w',
        Walk (walkCatalog Ex.E0) catalogRoot (Ex.boot (Some Ex.locked)) = (Panic, w')
        /\ Catalog w' !! "a" = Some (templateSummary Ex.E0 (Some Ex.locked) "a")
        /\ Catalog w' !! "t" = Some (set_Path "t" emptyTemplate)
        /\ Catalog w' !! "z" = None).
Proof.
  split.
  - destruct (unlisted_template_is_installed Ex.E0 (Ex.boot (Some Ex.templates))
                [] "broken" (Dir false [])
                [("t", Dir true
                    [("1", Dir true
                        [("docker-compose.yml", File (Some "web: nginx"));
                         ("rancher-compose.yml", File (Some "catalog: scale"))]);
                     ("2", Dir true [("config.yml", File (Some "name: B"))]);
                     ("3", Dir true [("config.yml.bak", File (Some "name: Z"))]);
                     ("4", Dir true [("docker-compose.yml", File None)]);
                     ("5", Dir true [("rancher-compose.yml", File (Some "not a mapping"))]);
                     ("6", Dir true
                        [("rancher-compose.yml",
                          File (Some (Ex.line2 "a: x" "b: y")))]);
                     ("catalogIcon-t.svg", File (Some "<svg/>"));
                     ("config.yml", File (Some (Ex.line2 "name: A" "category: C")))])])
      as (w' & evs & Hrun & _ & _ & Hbroken & _ & Hafter & _);
      [reflexivity | reflexivity | reflexivity | reflexivity | reflexivity |].
    exists w'. split_and!; [exact Hrun | exact Hbroken |].
    apply (Hafter eq_refl). apply elem_of_cons. by left.
  - destruct (unlisted_template_is_installed Ex.E0 (Ex.boot (Some Ex.locked))
                [("a", Dir true [])] "t" (Dir true [("1", NoStat); ("config.yml", NoStat)])
                [("z", Dir true [])])
      as (w' & evs & Hrun & _ & _ & Ht & Hbefore & _ & Hafter);
      [reflexivity | reflexivity | reflexivity | reflexivity | reflexivity |].
    exists w'. split_and!; [exact Hrun | | exact Ht |].
    + apply Hbefore. apply elem_of_cons. by left.
    + rewrite (Hafter eq_refl "z"); [reflexivity|].
      intros Hin. repeat (apply elem_of_cons in Hin as [Hin|Hin]; [discriminate Hin|]).
      by apply elem_of_nil in Hin.
Defined.
(** ** The rebuild, one callback at a time *)

Section MachineFacts.

Variable E : Env.

Import Rebuild.

Lemma walkCatalog_answers_nil path f err w r w' :
  walkCatalog E path f err w = (Ret r, w') -> r = None.
Proof.
  unfold walkCatalog, bind, deref. destruct f as [f|]; [|discriminate].
  unfold ret at 1.
  match goal with
  | |- context [match ?c w with _ => _ end] => destruct (c w) as [[[]| | |] w1]
  end; unfold ret; congruence.
Qed.

Lemma step_one c rest w w' :
  walkCatalog E (cpath c) (cinfo c) (cerr c) w = (Ret None, w') ->
  rtc (step E) (c :: rest, w) (rest, w').
Proof. intros H. apply rtc_once. by eapply step_call. Qed.

(** The machine makes the calls of [walk] and reaches the state [walk]
    returns. *)
Lemma walk_calls n : forall path name w r w' rest,
  walk (walkCatalog E) path name n w = (Ret r, w') ->
  r = None /\ rtc (step E) (walkCalls path name n ++ rest, w) (rest, w').
Proof.
  induction n as [d | b es IH |] using node_ind'; intros path name w r w' rest.
  - rewrite walk_File. unfold bind.
    destruct (walkCatalog E path (Some (mkFileInfo name false)) None w)
      as [[err| | |] w1] eqn:Hcall; try discriminate.
    pose proof (walkCatalog_answers_nil _ _ _ _ _ _ Hcall) as ->.
    unfold ret. intros [= <- <-]. split; [done|]. by apply step_one.
  - destruct b.
    + rewrite walk_Dir_readable. unfold bind.
      destruct (walkCatalog E path (Some (mkFileInfo name true)) None w)
        as [[err| | |] w1] eqn:Hcall; try discriminate.
      pose proof (walkCatalog_answers_nil _ _ _ _ _ _ Hcall) as ->.
      intros Hentries. cbn [walkCalls isDirNode app].
      enough (r = None /\ rtc (step E)
                (flat_map (fun e => walkCalls (Filepath.Join path (fst e)) (fst e) (snd e)) es
                 ++ rest, w1) (rest, w')) as [-> Hrun].
      { split; [done|]. eapply rtc_l; [by eapply step_call | exact Hrun]. }
      clear Hcall w. revert w1 Hentries.
      induction es as [|[sub child] es IHes]; intros w1.
      * cbn. unfold ret. intros [= <- <-]. done.
      * apply Forall_cons in IH as [IHchild IH].
        rewrite walkEntries_cons. cbn [flat_map fst snd]. unfold bind.
        destruct (walk (walkCatalog E) (Filepath.Join path sub) sub child w1)
          as [[err| | |] w2] eqn:Hchild; try discriminate.
        destruct (IHchild _ _ _ _ _
                    (flat_map (fun e => walkCalls (Filepath.Join path (fst e)) (fst e) (snd e)) es
                     ++ rest) Hchild) as [-> Hrun1].
        intros Hrest. destruct (IHes IH w2 Hrest) as [-> Hrun2].
        split; [done|]. rewrite <- app_assoc. by etrans.
    + rewrite walk_Dir_unreadable. unfold bind.
      destruct (walkCatalog E path (Some (mkFileInfo name true)) None w)
        as [[err| | |] w1] eqn:Hcall; try discriminate.
      pose proof (walkCatalog_answers_nil _ _ _ _ _ _ Hcall) as ->.
      intros Hcall2.
      pose proof (walkCatalog_answers_nil _ _ _ _ _ _ Hcall2) as ->.
      split; [done|]. cbn [walkCalls isDirNode app].
      eapply rtc_l; [by eapply step_call|]. by apply step_one.
  - rewrite walk_NoStat, walkCatalog_nil. discriminate.
Qed.

(** So it does along the entries of a directory. *)
Lemma walkEntries_calls path es : forall w r w' rest,
  walkEntries (walkCatalog E) path es w = (Ret r, w') ->
  r = None
  /\ rtc (step E)
       (flat_map (fun e => walkCalls (Filepath.Join path (fst e)) (fst e) (snd e)) es
        ++ rest, w) (rest, w').
Proof.
  induction es as [|[sub child] es IH]; intros w r w' rest.
  - cbn. unfold ret. intros [= <- <-]. done.
  - rewrite walkEntries_cons. cbn [flat_map fst snd]. unfold bind.
    destruct (walk (walkCatalog E) (Filepath.Join path sub) sub child w)
      as [[err| | |] w2] eqn:Hchild; try discriminate.
    destruct (walk_calls child _ _ _ _ _
                (flat_map (fun e => walkCalls (Filepath.Join path (fst e)) (fst e) (snd e)) es
                 ++ rest) Hchild) as [-> Hrun1].
    intros Hrest. destruct (IH w2 _ _ rest Hrest) as [-> Hrun2].
    split; [done|]. rewrite <- app_assoc. by etrans.
Qed.

Lemma Walk_calls w r w' :
  Walk (walkCatalog E) catalogRoot w = (Ret r, w') ->
  r = None /\ during E w ([], w').
Proof.
  unfold Walk, during, WalkCalls, gets. unfold bind at 1.
  destruct (tree w) as [n|]; [|discriminate].
  intros Hwalk.
  destruct (walk_calls n _ _ _ _ _ [] Hwalk) as [-> Hrun].
  by rewrite app_nil_r in Hrun.
Qed.

(** When the walk has gone through the entries [l1] of the root and has
    [l2] still to go through, the catalog holds the summaries of the
    template directories among [l1] and, for every other key, the entry
    from before the walk. *)
Lemma during_prefix w0 l1 l2 :
  tree w0 = Some (Dir true (l1 ++ l2)) ->
  validTree (tree w0) = true ->
  forallb (fun e => walkable (snd e)) l1 = true ->
  exists s,
    during E w0 s
    /\ forall k,
         Catalog (snd s) !! k
         = if bool_decide (k ∈ dirNames l1)
           then Some (templateSummary E (tree w0) k)
           else Catalog w0 !! k.
Proof.
  intros Htree Hvalid Hl1. rewrite Htree in Hvalid. cbn [validTree] in Hvalid.
  apply validNode_Dir, Forall_app in Hvalid as [Hv1 _].
  destruct (walkEntries_root E l1 w0 Hv1) as (evs & Hrun & _).
  rewrite Hl1, (walked_all l1 Hl1) in Hrun.
  destruct (walkEntries_calls catalogRoot l1 w0 _ _
              (flat_map (fun e => walkCalls (Filepath.Join catalogRoot (fst e))
                                    (fst e) (snd e)) l2) Hrun) as [_ Hsteps].
  eexists. split.
  - unfold during, WalkCalls. rewrite Htree. cbn [walkCalls isDirNode].
    eapply rtc_l.
    + apply (step_call E _ _ w0 None w0). apply walkCatalog_skip.
      by rewrite andb_false_r.
    + rewrite flat_map_app. exact Hsteps.
  - intros k. cbn [snd Catalog emitAll set_Catalog]. apply fold_installDir_lookup.
Qed.

End MachineFacts.

(** C2, as the code has it.  A reader is not kept from a rebuild in
    progress: the walk stores each summary into the one catalog as soon
    as it has built it.  When the walk has gone through the root up to
    and including a template directory, the catalog holds the entries of
    after the rebuild for the template directories gone through and the
    entries of before the rebuild for every other key.  So whenever the
    rebuild changes the entry of a template directory and that of a key
    it comes to later, the catalog is in between neither the one from
    before the rebuild nor the one after it.  (Nothing is said of a read
    that overlaps a store into the map, which Go leaves undefined.) *)
Theorem rebuild_is_not_atomic E w0 :
  validTree (tree w0) = true ->
  walkableTree (tree w0) = true ->
  exists w1,
    Walk (walkCatalog E) catalogRoot w0 = (Ret None, w1)
    /\ (forall l1 name d l2,
          tree w0 = Some (Dir true (l1 ++ (name, d) :: l2)) ->
          exists s,
            Rebuild.during E w0 s
            /\ forall k,
                 Catalog (snd s) !! k
                 = if bool_decide (k ∈ dirNames (l1 ++ [(name, d)]))
                   then Catalog w1 !! k
                   else Catalog w0 !! k)
    /\ (forall l1 name d l2 other,
          tree w0 = Some (Dir true (l1 ++ (name, d) :: l2)) ->
          isDirNode d = true ->
          Catalog w1 !! name <> Catalog w0 !! name ->
          other ∉ dirNames (l1 ++ [(name, d)]) ->
          Catalog w1 !! other <> Catalog w0 !! other ->
          exists s,
            Rebuild.during E w0 s
            /\ Catalog (snd s) <> Catalog w0
            /\ Catalog (snd s) <> Catalog w1).
Proof.
  intros Hvalid Hwalkable.
  destruct (Walk_spec E w0 (validTree_wellNamed _ Hvalid)) as (evs & Hwalk & _).
  rewrite Hwalkable in Hwalk.
  eexists. split; [exact Hwalk|].
  assert (forall l1 name d l2,
            tree w0 = Some (Dir true (l1 ++ (name, d) :: l2)) ->
            exists s,
              Rebuild.during E w0 s
              /\ forall k,
                   Catalog (snd s) !! k
                   = if bool_decide (k ∈ dirNames (l1 ++ [(name, d)]))
                     then rebuilt E (tree w0) (Catalog w0) !! k
                     else Catalog w0 !! k) as Hprefix.
  { intros l1 name d l2 Htree.
    assert (forallb (fun e => walkable (snd e)) (l1 ++ (name, d) :: l2) = true) as Hall.
    { by rewrite Htree in Hwalkable. }
    assert (forallb (fun e => walkable (snd e)) (l1 ++ [(name, d)]) = true) as Hpre.
    { rewrite forallb_app in Hall. apply andb_true_iff in Hall as [H1 H2].
      cbn [forallb] in H2. apply andb_true_iff in H2 as [H2 _].
      rewrite forallb_app, H1. cbn [forallb]. by rewrite H2. }
    destruct (during_prefix E w0 (l1 ++ [(name, d)]) l2) as (s & Hs & Hkeys);
      [by rewrite <- app_assoc | done | done |].
    exists s. split; [done|]. intros k. rewrite Hkeys, rebuilt_lookup.
    case_bool_decide as Hk; [|done].
    rewrite bool_decide_eq_true_2; [done|].
    rewrite Htree. unfold discovered. rewrite (walked_all _ Hall).
    change (l1 ++ (name, d) :: l2) with (l1 ++ [(name, d)] ++ l2).
    rewrite app_assoc, dirNames_app. apply elem_of_app. by left. }
  cbn [Catalog emitAll set_Catalog]. split; [exact Hprefix|].
  intros l1 name d l2 other Htree Hdir Hname Hother Hchanged.
  destruct (Hprefix l1 name d l2 Htree) as (s & Hs & Hkeys).
  exists s. split_and!; [done | |].
  - intros Heq. apply Hname. pose proof (Hkeys name) as Hk. rewrite Heq in Hk.
    rewrite bool_decide_eq_true_2 in Hk; [done|].
    rewrite dirNames_app. apply elem_of_app. right.
    unfold dirNames. cbn [List.filter snd]. rewrite Hdir.
    apply elem_of_cons. by left.
  - intros Heq. apply Hchanged. pose proof (Hkeys other) as Hk. rewrite Heq in Hk.
    by rewrite bool_decide_eq_false_2 in Hk.
Qed.

(** Counterexample to C2: the service has pulled a tree with the new
    template [new] and a new version of template [t].  Once the walk has
    installed [new] and not yet [t], the catalog holds the new entry of
    [new] next to the old entry of [t]: neither the catalog from before
    the rebuild nor the one after it. *)
Lemma mixed_catalog_counterexample :
  let E := Ex.env Ex.ascending Ex.pullAfter in
  let w1 := snd (Walk (walkCatalog E) catalogRoot Ex.pulled) in
  exists s,
    Rebuild.during E Ex.pulled s
    /\ Catalog (snd s) <> Catalog Ex.pulled
    /\ Catalog (snd s) <> Catalog w1.
Proof.
  cbv zeta.
  set (E := Ex.env Ex.ascending Ex.pullAfter).
  set (mid := snd (walkCatalog E "DATA/templates/new" (Some (mkFileInfo "new" true))
                     None Ex.pulled)).
  exists ([Rebuild.mkCall "DATA/templates/t" (Some (mkFileInfo "t" true)) None;
           Rebuild.mkCall "DATA/templates/t/1" (Some (mkFileInfo "1" true)) None],
          mid).
  cbn [snd]. split_and!.
  - unfold Rebuild.during.
    change (Rebuild.WalkCalls (tree Ex.pulled) catalogRoot)
      with [Rebuild.mkCall catalogRoot (Some (mkFileInfo "templates" true)) None;
            Rebuild.mkCall "DATA/templates/new" (Some (mkFileInfo "new" true)) None;
            Rebuild.mkCall "DATA/templates/t" (Some (mkFileInfo "t" true)) None;
            Rebuild.mkCall "DATA/templates/t/1" (Some (mkFileInfo "1" true)) None].
    eapply rtc_l; [apply (Rebuild.step_call E _ _ _ None Ex.pulled); reflexivity|].
    eapply rtc_l; [|apply rtc_refl].
    apply (Rebuild.step_call E _ _ _ None mid). vm_compute. reflexivity.
  - intros Heq. apply (f_equal (fun c => c !! "new")) in Heq.
    vm_compute in Heq. discriminate.
  - intros Heq. apply (f_equal (fun c => VersionLinks <$> c !! "t")) in Heq.
    vm_compute in Heq. discriminate.
Qed.

(** Witness of the amended C2, on the same rebuild: between the store
    for [new] and the store for [t]. *)
Lemma rebuild_is_not_atomic_witness :
  let E := Ex.env Ex.ascending Ex.pullAfter in
  exists w1 s,
    Walk (walkCatalog E) catalogRoot Ex.pulled = (Ret None, w1)
    /\ Rebuild.during E Ex.pulled s
    /\ Catalog (snd s) <> Catalog Ex.pulled
    /\ Catalog (snd s) <> Catalog w1.
Proof.
  cbv zeta.
  destruct (rebuild_is_not_atomic (Ex.env Ex.ascending Ex.pullAfter) Ex.pulled)
    as (w1 & Hwalk & _ & Hmix).
  - reflexivity.
  - reflexivity.
  - assert (w1 = snd (Walk (walkCatalog (Ex.env Ex.ascending Ex.pullAfter))
                        catalogRoot Ex.pulled)) as Hw1 by by rewrite Hwalk.
    destruct (Hmix [] "new" (Dir true []) [("t", Dir true [("1", Dir true [])])] "t")
      as (s & Hs & Hold & Hnew).
    + reflexivity.
    + reflexivity.
    + rewrite Hw1. vm_compute. discriminate.
    + intros Hin. apply elem_of_cons in Hin as [Hin|Hin]; [discriminate Hin|].
      by apply elem_of_nil in Hin.
    + rewrite Hw1. intros Heq. apply (f_equal (fmap VersionLinks)) in Heq.
      vm_compute in Heq. discriminate.
    + by exists w1, s.
Defined.

(** ** The gate *)

Create HintDb gate.

Lemma keepsGate_ret {A} (a : A) : keepsGate (ret a).
Proof. done. Qed.

Lemma keepsGate_panic {A} : keepsGate (@panic A).
Proof. done. Qed.

Lemma keepsGate_bind {A B} (c : M A) (k : A -> M B) :
  keepsGate c -> (forall a, keepsGate (k a)) -> keepsGate (bind c k).
Proof.
  intros Hc Hk w. unfold bind. specialize (Hc w).
  destruct (c w) as [[a| | |] w1]; cbn in *; [|done..].
  by rewrite Hk.
Qed.

Lemma keepsGate_gets {A} (f : World -> A) : keepsGate (gets f).
Proof. done. Qed.

Lemma keepsGate_logf lvl msg : keepsGate (logf lvl msg).
Proof. done. Qed.

Lemma keepsGate_logFatal {A} msg : keepsGate (@logFatal A msg).
Proof. done. Qed.

Lemma keepsGate_deref {A} (p : option A) : keepsGate (deref p).
Proof. by destruct p. Qed.

Lemma keepsGate_modify f :
  (forall w, refreshReqChannel (f w) = refreshReqChannel w) -> keepsGate (modify f).
Proof. intros H w. apply H. Qed.

#[local] Hint Resolve keepsGate_ret keepsGate_panic keepsGate_gets keepsGate_logf
  keepsGate_logFatal keepsGate_deref : gate.
#[local] Hint Extern 2 (keepsGate (bind _ _)) => apply keepsGate_bind; [|intros ?] : gate.
#[local] Hint Extern 2 (keepsGate (modify _)) => apply keepsGate_modify; intros ?; reflexivity : gate.
#[local] Hint Extern 3 (keepsGate (match ?x with _ => _ end)) => destruct x : gate.

Ltac keeps := auto 20 with gate.

Section GateFacts.

Variable E : Env.

Lemma keepsGate_readTemplateConfig relativePath t :
  keepsGate (readTemplateConfig E relativePath t).
Proof. unfold readTemplateConfig, ioutil_ReadFile. keeps. Qed.

Lemma keepsGate_walkCatalog path f err : keepsGate (walkCatalog E path f err).
Proof.
  pose proof keepsGate_readTemplateConfig.
  unfold walkCatalog, ioutil_ReadDir. keeps.
Qed.

Lemma keepsGate_walk walkFn :
  (forall path f err, keepsGate (walkFn path f err)) ->
  forall n path name, keepsGate (walk walkFn path name n).
Proof.
  intros HwalkFn.
  induction n as [d | b es IH |] using node_ind'; intros path name w.
  - rewrite walk_File. revert w. fold (keepsGate (bind (walkFn path (Some (mkFileInfo name false)) None)
        (fun err => match err with Some e => ret (Some e) | None => ret None end))).
    keeps.
  - destruct b.
    + rewrite walk_Dir_readable. revert w.
      match goal with |- forall w, refreshReqChannel (snd (?c w)) = _ => fold (keepsGate c) end.
      apply keepsGate_bind; [done|]. intros [e|]; [keeps|].
      induction es as [|[sub child] es IHes]; [apply keepsGate_ret|].
      apply Forall_cons in IH as [IHchild IH]. intros w. rewrite walkEntries_cons.
      revert w.
      match goal with |- forall w, refreshReqChannel (snd (?c w)) = _ => fold (keepsGate c) end.
      cbn [snd] in *.
      apply keepsGate_bind; [apply IHchild|].
      intros [e|]; [|by apply IHes].
      destruct (statable child && negb (isDirNode child) || negb (isSkipDir e));
        [keeps | by apply IHes].
    + rewrite walk_Dir_unreadable. revert w.
      match goal with |- forall w, refreshReqChannel (snd (?c w)) = _ => fold (keepsGate c) end.
      apply keepsGate_bind; [done|]. intros [e|]; [keeps | done].
  - rewrite walk_NoStat. apply HwalkFn.
Qed.

Lemma keepsGate_Walk : keepsGate (Walk (walkCatalog E) catalogRoot).
Proof.
  unfold Walk. apply keepsGate_bind; [keeps|]. intros [n|].
  - apply keepsGate_walk. apply keepsGate_walkCatalog.
  - apply keepsGate_walkCatalog.
Qed.

Lemma keepsGate_pullCatalog : keepsGate (pullCatalog E).
Proof. intros w. destruct (pullCatalog_spec E w) as (evs & ->). done. Qed.

End GateFacts.

Section GateMachine.

Variable E : Env.

Import Gate.

(** A refresh that finds the gate held logs that it skips and is done. *)
Lemma RefreshCatalog_skipped w :
  refreshReqChannel w <> [] ->
  RefreshCatalog E w = (Ret tt, emit (Log Info skipMessage) w).
Proof.
  intros Hheld. unfold RefreshCatalog, trySend, bind.
  destruct (refreshReqChannel w) as [|v rest]; [done|]. reflexivity.
Qed.

(** The actions of a goroutine, one by one. *)
Lemma threadStep_cases p w l p' w' :
  threadStep E p w = Some (l, (p', w')) ->
  (p = Start /\ refreshReqChannel w = [] /\ l = Acquire /\ p' = Pulling
   /\ w' = set_refreshReqChannel [1%Z] w)
  \/ (p = Start /\ refreshReqChannel w <> [] /\ l = Skip /\ p' = Done
      /\ w' = emit (Log Info skipMessage) w)
  \/ (p = Pulling /\ l = Pull /\ p' = Walking
      /\ refreshReqChannel w' = refreshReqChannel w)
  \/ (p = Walking /\ l = Rebuild /\ (p' = Releasing \/ p' = Stuck)
      /\ refreshReqChannel w' = refreshReqChannel w)
  \/ (p = Releasing /\ l = Release
      /\ ((exists v, refreshReqChannel w = v :: refreshReqChannel w' /\ p' = Done)
          \/ (refreshReqChannel w = [] /\ p' = Stuck))).
Proof.
  destruct p; cbn [threadStep]; try discriminate.
  - unfold trySend. destruct (refreshReqChannel w) as [|v rest] eqn:Hbuf; cbn.
    + intros [= <- <- <-]. by left.
    + intros [= <- <- <-]. right. by left.
  - destruct (pullCatalog_spec E w) as (evs & Hpull). rewrite Hpull. cbn.
    intros [= <- <- <-]. right. right. left. done.
  - pose proof (keepsGate_Walk E w) as Hgate.
    destruct (Walk (walkCatalog E) catalogRoot w) as [[r| | |] w1]; cbn in *;
      intros [= <- <- <-]; right; right; right; left; split_and!; auto.
  - unfold receive. destruct (refreshReqChannel w) as [|v rest] eqn:Hbuf; cbn;
      intros [= <- <- <-]; right; right; right; right; split_and!; auto.
    left. by exists v.
Qed.

Lemma flying_insert ths : forall i p p',
  ths !! i = Some p ->
  (flying (<[i := p']> ths) + (if inFlight p then 1 else 0)
   = flying ths + (if inFlight p' then 1 else 0))%nat.
Proof.
  unfold flying.
  induction ths as [|q ths IH]; intros [|i] p p' Hi; try discriminate.
  - injection Hi as ->. cbn. destruct (inFlight p), (inFlight p'); cbn; lia.
  - cbn in Hi. specialize (IH i p p' Hi).
    change (<[S i := p']> (q :: ths)) with (q :: <[i := p']> ths).
    cbn [List.filter]. destruct (inFlight q); cbn [length]; lia.
Qed.

Lemma flying_replicate n : flying (replicate n Start) = 0%nat.
Proof. induction n; [done|]. by cbn. Qed.

Lemma step_gateInv s x s' : gateInv s -> step E s x s' -> gateInv s'.
Proof.
  intros [Hfly Hone] Hstep.
  destruct Hstep as [ths w i p l p' w' Hi Hstep].
  pose proof (flying_insert ths i p p' Hi) as Hins.
  pose proof (flying_insert ths i p Start Hi) as Hpos.
  unfold gateInv in *. cbn [fst snd] in *.
  destruct (threadStep_cases _ _ _ _ _ Hstep)
    as [(-> & Hbuf & -> & -> & ->)
       |[(-> & Hbuf & -> & -> & ->)
        |[(-> & -> & -> & Hbuf)
         |[(-> & -> & [-> | ->] & Hbuf)
          |(-> & -> & [(v & Hbuf & ->) | (Hbuf & ->)])]]]];
    cbn in *; rewrite ?Hbuf in *; cbn in *; lia.
Qed.

Lemma run_gateInv s tr s' : gateInv s -> run E s tr s' -> gateInv s'.
Proof.
  intros Hinv Hrun. induction Hrun as [|s x s1 tr s2 Hstep Hrun IH]; [done|].
  apply IH. by eapply step_gateInv.
Qed.

Lemma initial_gateInv n w : gateInv (initial n w).
Proof.
  unfold gateInv, initial. cbn [fst snd set_refreshReqChannel refreshReqChannel].
  rewrite flying_replicate. cbn. lia.
Qed.

(** Each action takes a goroutine from one admissible history to the
    next. *)
Lemma threadStep_history p w l p' w' h :
  threadStep E p w = Some (l, (p', w')) ->
  h ∈ history p -> h ++ [l] ∈ history p'.
Proof.
  intros Hstep Hh.
  destruct (threadStep_cases _ _ _ _ _ Hstep)
    as [(-> & _ & -> & -> & _)
       |[(-> & _ & -> & -> & _)
        |[(-> & -> & -> & _)
         |[(-> & -> & [-> | ->] & _)
          |(-> & -> & [(v & _ & ->) | (_ & ->)])]]]];
    cbn [history] in *;
    apply list_elem_of_singleton in Hh as ->; cbn;
    rewrite ?elem_of_cons; auto.
Qed.

Lemma labelsOf_cons i j l tr :
  labelsOf i ((j, l) :: tr)
  = if decide (j = i) then l :: labelsOf i tr else labelsOf i tr.
Proof.
  unfold labelsOf. cbn [List.filter fst].
  destruct (decide (j = i)) as [->|Hne].
  - by rewrite Nat.eqb_refl.
  - apply Nat.eqb_neq in Hne. by rewrite Hne.
Qed.

Lemma labelsOf_app i tr1 tr2 :
  labelsOf i (tr1 ++ tr2) = labelsOf i tr1 ++ labelsOf i tr2.
Proof. unfold labelsOf. by rewrite List.filter_app, fmap_app. Qed.

Lemma run_history s0 tr s :
  run E s0 tr s ->
  forall h0 : nat -> list label,
    (forall i p, fst s0 !! i = Some p -> h0 i ∈ history p) ->
    forall i p, fst s !! i = Some p -> h0 i ++ labelsOf i tr ∈ history p.
Proof.
  induction 1 as [s|s x s1 tr s2 Hstep Hrun IH]; intros h0 H0 i p Hi.
  - cbn. rewrite app_nil_r. by apply H0.
  - destruct Hstep as [ths w j q l q' w' Hj Hstep]. cbn [fst snd] in *.
    specialize (IH (fun k => if decide (j = k) then h0 k ++ [l] else h0 k)).
    rewrite labelsOf_cons.
    assert (forall k p, <[j := q']> ths !! k = Some p ->
                        (if decide (j = k) then h0 k ++ [l] else h0 k) ∈ history p) as H1.
    { intros k r Hk. destruct (decide (j = k)) as [<-|Hne].
      - rewrite list_lookup_insert_eq in Hk by by eapply lookup_lt_Some.
        injection Hk as <-. eapply threadStep_history; [done|]. by apply H0.
      - rewrite list_lookup_insert_ne in Hk by done. by apply H0. }
    specialize (IH H1 i p Hi). cbn beta in IH. revert IH.
    destruct (decide (j = i)); [|done].
    by rewrite <- app_assoc.
Qed.

Lemma run_app s0 tr1 s1 tr2 s2 :
  run E s0 tr1 s1 -> run E s1 tr2 s2 -> run E s0 (tr1 ++ tr2) s2.
Proof.
  induction 1 as [|s x s' tr s'' Hstep Hrun IH]; [done|].
  intros H2. cbn. eapply run_cons; [done | by apply IH].
Qed.

Lemma run_threads s0 tr s :
  run E s0 tr s ->
  length (fst s) = length (fst s0)
  /\ Forall (fun x => (fst x < length (fst s0))%nat) tr.
Proof.
  induction 1 as [|s x s1 tr s2 Hstep Hrun [IHlen IHtr]]; [done|].
  destruct Hstep as [ths w j q l q' w' Hj Hstep]. cbn [fst snd] in *.
  rewrite length_insert in IHlen, IHtr. split; [done|].
  constructor; [|done]. cbn. by eapply lookup_lt_Some.
Qed.

(** The goroutine on its own is [RefreshCatalog]. *)
Lemma solo_RefreshCatalog w :
  snd (solo E 4 Start w) = snd (RefreshCatalog E w)
  /\ (fst (solo E 4 Start w) = Done <-> fst (RefreshCatalog E w) = Ret tt).
Proof.
  assert (forall k p w, solo E (S k) p w
                        = match threadStep E p w with
                          | Some (_, (p', w')) => solo E k p' w'
                          | None => (p, w)
                          end) as Hsolo by reflexivity.
  unfold RefreshCatalog, bind. rewrite Hsolo. cbn [threadStep].
  destruct (trySend 1 w) as [[[]| | |] w1] eqn:Hsend;
    try (unfold trySend in Hsend;
         destruct (length (refreshReqChannel w) <? 1)%nat; discriminate).
  - rewrite Hsolo. cbn [threadStep].
    destruct (pullCatalog E w1) as [[[]| | |] w2]; cbn [afterwards];
      [|rewrite Hsolo; split; [reflexivity | split; discriminate] ..].
    rewrite Hsolo. cbn [threadStep].
    destruct (Walk (walkCatalog E) catalogRoot w2) as [[r| | |] w3]; cbn [afterwards];
      [|rewrite Hsolo; split; [reflexivity | split; discriminate] ..].
    rewrite Hsolo. cbn [threadStep].
    destruct (receive w3) as [[v| | |] w4]; cbn;
      [done | split; [reflexivity | split; discriminate] ..].
  - cbn. done.
Qed.

End GateMachine.

Section SingleFlight.

Variable E : Env.

Import Gate.

Lemma initial_history n w i p :
  fst (initial n w) !! i = Some p -> [] ∈ history p.
Proof.
  cbn. intros [-> _]%lookup_replicate. by apply list_elem_of_singleton.
Qed.

Lemma run_initial_history n w tr s i p :
  run E (initial n w) tr s -> fst s !! i = Some p -> labelsOf i tr ∈ history p.
Proof.
  intros Hrun Hi.
  apply (run_history E _ _ _ Hrun (fun _ => []) (fun i p => initial_history n w i p) i p Hi).
Qed.

Lemma count_two l tr :
  Forall (fun x => (fst x < 2)%nat) tr ->
  count l tr
  = (length (List.filter (fun y => bool_decide (y = l)) (labelsOf 0 tr))
     + length (List.filter (fun y => bool_decide (y = l)) (labelsOf 1 tr)))%nat.
Proof.
  unfold count. induction 1 as [|[i l'] tr Hi Htr IH]; [done|].
  rewrite !labelsOf_cons. cbn [List.filter fst snd] in *.
  destruct i as [|[|i]]; [| |lia].
  all: destruct (decide (0%nat = 0%nat)), (decide (0%nat = 1%nat)),
         (decide (1%nat = 0%nat)), (decide (1%nat = 1%nat)); try lia.
  all: cbn [List.filter]; destruct (bool_decide (l' = l)); cbn [length]; lia.
Qed.

Lemma history_in_flight p h :
  inFlight p = true -> h ∈ history p -> exists h', h = Acquire :: h'.
Proof.
  destruct p; try discriminate; intros _; cbn [history];
    rewrite ?elem_of_cons, ?elem_of_nil; intros H;
    repeat (destruct H as [-> | H]; [eauto|]); done.
Qed.

(** Two calls, the second of which reaches the gate while the first
    holds it: the second skips, the first pulls and rebuilds once. *)
Lemma pair_single_flight w tr1 s j l s2 tr2 w' :
  run E (initial 2 w) tr1 s ->
  fst s !! j = Some Start ->
  flying (fst s) = 1%nat ->
  step E s (j, l) s2 ->
  run E s2 tr2 ([Done; Done], w') ->
  labelsOf j (tr1 ++ (j, l) :: tr2) = [Skip]
  /\ labelsOf (1 - j) (tr1 ++ (j, l) :: tr2) = [Acquire; Pull; Rebuild; Release]
  /\ count Pull (tr1 ++ (j, l) :: tr2) = 1%nat
  /\ count Rebuild (tr1 ++ (j, l) :: tr2) = 1%nat.
Proof.
  intros Hrun1 Hj Hfly Hstep Hrun2.
  pose proof (run_gateInv E _ _ _ (initial_gateInv 2 w) Hrun1) as [Hgate _].
  assert (run E (initial 2 w) (tr1 ++ (j, l) :: tr2) ([Done; Done], w')) as Hrun.
  { eapply run_app; [exact Hrun1|]. by eapply run_cons. }
  destruct (run_threads E _ _ _ Hrun1) as [Hlen _].
  destruct (run_threads E _ _ _ Hrun) as [_ Hidx].
  cbn [initial fst length replicate] in Hlen, Hidx.
  (* the second call skips *)
  assert (l = Skip) as ->.
  { inversion Hstep as [ths ws i p l0 p' ws' Hi Hthread]; subst. cbn [fst snd] in *.
    rewrite Hj in Hi. injection Hi as <-.
    destruct (threadStep_cases E _ _ _ _ _ Hthread)
      as [(_ & Hbuf & _)|[(_ & _ & -> & _)|[(? & _)|[(? & _)|(? & _)]]]];
      try done.
    rewrite Hbuf in Hgate. cbn in Hgate. lia. }
  (* the other call is past the gate *)
  assert (exists pk, fst s !! (1 - j)%nat = Some pk /\ inFlight pk = true /\ (j < 2)%nat)
    as (pk & Hk & Hpk & Hj2).
  { destruct (fst s) as [|a [|b [|c ths]]]; try discriminate.
    unfold flying in Hfly.
    destruct j as [|[|j]]; [| |discriminate]; cbn in Hj; injection Hj as ->;
      cbn [List.filter inFlight] in Hfly.
    - exists b. split_and!; [done | | lia].
      destruct (inFlight b); [done | discriminate].
    - exists a. split_and!; [done | | lia].
      destruct (inFlight a); [done | discriminate]. }
  pose proof (run_initial_history _ _ _ _ _ _ Hrun1 Hj) as Hhj.
  apply list_elem_of_singleton in Hhj.
  pose proof (run_initial_history _ _ _ _ _ _ Hrun1 Hk) as Hhk.
  destruct (history_in_flight _ _ Hpk Hhk) as (hk & Hhk').
  assert (labelsOf j (tr1 ++ (j, Skip) :: tr2) = [Skip]) as HJ.
  { assert ([Done; Done] !! j = Some Done) as Hdone
      by (destruct j as [|[|j]]; [done | done | lia]).
    pose proof (run_initial_history _ _ _ _ _ _ Hrun Hdone) as Hh.
    rewrite labelsOf_app, labelsOf_cons, Hhj in Hh |- *.
    destruct (decide (j = j)); [|done]. cbn [app history] in *.
    rewrite !elem_of_cons, elem_of_nil in Hh. destruct Hh as [?|[?|[]]]; congruence. }
  assert (labelsOf (1 - j) (tr1 ++ (j, Skip) :: tr2) = [Acquire; Pull; Rebuild; Release])
    as HK.
  { assert ([Done; Done] !! (1 - j)%nat = Some Done) as Hdone
      by (destruct j as [|[|j]]; [done | done | lia]).
    pose proof (run_initial_history _ _ _ _ _ _ Hrun Hdone) as Hh.
    rewrite labelsOf_app, Hhk' in Hh |- *. cbn [app history] in *.
    rewrite !elem_of_cons, elem_of_nil in Hh. destruct Hh as [?|[?|[]]]; congruence. }
  split_and!; [done | done | |].
  all: rewrite (count_two _ _ Hidx).
  all: destruct j as [|[|j]]; [| |lia]; cbn [Nat.sub] in HK; rewrite HJ, HK; reflexivity.
Qed.

End SingleFlight.


(** * Further properties *)

(** ** What a computation leaves alone *)

Create HintDb frame.

Section Respects.

Context (R : relation World) `{!PreOrder R}.

Lemma respects_ret {A} (a : A) : respects R (ret a).
Proof. intros w. reflexivity. Qed.

Lemma respects_panic {A} : respects R (@panic A).
Proof. intros w. reflexivity. Qed.

Lemma respects_gets {A} (f : World -> A) : respects R (gets f).
Proof. intros w. reflexivity. Qed.

Lemma respects_deref {A} (p : option A) : respects R (deref p).
Proof. destruct p; intros w; reflexivity. Qed.

Lemma respects_bind {A B} (c : M A) (k : A -> M B) :
  respects R c -> (forall a, respects R (k a)) -> respects R (bind c k).
Proof.
  intros Hc Hk w. unfold bind. specialize (Hc w).
  destruct (c w) as [[a| | |] w1]; cbn in *; [|done..].
  etrans; [exact Hc | apply Hk].
Qed.

Lemma respects_foldM {A B} (f : A -> B -> M A) (l : list B) :
  (forall a b, respects R (f a b)) -> forall a, respects R (foldM f a l).
Proof.
  intros Hf. induction l as [|b l IH]; intros a; cbn [foldM].
  - apply respects_ret.
  - apply respects_bind; [apply Hf | apply IH].
Qed.

End Respects.

#[local] Hint Resolve respects_ret respects_panic respects_gets respects_deref : frame.
#[local] Hint Extern 1 (PreOrder _) => apply _ : frame.
#[local] Hint Extern 2 (respects _ (bind _ _)) => apply respects_bind; [apply _ | | intros ?] : frame.
#[local] Hint Extern 3 (respects _ (match ?x with _ => _ end)) => destruct x : frame.
#[local] Hint Extern 3 (respects _ (let '(_, _) := ?x in _)) => destruct x : frame.

Global Instance onlyLogs_preorder : PreOrder onlyLogs.
Proof.
  split.
  - intros w. exists []. by rewrite emitAll_nil.
  - intros w1 w2 w3 (e1 & -> & H1) (e2 & -> & H2). exists (e1 ++ e2).
    by rewrite emitAll_app, forallb_app, H1, H2.
Qed.

Lemma onlyLogs_logf lvl msg :
  quietEvent (Log lvl msg) = true -> respects onlyLogs (logf lvl msg).
Proof. intros H w. exists [Log lvl msg]. cbn [forallb]. by rewrite H. Qed.

#[local] Hint Extern 1 (respects onlyLogs (logf _ _)) => apply onlyLogs_logf; reflexivity : frame.

Section ReadOnly.

Variable E : Env.

Lemma onlyLogs_readTemplateConfig relativePath t :
  respects onlyLogs (readTemplateConfig E relativePath t).
Proof. unfold readTemplateConfig, ioutil_ReadFile. auto 20 with frame. Qed.

Lemma onlyLogs_readFile relativePath fileName :
  respects onlyLogs (readFile relativePath fileName).
Proof. unfold readFile, ioutil_ReadFile. auto 20 with frame. Qed.

Lemma onlyLogs_versionEntry path st f : respects onlyLogs (versionEntry E path st f).
Proof.
  pose proof onlyLogs_readTemplateConfig. pose proof onlyLogs_readFile.
  unfold versionEntry. destruct st as [[t fc] fi]. auto 20 with frame.
Qed.

Lemma onlyLogs_ReadTemplateVersion path : respects onlyLogs (ReadTemplateVersion E path).
Proof.
  unfold ReadTemplateVersion, ioutil_ReadDir, parentPathOf.
  apply respects_bind; [apply _ | auto with frame |]. intros [dirList|]; [|auto 20 with frame].
  apply respects_bind; [apply _ | |].
  - apply respects_foldM; [apply _|]. intros. apply onlyLogs_versionEntry.
  - intros [[t fc] fi]. auto 30 with frame.
Qed.

End ReadOnly.

(** X1. A lookup only reads: however [ReadTemplateVersion] ends, it has
    left the catalog, the gate and the tree as they were, has run no
    command, and has added to the log only entries at error or debug
    level. *)
Theorem ReadTemplateVersion_only_reads E path w :
  exists evs,
    snd (ReadTemplateVersion E path w) = emitAll evs w
    /\ forallb quietEvent evs = true
    /\ Catalog (snd (ReadTemplateVersion E path w)) = Catalog w
    /\ tree (snd (ReadTemplateVersion E path w)) = tree w
    /\ refreshReqChannel (snd (ReadTemplateVersion E path w)) = refreshReqChannel w.
Proof.
  destruct (onlyLogs_ReadTemplateVersion E path w) as (evs & -> & Hquiet).
  by exists evs.
Qed.

(** ** When a lookup panics *)

Lemma composeReadable_or_not T path dirList :
  composeReadable T path dirList
  \/ exists f, f ∈ dirList /\ isComposeEntry f = true
               /\ FS.ReadFile T ((catalogRoot +:+ path) +:+ "/" +:+ FName f) = None.
Proof.
  unfold composeReadable. induction dirList as [|f l IH].
  - left. constructor.
  - destruct IH as [IH | (g & Hg & Hc & Hn)].
    + destruct (isComposeEntry f) eqn:Hc.
      * destruct (FS.ReadFile T ((catalogRoot +:+ path) +:+ "/" +:+ FName f)) eqn:Hf.
        -- left. constructor; [|done]. intros _. by rewrite Hf.
        -- right. exists f. split; [apply elem_of_cons; by left | done].
      * left. constructor; [|done]. intros Ht. congruence.
    + right. exists g. split; [apply elem_of_cons; by right | done].
Qed.

(** X2. [ReadTemplateVersion] returns or panics, nothing else, and it
    panics exactly when the version directory lists a deployment or
    orchestration manifest that cannot be read; when it returns, the
    template carries the path asked for. *)
Theorem ReadTemplateVersion_panics_iff E path w :
  (fst (ReadTemplateVersion E path w) = Panic
   <-> exists dirList f,
         FS.ReadDir (tree w) (catalogRoot +:+ path) = Some dirList
         /\ f ∈ dirList /\ isComposeEntry f = true
         /\ FS.ReadFile (tree w) ((catalogRoot +:+ path) +:+ "/" +:+ FName f) = None)
  /\ (fst (ReadTemplateVersion E path w) = Panic
      \/ exists t, fst (ReadTemplateVersion E path w) = Ret t /\ Path t = path).
Proof.
  destruct (FS.ReadDir (tree w) (catalogRoot +:+ path)) as [dirList|] eqn:Hdir.
  - destruct (composeReadable_or_not (tree w) path dirList) as [Hread | (f & Hf & Hc & Hn)].
    + destruct (ReadTemplateVersion_listed E path dirList w Hdir Hread)
        as (t & evs & Hrun & Hpath & _).
      rewrite Hrun. cbn [fst]. split; [|right; by exists t].
      split; [discriminate|].
      intros (l & f & Hl & Hf & Hc & Hn).
      injection Hl as <-.
      unfold composeReadable in Hread. rewrite Forall_forall in Hread.
      by destruct (Hread f Hf Hc).
    + pose proof (unreadable_compose_panics E path dirList w f Hdir Hf Hc Hn) as Hpanic.
      split; [|by left]. split; [|done]. intros _. by exists dirList, f.
  - rewrite (ReadTemplateVersion_unlisted E path w Hdir). cbn [fst].
    split; [|right; by eexists].
    split; [discriminate|]. by intros (l & f & Hl & _).
Qed.

(** ** What a lookup returns *)

Section VersionDetail.
Context (E : Env).

Lemma rangeQuestions_others fileName RC t :
  VersionLinks (rangeQuestions E fileName RC t) = VersionLinks t
  /\ DockerCompose (rangeQuestions E fileName RC t) = DockerCompose t.
Proof.
  unfold rangeQuestions. generalize (range_order E fileName RC). intros keys.
  revert t. induction keys as [|k keys IH]; intros t; [done|].
  cbn [fold_left]. destruct (IH (set_Questions (RC_Questions (sectionAt RC k)) t)) as [-> ->].
  done.
Qed.

(** One turn of the loop over the entries of a version directory, field
    by field. *)
Lemma versionEntry_detail path t fc fi f w :
  (isComposeEntry f = true ->
   FS.ReadFile (tree w) ((catalogRoot +:+ path) +:+ "/" +:+ FName f) <> None) ->
  exists t' evs,
    versionEntry E path (t, fc, fi) f w
    = (Ret (t', fc || isConfigEntry f, fi || isIconEntry f), emitAll evs w)
    /\ IconLink t' = (if isIconEntry f then path +:+ "/" +:+ FName f else IconLink t)
    /\ DockerCompose t'
       = (if isDockerEntry f then contentsOf (tree w) path f else DockerCompose t)
    /\ RancherComposeText t'
       = (if isRancherEntry f then contentsOf (tree w) path f else RancherComposeText t)
    /\ Questions t'
       = (if isRancherEntry f then questionsAfter E (tree w) path (Questions t) f
          else Questions t)
    /\ VersionLinks t' = VersionLinks t
    /\ (isRancherEntry f = true ->
        yaml_sections E (contentsOf (tree w) path f) = None ->
        Log Error ("Error unmarshalling " +:+ FName f +:+ " under template: " +:+ path)
        ∈ evs).
Proof.
  intros Hread.
  destruct (entry_kinds_exclusive f) as (Hcfg & Hicon & Hdocker).
  unfold isComposeEntry in *.
  unfold versionEntry.
  fold (isConfigEntry f) (isIconEntry f) (isDockerEntry f) (isRancherEntry f).
  destruct (isConfigEntry f) eqn:Ec.
  { destruct (Hcfg eq_refl) as [-> Hno]. apply orb_false_iff in Hno as [-> ->].
    destruct (readTemplateConfig_spec E (catalogRoot +:+ path) t w) as (evs & Hr & _).
    unfold bind. rewrite Hr. unfold ret.
    eexists _, evs. rewrite !orb_true_r, !orb_false_r.
    split_and!; try reflexivity; try discriminate;
      by destruct (configOf E (tree w) (catalogRoot +:+ path)). }
  destruct (isIconEntry f) eqn:Ei.
  { pose proof (Hicon eq_refl) as Hno. apply orb_false_iff in Hno as [-> ->].
    exists (set_IconLink (path +:+ "/" +:+ FName f) t), [].
    rewrite emitAll_nil, !orb_true_r, !orb_false_r. unfold ret.
    by split_and!. }
  rewrite !orb_false_r.
  destruct (isDockerEntry f) eqn:Ed.
  { rewrite (Hdocker eq_refl).
    destruct (readFile_spec (catalogRoot +:+ path) (FName f) w) as (evs & Hr & _).
    unfold bind. rewrite Hr. unfold contentsOf.
    destruct (FS.ReadFile (tree w) ((catalogRoot +:+ path) +:+ "/" +:+ FName f)) as [s|];
      [|by destruct (Hread eq_refl)].
    cbn. eexists _, evs. by split_and!. }
  destruct (isRancherEntry f) eqn:Er.
  { destruct (readFile_spec (catalogRoot +:+ path) (FName f) w) as (evs & Hr & Hnone).
    unfold bind at 1. rewrite Hr. unfold questionsAfter, contentsOf.
    destruct (FS.ReadFile (tree w) ((catalogRoot +:+ path) +:+ "/" +:+ FName f)) as [s|] eqn:Hs;
      [|by destruct (Hread eq_refl)].
    unfold bind, deref, ret. cbn [default from_option]. unfold id.
    destruct (yaml_sections E s) as [secs|] eqn:Hy.
    - eexists _, evs. split; [reflexivity|].
      destruct (rangeQuestions_fields E (FName f) (sectionsMap secs)
                  (set_RancherComposeText s t)) as (_ & -> & _).
      destruct (rangeQuestions_others (FName f) (sectionsMap secs)
                  (set_RancherComposeText s t)) as (Hv & Hd).
      rewrite Hv, Hd, rangeQuestions_text, rangeQuestions_last.
      by split_and!.
    - unfold logf, modify. eexists _, (evs ++ [_])%list.
      rewrite <- emitAll_app. split; [reflexivity|].
      split_and!; try done.
      intros _ _. apply elem_of_app. right. by apply list_elem_of_singleton. }
  exists t, []. rewrite emitAll_nil. by split_and!.
Qed.

Lemma last_filter_snoc {A} (P : A -> bool) (l : list A) (x : A) :
  last (List.filter P (l ++ [x]))
  = if P x then Some x else last (List.filter P l).
Proof.
  rewrite List.filter_app. cbn [List.filter].
  destruct (P x); [apply last_snoc | by rewrite app_nil_r].
Qed.

Lemma fold_left_filter_snoc {A B} (P : B -> bool) (g : A -> B -> A) (l : list B) x a :
  fold_left g (List.filter P (l ++ [x])) a
  = if P x then g (fold_left g (List.filter P l) a) x
    else fold_left g (List.filter P l) a.
Proof.
  rewrite List.filter_app. cbn [List.filter].
  destruct (P x); [by rewrite fold_left_app | by rewrite app_nil_r].
Qed.

(** The whole loop, field by field: of each kind of entry the last one
    decides. *)
Lemma versionLoop_detail path l : forall t fc fi w,
  composeReadable (tree w) path l ->
  exists t' evs,
    foldM (versionEntry E path) (t, fc, fi) l w
    = (Ret (t', fc || existsb isConfigEntry l, fi || existsb isIconEntry l),
       emitAll evs w)
    /\ IconLink t'
       = from_option (fun f => path +:+ "/" +:+ FName f) (IconLink t) (last (iconsOf l))
    /\ DockerCompose t'
       = from_option (contentsOf (tree w) path) (DockerCompose t) (last (dockersOf l))
    /\ RancherComposeText t'
       = from_option (contentsOf (tree w) path) (RancherComposeText t)
           (last (ranchersOf l))
    /\ Questions t'
       = fold_left (questionsAfter E (tree w) path) (ranchersOf l) (Questions t)
    /\ VersionLinks t' = VersionLinks t
    /\ (forall f, f ∈ ranchersOf l ->
          yaml_sections E (contentsOf (tree w) path f) = None ->
          Log Error ("Error unmarshalling " +:+ FName f +:+ " under template: " +:+ path)
          ∈ evs).
Proof.
  induction l as [|f l IH] using rev_ind; intros t fc fi w Hread.
  - exists t, []. rewrite emitAll_nil, !orb_false_r. split_and!; try done.
    intros f Hf. by apply elem_of_nil in Hf.
  - unfold composeReadable in Hread. apply Forall_app in Hread as [Hl Hf].
    apply Forall_cons in Hf as [Hf _].
    destruct (IH t fc fi w Hl) as (t1 & e1 & Hloop & Hi1 & Hd1 & Hr1 & Hq1 & Hv1 & He1).
    destruct (versionEntry_detail path t1 (fc || existsb isConfigEntry l)
                (fi || existsb isIconEntry l) f (emitAll e1 w) Hf)
      as (t2 & e2 & Hstep & Hi2 & Hd2 & Hr2 & Hq2 & Hv2 & He2).
    change (tree (emitAll e1 w)) with (tree w) in *.
    exists t2, (e1 ++ e2)%list.
    rewrite foldM_app. unfold bind at 1. rewrite Hloop. cbn [foldM].
    unfold bind at 1. rewrite Hstep. unfold ret.
    rewrite !existsb_app, emitAll_app. cbn [existsb]. rewrite !orb_false_r, !orb_assoc.
    unfold iconsOf, dockersOf, ranchersOf in *.
    rewrite !last_filter_snoc, fold_left_filter_snoc.
    split_and!; try done.
    + rewrite Hi2, Hi1. by destruct (isIconEntry f).
    + rewrite Hd2, Hd1. by destruct (isDockerEntry f).
    + rewrite Hr2, Hr1. by destruct (isRancherEntry f).
    + rewrite Hq2, Hq1. by destruct (isRancherEntry f).
    + by rewrite Hv2.
    + intros g Hg Hn. apply elem_of_app.
      rewrite List.filter_app in Hg. apply elem_of_app in Hg as [Hg|Hg]; [left; by apply He1|].
      right. cbn [List.filter] in Hg. destruct (isRancherEntry f) eqn:Er.
      * apply list_elem_of_singleton in Hg as ->. by apply He2.
      * by apply elem_of_nil in Hg.
Qed.

(** What follows the loop: the parent stands in for a missing icon, and
    nothing else of the fields below changes. *)
Lemma ReadTemplateVersion_finish path dirList w t1 fc fi evs :
  FS.ReadDir (tree w) (catalogRoot +:+ path) = Some dirList ->
  foldM (versionEntry E path) (set_Path path emptyTemplate, false, false) dirList w
  = (Ret (t1, fc, fi), emitAll evs w) ->
  exists t evs',
    ReadTemplateVersion E path w = (Ret t, emitAll (evs ++ evs') w)
    /\ IconLink t = (if fi then IconLink t1
                     else match Catalog w !! templateId path with
                          | Some parent => IconLink parent
                          | None => IconLink t1
                          end)
    /\ Questions t = Questions t1
    /\ RancherComposeText t = RancherComposeText t1
    /\ DockerCompose t = DockerCompose t1
    /\ VersionLinks t = VersionLinks t1.
Proof.
  intros Hdir Hloop.
  unfold ReadTemplateVersion, ioutil_ReadDir, gets.
  unfold bind at 1. rewrite Hdir.
  unfold bind at 1. rewrite Hloop.
  destruct fc, fi; cbn [negb]; unfold bind, ret, gets, logf, modify;
    rewrite ?parentPathOf_spec; cbn [Catalog emitAll emit];
    destruct (Catalog w !! templateId path) as [parent|] eqn:Ep;
    rewrite ?parentPathOf_spec; cbn [Catalog emitAll emit]; rewrite ?Ep.
  all: try (exists t1, []; rewrite app_nil_r; by split_and!).
  all: try (eexists _, []; rewrite app_nil_r; by split_and!).
  all: try (eexists _, [_]; rewrite <- emitAll_app; by split_and!).
  exists t1, [Log Debug ("Could not find the parent metadata " +:+ templateId path);
              Log Debug ("Could not find the parent metadata " +:+ templateId path)].
  split_and!; try done.
  rewrite <- emitAll_app. f_equal.
  apply (emitAll_app [_] [_]).
Qed.

Lemma last_filter_None {A} (P : A -> bool) (l : list A) :
  existsb P l = false -> last (List.filter P l) = None.
Proof.
  induction l as [|x l IH]; [done|]. cbn [existsb List.filter].
  intros [-> Hl]%orb_false_iff. by apply IH.
Qed.

Lemma last_filter_Some {A} (P : A -> bool) (l : list A) :
  existsb P l = true -> is_Some (last (List.filter P l)).
Proof.
  induction l as [|x l IH] using rev_ind; [done|].
  rewrite existsb_app, last_filter_snoc. cbn [existsb]. rewrite orb_false_r.
  destruct (P x); [by eexists|]. rewrite orb_false_r. apply IH.
Qed.

(** A lookup in a version directory that can be listed and whose
    manifests can be read, field by field. *)
Lemma ReadTemplateVersion_detail path dirList w :
  FS.ReadDir (tree w) (catalogRoot +:+ path) = Some dirList ->
  composeReadable (tree w) path dirList ->
  exists t evs,
    ReadTemplateVersion E path w = (Ret t, emitAll evs w)
    /\ IconLink t
       = match last (iconsOf dirList) with
         | Some f => path +:+ "/" +:+ FName f
         | None => match Catalog w !! templateId path with
                   | Some parent => IconLink parent
                   | None => ""
                   end
         end
    /\ DockerCompose t = from_option (contentsOf (tree w) path) "" (last (dockersOf dirList))
    /\ RancherComposeText t
       = from_option (contentsOf (tree w) path) "" (last (ranchersOf dirList))
    /\ Questions t = fold_left (questionsAfter E (tree w) path) (ranchersOf dirList) []
    /\ VersionLinks t = ∅
    /\ (forall f, f ∈ ranchersOf dirList ->
          yaml_sections E (contentsOf (tree w) path f) = None ->
          Log Error ("Error unmarshalling " +:+ FName f +:+ " under template: " +:+ path)
          ∈ evs).
Proof.
  intros Hdir Hread.
  destruct (versionLoop_detail path dirList (set_Path path emptyTemplate) false false w Hread)
    as (t1 & e1 & Hloop & Hi1 & Hd1 & Hr1 & Hq1 & Hv1 & He1).
  destruct (ReadTemplateVersion_finish path dirList w t1 _ _ e1 Hdir Hloop)
    as (t & e2 & Hrun & Hi & Hq & Hr & Hd & Hv).
  exists t, (e1 ++ e2)%list. split; [exact Hrun|].
  rewrite Hq, Hr, Hd, Hv, Hq1, Hr1, Hd1, Hv1.
  split_and!; try done.
  - rewrite Hi, Hi1. cbn [orb]. unfold iconsOf.
    destruct (existsb isIconEntry dirList) eqn:Hex.
    + by destruct (last_filter_Some _ _ Hex) as [f ->].
    + rewrite (last_filter_None _ _ Hex). cbn [from_option].
      by destruct (Catalog w !! templateId path).
  - intros f Hf Hn. apply elem_of_app. left. by apply He1.
Qed.

End VersionDetail.

(** X3. The icon of a version is the last entry of its directory whose
    name starts with catalogIcon; a version without such an entry shows
    the icon of its template, and none when the template is not in the
    catalog. *)
Theorem ReadTemplateVersion_icon E path dirList w :
  FS.ReadDir (tree w) (catalogRoot +:+ path) = Some dirList ->
  composeReadable (tree w) path dirList ->
  exists t w',
    ReadTemplateVersion E path w = (Ret t, w')
    /\ IconLink t
       = match last (iconsOf dirList) with
         | Some f => path +:+ "/" +:+ FName f
         | None => match Catalog w !! templateId path with
                   | Some parent => IconLink parent
                   | None => ""
                   end
         end.
Proof.
  intros Hdir Hread.
  destruct (ReadTemplateVersion_detail E path dirList w Hdir Hread)
    as (t & evs & Hrun & Hi & _).
  by exists t, (emitAll evs w).
Qed.

(** Witness of X3: version [t/1] holds no icon and shows the icon of
    template [t]. *)
Lemma ReadTemplateVersion_icon_witness :
  exists t w',
    ReadTemplateVersion Ex.E0 "t/1" (Ex.serving Ex.E0) = (Ret t, w')
    /\ IconLink t = "t/catalogIcon-t.svg".
Proof.
  destruct (ReadTemplateVersion_icon Ex.E0 "t/1"
              [mkFileInfo "docker-compose.yml" false;
               mkFileInfo "rancher-compose.yml" false] (Ex.serving Ex.E0))
    as (t & w' & Hrun & Hi).
  - reflexivity.
  - by apply composeReadable_serving.
  - exists t, w'. split; [exact Hrun|]. rewrite Hi. vm_compute. reflexivity.
Defined.

(** X4. The manifests of a version are the contents, byte for byte, of
    the last entry whose name starts with docker-compose and of the last
    entry whose name starts with rancher-compose; a version without such
    an entry has an empty manifest.  A version never carries version
    links. *)
Theorem ReadTemplateVersion_manifests E path dirList w :
  FS.ReadDir (tree w) (catalogRoot +:+ path) = Some dirList ->
  composeReadable (tree w) path dirList ->
  exists t w',
    ReadTemplateVersion E path w = (Ret t, w')
    /\ DockerCompose t
       = match last (dockersOf dirList) with
         | Some f => contentsOf (tree w) path f
         | None => ""
         end
    /\ RancherComposeText t
       = match last (ranchersOf dirList) with
         | Some f => contentsOf (tree w) path f
         | None => ""
         end
    /\ VersionLinks t = ∅.
Proof.
  intros Hdir Hread.
  destruct (ReadTemplateVersion_detail E path dirList w Hdir Hread)
    as (t & evs & Hrun & _ & Hd & Hr & _ & Hv & _).
  exists t, (emitAll evs w). split_and!; [done | | | done].
  - rewrite Hd. by destruct (last (dockersOf dirList)).
  - rewrite Hr. by destruct (last (ranchersOf dirList)).
Qed.

(** Witness of X4: the manifests of version [t/1]. *)
Lemma ReadTemplateVersion_manifests_witness :
  exists t w',
    ReadTemplateVersion Ex.E0 "t/1" (Ex.serving Ex.E0) = (Ret t, w')
    /\ DockerCompose t = "web: nginx"
    /\ RancherComposeText t = "catalog: scale".
Proof.
  destruct (ReadTemplateVersion_manifests Ex.E0 "t/1"
              [mkFileInfo "docker-compose.yml" false;
               mkFileInfo "rancher-compose.yml" false] (Ex.serving Ex.E0))
    as (t & w' & Hrun & Hd & Hr & _).
  - reflexivity.
  - by apply composeReadable_serving.
  - exists t, w'. split_and!; [exact Hrun | by rewrite Hd | by rewrite Hr].
Defined.

(** X5. The questions of a version are gathered over its orchestration
    manifests in the order of the listing: a manifest that decodes
    replaces them by the questions of the section its loop visits last;
    one that does not decode, or whose loop visits no section, leaves
    them as they are (while its text still becomes the manifest of the
    version).  So a version none of whose orchestration manifests decodes
    has no questions, and each manifest that does not decode is reported
    at error level. *)
Theorem ReadTemplateVersion_questions E path dirList w :
  FS.ReadDir (tree w) (catalogRoot +:+ path) = Some dirList ->
  composeReadable (tree w) path dirList ->
  exists t evs,
    ReadTemplateVersion E path w = (Ret t, emitAll evs w)
    /\ Questions t = fold_left (questionsAfter E (tree w) path) (ranchersOf dirList) []
    /\ (Forall (fun f => yaml_sections E (contentsOf (tree w) path f) = None)
          (ranchersOf dirList) -> Questions t = [])
    /\ (forall f, f ∈ dirList -> isRancherEntry f = true ->
          yaml_sections E (contentsOf (tree w) path f) = None ->
          Log Error ("Error unmarshalling " +:+ FName f +:+ " under template: " +:+ path)
          ∈ evs).
Proof.
  intros Hdir Hread.
  destruct (ReadTemplateVersion_detail E path dirList w Hdir Hread)
    as (t & evs & Hrun & _ & _ & _ & Hq & _ & He).
  exists t, evs. split_and!; [done | done | |].
  - rewrite Hq. generalize (ranchersOf dirList). intros l Hall.
    induction Hall as [|f l Hf _ IH]; [done|].
    cbn [fold_left]. unfold questionsAfter at 2. by rewrite Hf.
  - intros f Hf Hr. apply He. unfold ranchersOf.
    apply list_elem_of_In, filter_In. split; [by apply list_elem_of_In | done].
Qed.

(** Witness of X5: the manifest of version [t/5] is no mapping. *)
Lemma ReadTemplateVersion_questions_witness :
  exists t evs,
    ReadTemplateVersion Ex.E0 "t/5" (Ex.serving Ex.E0)
    = (Ret t, emitAll evs (Ex.serving Ex.E0))
    /\ Questions t = []
    /\ Log Error "Error unmarshalling rancher-compose.yml under template: t/5" ∈ evs.
Proof.
  destruct (ReadTemplateVersion_questions Ex.E0 "t/5"
              [mkFileInfo "rancher-compose.yml" false] (Ex.serving Ex.E0))
    as (t & evs & Hrun & _ & Hq & He).
  - reflexivity.
  - by apply composeReadable_serving.
  - exists t, evs. split_and!; [exact Hrun | |].
    + apply Hq. repeat constructor.
    + apply (He (mkFileInfo "rancher-compose.yml" false)).
      * apply list_elem_of_singleton. reflexivity.
      * reflexivity.
      * reflexivity.
Defined.

(** ** The summary of a template *)

Lemma templateEntry_fold name l : forall t,
  Path (fold_left (templateEntry name) l t) = Path t
  /\ configFields (fold_left (templateEntry name) l t) = configFields t
  /\ DockerCompose (fold_left (templateEntry name) l t) = DockerCompose t
  /\ RancherComposeText (fold_left (templateEntry name) l t) = RancherComposeText t
  /\ Questions (fold_left (templateEntry name) l t) = Questions t
  /\ IconLink (fold_left (templateEntry name) l t)
     = from_option (fun f => name +:+ "/" +:+ FName f) (IconLink t)
         (last (templateIconsOf l))
  /\ (forall v, VersionLinks (fold_left (templateEntry name) l t) !! v
                = if isVersionOf l v then Some (name +:+ "/" +:+ v)
                  else VersionLinks t !! v).
Proof.
  induction l as [|f l IH] using rev_ind; intros t; [done|].
  destruct (IH t) as (Hp & Hc & Hd & Hr & Hq & Hi & Hv).
  rewrite fold_left_app. cbn [fold_left].
  unfold templateIconsOf, isVersionOf in *. rewrite last_filter_snoc.
  remember (fold_left (templateEntry name) l t) as t1 eqn:Ht1. clear Ht1 IH.
  assert (forall v, existsb (fun f0 => IsDir f0 && (FName f0 =? v)%string) (l ++ [f])
                    = existsb (fun f0 => IsDir f0 && (FName f0 =? v)%string) l
                      || IsDir f && (FName f =? v)%string) as Hex.
  { intros v. rewrite existsb_app. cbn [existsb]. by rewrite orb_false_r. }
  unfold templateEntry.
  destruct (IsDir f) eqn:Hdir; cbn [negb andb] in *.
  - unfold configFields in *.
    cbn [Path Name Category Description DefaultVersion IconLink VersionLinks DockerCompose
         RancherComposeText Questions set_VersionLinks].
    split_and!; try done. intros v. rewrite Hex.
    destruct (String.eqb_spec (FName f) v) as [->|Hne].
    + by rewrite lookup_insert_eq, orb_true_r.
    + rewrite lookup_insert_ne by done. by rewrite orb_false_r, Hv.
  - destruct (HasPrefix (FName f) "catalogIcon"); unfold configFields in *;
      cbn [Path Name Category Description DefaultVersion IconLink VersionLinks DockerCompose
           RancherComposeText Questions set_IconLink from_option];
      (split_and!; try done); intros v; by rewrite Hex, orb_false_r, Hv.
Qed.

(** The callback on a directory whose path is that of a template
    directory: what it installs, and under which key. *)
Lemma walkCatalog_detail E path f err w :
  IsDir f = true ->
  metadataFolder_MatchString path = true ->
  exists t evs,
    walkCatalog E path (Some f) err w
    = (Ret None, emitAll evs (set_Catalog (<[FName f := t]> (Catalog w)) w))
    /\ forallb quietEvent evs = true
    /\ Path t = FName f
    /\ configFields t = applyConfigF (configOf E (tree w) path) noFields
    /\ (forall v, VersionLinks t !! v
                  = match FS.ReadDir (tree w) path with
                    | Some dirList =>
                        if isVersionOf dirList v then Some (FName f +:+ "/" +:+ v) else None
                    | None => None
                    end)
    /\ IconLink t
       = match FS.ReadDir (tree w) path with
         | Some dirList =>
             from_option (fun g => FName f +:+ "/" +:+ FName g) "" (last (templateIconsOf dirList))
         | None => ""
         end
    /\ DockerCompose t = "" /\ RancherComposeText t = "" /\ Questions t = [].
Proof.
  intros Hdir Hmatch. unfold walkCatalog, deref.
  unfold bind at 1. unfold ret at 1. rewrite Hdir, Hmatch. cbn [andb].
  unfold bind at 1. unfold bind at 1. unfold bind at 1.
  unfold logf at 1. unfold modify at 1.
  set (w1 := emit _ w).
  destruct (readTemplateConfig_spec E path (set_Path (FName f) emptyTemplate) w1)
    as (e1 & Hcfg & Hnone & Hsome).
  unfold bind at 1. rewrite Hcfg.
  unfold bind at 1. unfold bind at 1. unfold ioutil_ReadDir, gets.
  cbn [tree emitAll emit w1]. change (tree w1) with (tree w) in Hcfg, Hnone, Hsome.
  assert (forallb quietEvent e1 = true) as Hq1.
  { destruct (configOf E (tree w) path) eqn:Hc.
    - by rewrite Hsome.
    - by destruct (Hnone eq_refl) as [msg ->]. }
  set (t0 := set_VersionLinks ∅ (applyConfig (configOf E (tree w) path)
                                  (set_Path (FName f) emptyTemplate))).
  assert (configFields t0 = applyConfigF (configOf E (tree w) path) noFields) as Hf0.
  { unfold t0. by destruct (configOf E (tree w) path). }
  assert (Path t0 = FName f /\ IconLink t0 = "" /\ DockerCompose t0 = ""
          /\ RancherComposeText t0 = "" /\ Questions t0 = []
          /\ VersionLinks t0 = ∅) as (Hp & Hi & Hd & Hr & Hq & Hv).
  { unfold t0. by destruct (configOf E (tree w) path). }
  destruct (FS.ReadDir (tree w) path) as [dirList|].
  - destruct (templateEntry_fold (FName f) dirList t0) as (Hp' & Hc' & Hd' & Hr' & Hq' & Hi' & Hv').
    exists (fold_left (templateEntry (FName f)) dirList t0),
           (Log Debug ("Reading metadata folder for template:" +:+ FName f) :: e1).
    split.
    { unfold bind, ret, modify, emitAll, set_Catalog, emit, w1. cbn.
      by rewrite <- app_assoc. }
    rewrite Hp', Hc', Hd', Hr', Hq', Hi', Hp, Hi, Hd, Hr, Hq, Hf0.
    cbn [forallb quietEvent andb].
    split_and!; try done.
  - exists t0, (Log Debug ("Reading metadata folder for template:" +:+ FName f) :: e1
                ++ [Log Error ("Error reading directories at path: " +:+ FName f)]).
    split.
    { unfold bind, ret, logf, modify, emitAll, set_Catalog, emit, w1. cbn.
      by rewrite <- !app_assoc. }
    cbn [forallb quietEvent andb]. rewrite forallb_app, Hq1, Hv.
    by split_and!.
Qed.

(** X6. On a directory whose path is that of a template directory,
    [walkCatalog] installs under the name of the directory a summary with
    that name as its path, the fields of the config file if it decodes, a
    version link for each subdirectory and for nothing else, the last file
    whose name starts with catalogIcon as icon, and neither manifests nor
    questions.  When the directory cannot be listed the summary has no
    links and no icon. *)
Theorem walkCatalog_summary E path f err w :
  IsDir f = true ->
  metadataFolder_MatchString path = true ->
  exists t w',
    walkCatalog E path (Some f) err w = (Ret None, w')
    /\ Catalog w' = <[FName f := t]> (Catalog w)
    /\ Path t = FName f
    /\ configFields t = applyConfigF (configOf E (tree w) path) noFields
    /\ (forall v, VersionLinks t !! v
                  = match FS.ReadDir (tree w) path with
                    | Some dirList =>
                        if isVersionOf dirList v then Some (FName f +:+ "/" +:+ v) else None
                    | None => None
                    end)
    /\ IconLink t
       = match FS.ReadDir (tree w) path with
         | Some dirList =>
             match last (templateIconsOf dirList) with
             | Some g => FName f +:+ "/" +:+ FName g
             | None => ""
             end
         | None => ""
         end
    /\ DockerCompose t = "" /\ RancherComposeText t = "" /\ Questions t = [].
Proof.
  intros Hdir Hmatch.
  destruct (walkCatalog_detail E path f err w Hdir Hmatch)
    as (t & evs & Hrun & _ & Hp & Hc & Hv & Hi & Hd & Hr & Hq).
  exists t, (emitAll evs (set_Catalog (<[FName f := t]> (Catalog w)) w)).
  by split_and!.
Qed.

(** Witness of X6: the summary of template [t] of the example catalog. *)
Lemma walkCatalog_summary_witness :
  exists t w',
    walkCatalog Ex.E0 "DATA/templates/t" (Some (mkFileInfo "t" true)) None
      (Ex.boot (Some Ex.templates)) = (Ret None, w')
    /\ Catalog w' !! "t" = Some t
    /\ IconLink t = "t/catalogIcon-t.svg"
    /\ VersionLinks t !! "6" = Some "t/6"
    /\ VersionLinks t !! "config.yml" = None.
Proof.
  destruct (walkCatalog_summary Ex.E0 "DATA/templates/t" (mkFileInfo "t" true) None
              (Ex.boot (Some Ex.templates)))
    as (t & w' & Hrun & Hcat & _ & _ & Hv & Hi & _).
  - reflexivity.
  - reflexivity.
  - exists t, w'. split_and!; [exact Hrun | | | |].
    + rewrite Hcat. apply lookup_insert_eq.
    + rewrite Hi. reflexivity.
    + rewrite Hv. reflexivity.
    + rewrite Hv. reflexivity.
Defined.

(** ** What a rebuild does to the catalog *)

Section RespectsWalk.

Context (R : relation World) `{!PreOrder R}.
Variable walkFn : string -> option FileInfo -> option error -> M (option error).
Hypothesis walkFn_respects : forall path f err, respects R (walkFn path f err).

(** The walk does to the state what its callback does. *)
Lemma respects_walk n : forall path name, respects R (walk walkFn path name n).
Proof.
  induction n as [d | b es IH |] using node_ind'; intros path name w.
  - rewrite walk_File. revert w.
    apply respects_bind; [done | done |]. intros [e|]; by apply respects_ret.
  - destruct b.
    + rewrite walk_Dir_readable. revert w.
      apply respects_bind; [done | done |].
      intros [e|]; [destruct (isSkipDir e); by apply respects_ret|].
      induction es as [|[sub child] es IHes]; [by apply respects_ret|].
      apply Forall_cons in IH as [IHchild IH]. intros w. rewrite walkEntries_cons.
      revert w. cbn [snd] in *.
      apply respects_bind; [done | apply IHchild |].
      intros [e|]; [|by apply IHes].
      destruct (statable child && negb (isDirNode child) || negb (isSkipDir e));
        [by apply respects_ret | by apply IHes].
    + rewrite walk_Dir_unreadable. revert w.
      apply respects_bind; [done | done |].
      intros [e|]; [destruct (isSkipDir e); by apply respects_ret | done].
  - rewrite walk_NoStat. apply walkFn_respects.
Qed.

Lemma respects_Walk root : respects R (Walk walkFn root).
Proof.
  unfold Walk. apply respects_bind; [done | by apply respects_gets |].
  intros [n|]; [apply respects_walk | done].
Qed.

End RespectsWalk.

Global Instance installs_preorder : PreOrder installs.
Proof.
  split.
  - intros w k. by left.
  - intros w1 w2 w3 H12 H23 k.
    destruct (H23 k) as [H3 | H3]; [|by right].
    rewrite H3. apply H12.
Qed.

Global Instance onlyInstalls_preorder : PreOrder onlyInstalls.
Proof.
  split.
  - intros w. split_and!; [done | done | reflexivity |].
    exists []. by rewrite app_nil_r.
  - intros w1 w2 w3 (Ht1 & Hc1 & Hi1 & e1 & He1 & Hq1) (Ht2 & Hc2 & Hi2 & e2 & He2 & Hq2).
    split_and!; [congruence | congruence | by etrans |].
    exists (e1 ++ e2). by rewrite He2, He1, app_assoc, forallb_app, Hq1, Hq2.
Qed.

Lemma installs_keyedByPath w w' :
  installs w w' -> keyedByPath (Catalog w) -> keyedByPath (Catalog w').
Proof.
  intros Hi Hk k t Ht. destruct (Hi k) as [Heq | (t' & Ht' & Hp)].
  - apply Hk. by rewrite <- Heq.
  - congruence.
Qed.

Lemma installs_keeps_keys w w' k :
  installs w w' -> is_Some (Catalog w !! k) -> is_Some (Catalog w' !! k).
Proof.
  intros Hi Hk. destruct (Hi k) as [Heq | (t' & Ht' & _)]; [by rewrite Heq | by eexists].
Qed.

Lemma installs_same_catalog w w' : Catalog w' = Catalog w -> installs w w'.
Proof. intros H k. left. by rewrite H. Qed.

Section RebuildFrame.

Variable E : Env.

Lemma onlyInstalls_walkCatalog path f err : respects onlyInstalls (walkCatalog E path f err).
Proof.
  intros w. destruct f as [f|]; [|reflexivity].
  destruct (IsDir f && metadataFolder_MatchString path) eqn:Hcase.
  - apply andb_true_iff in Hcase as [Hdir Hmatch].
    destruct (walkCatalog_detail E path f err w Hdir Hmatch) as (t & evs & -> & Hq & Hp & _).
    cbn [snd]. split_and!; [done | done | | by exists evs].
    intros k. cbn [Catalog emitAll set_Catalog].
    destruct (decide (FName f = k)) as [<-|Hne].
    + right. exists t. by rewrite lookup_insert_eq.
    + left. by rewrite lookup_insert_ne.
  - rewrite walkCatalog_skip by done. reflexivity.
Qed.

Lemma onlyInstalls_Walk : respects onlyInstalls (Walk (walkCatalog E) catalogRoot).
Proof. apply respects_Walk; [apply _ | apply onlyInstalls_walkCatalog]. Qed.

Lemma installs_pullCatalog : respects installs (pullCatalog E).
Proof. intros w. destruct (pullCatalog_spec E w) as (evs & ->). by apply installs_same_catalog. Qed.

Lemma installs_Walk : respects installs (Walk (walkCatalog E) catalogRoot).
Proof. intros w. apply onlyInstalls_Walk. Qed.

Lemma installs_RefreshCatalog : respects installs (RefreshCatalog E).
Proof.
  unfold RefreshCatalog.
  apply respects_bind; [apply _ | |].
  { intros w. apply installs_same_catalog. unfold trySend.
    by destruct (length (refreshReqChannel w) <? 1)%nat. }
  intros [|].
  - apply respects_bind; [apply _ | apply installs_pullCatalog |]. intros _.
    apply respects_bind; [apply _ | apply installs_Walk |]. intros _.
    apply respects_bind; [apply _ | | intros z; apply respects_ret; apply _].
    intros w. apply installs_same_catalog. unfold receive.
    by destruct (refreshReqChannel w).
  - intros w. by apply installs_same_catalog.
Qed.

End RebuildFrame.

(** X7. A rebuild, however it ends and whatever the tree holds, leaves
    the tree and the gate alone, runs no command and logs at error or
    debug level only; it does nothing to the catalog but install entries
    under the key that is their path, so that no key is ever removed. *)
Theorem rebuild_only_installs E w :
  tree (snd (Walk (walkCatalog E) catalogRoot w)) = tree w
  /\ refreshReqChannel (snd (Walk (walkCatalog E) catalogRoot w)) = refreshReqChannel w
  /\ (forall k, Catalog (snd (Walk (walkCatalog E) catalogRoot w)) !! k = Catalog w !! k
                \/ exists t, Catalog (snd (Walk (walkCatalog E) catalogRoot w)) !! k = Some t
                             /\ Path t = k)
  /\ (forall k, is_Some (Catalog w !! k) ->
                is_Some (Catalog (snd (Walk (walkCatalog E) catalogRoot w)) !! k))
  /\ exists evs,
       events (snd (Walk (walkCatalog E) catalogRoot w)) = events w ++ evs
       /\ forallb quietEvent evs = true.
Proof.
  destruct (onlyInstalls_Walk E w) as (Ht & Hc & Hi & He).
  split_and!; try done.
  intros k. by apply installs_keeps_keys.
Qed.

(** X8. Every entry of the catalog sits under the key that is its path:
    [Init] establishes this whenever it does not end the process, and
    [RefreshCatalog] keeps it, however it ends; a refresh never removes a
    key either. *)
Theorem catalog_keyed_by_path E w :
  (fst (Init E w) <> Exit -> keyedByPath (Catalog (snd (Init E w))))
  /\ (keyedByPath (Catalog w) -> keyedByPath (Catalog (snd (RefreshCatalog E w))))
  /\ (forall k, is_Some (Catalog w !! k) ->
                is_Some (Catalog (snd (RefreshCatalog E w)) !! k)).
Proof.
  split_and!.
  - set (rest := fun _ : unit =>
                   bind (modify (set_Catalog ∅))
                     (fun _ => bind (Walk (walkCatalog E) catalogRoot)
                                 (fun _ => startCatalogBackgroundPoll E))).
    assert (forall w1, keyedByPath (Catalog (snd (rest tt w1)))) as Hrest.
    { intros w1. unfold rest. unfold bind at 1. unfold modify at 1.
      pose proof (installs_Walk E (set_Catalog ∅ w1)) as Hi.
      apply installs_keyedByPath in Hi; [|by intros k t Hk].
      unfold bind, startCatalogBackgroundPoll.
      destruct (Walk (walkCatalog E) catalogRoot (set_Catalog ∅ w1)) as [[r| | |] w2];
        [|done..].
      by destruct (0 <? tickerPeriod E)%Z. }
    change (Init E w)
      with (bind (match FS.Stat (tree w) catalogRoot with
                  | Some _ => pullCatalog E
                  | None => cloneCatalog E
                  end) rest w).
    unfold bind.
    destruct (FS.Stat (tree w) catalogRoot) as [n|].
    + destruct (pullCatalog_spec E w) as (evs & ->). intros _. apply Hrest.
    + unfold cloneCatalog, bind, logf, modify, logFatal, ret.
      destruct (snd (git_clone E (tree (emit _ w)))); [intros _; apply Hrest | done].
  - apply installs_keyedByPath, installs_RefreshCatalog.
  - intros k. apply installs_keeps_keys, installs_RefreshCatalog.
Qed.

(** Witness of X8: the catalog of the example service, after [Init] and
    after a refresh. *)
Lemma catalog_keyed_by_path_witness :
  keyedByPath (Catalog (snd (RefreshCatalog Ex.E0 (Ex.serving Ex.E0)))).
Proof.
  apply (proj1 (proj2 (catalog_keyed_by_path Ex.E0 (Ex.serving Ex.E0)))).
  apply (proj1 (catalog_keyed_by_path Ex.E0 (Ex.boot (Some Ex.templates)))).
  vm_compute. discriminate.
Defined.

(** ** How a rebuild and a refresh end *)

Section Outcomes.

Variable E : Env.

Lemma walkCatalog_returns path f err w :
  exists w', walkCatalog E path (Some f) err w = (Ret None, w').
Proof.
  destruct (IsDir f && metadataFolder_MatchString path) eqn:Hcase.
  - apply andb_true_iff in Hcase as [Hdir Hmatch].
    destruct (walkCatalog_detail E path f err w Hdir Hmatch) as (t & evs & -> & _).
    by eexists.
  - rewrite walkCatalog_skip by done. by eexists.
Qed.

(** What the names in the tree are does not matter to how the walk
    ends: it returns when [os.Lstat] succeeds on every entry it comes to
    and panics when it comes to one on which it fails. *)
Lemma walk_outcome n : forall path name w,
  fst (walk (walkCatalog E) path name n w) = if walkable n then Ret None else Panic.
Proof.
  induction n as [d | b es IH |] using node_ind'; intros path name w.
  - rewrite walk_File. unfold bind.
    by destruct (walkCatalog_returns path (mkFileInfo name false) None w) as (w' & ->).
  - destruct b.
    + rewrite walk_Dir_readable. unfold bind at 1.
      destruct (walkCatalog_returns path (mkFileInfo name true) None w) as (w1 & ->).
      clear w. revert w1. cbn [walkable].
      induction es as [|[sub child] es IHes]; intros w; [done|].
      apply Forall_cons in IH as [IHchild IH]. rewrite walkEntries_cons.
      cbn [forallb snd] in *. unfold bind.
      specialize (IHchild (Filepath.Join path sub) sub w).
      destruct (walk (walkCatalog E) (Filepath.Join path sub) sub child w) as [o w1].
      cbn [fst] in IHchild. subst o.
      destruct (walkable child); [by apply IHes | done].
    + rewrite walk_Dir_unreadable. unfold bind.
      destruct (walkCatalog_returns path (mkFileInfo name true) None w) as (w1 & ->).
      by destruct (walkCatalog_returns path (mkFileInfo name true) (Some ErrReadDir) w1)
        as (w2 & ->).
  - reflexivity.
Qed.

Lemma Walk_outcome w :
  fst (Walk (walkCatalog E) catalogRoot w)
  = if walkableTree (tree w) then Ret None else Panic.
Proof.
  unfold Walk, bind, gets, walkableTree.
  destruct (tree w); [apply walk_outcome | reflexivity].
Qed.

(** A refresh that finds the gate free: after the send and the pull it
    walks, and it comes to the receive when the walk has returned. *)
Lemma RefreshCatalog_free w :
  refreshReqChannel w = [] ->
  exists w3,
    snd (Walk (walkCatalog E) catalogRoot
           (emitAll (pullEvents E (snd (git_pull E (tree w))))
              (set_tree (fst (git_pull E (tree w))) (set_refreshReqChannel [1%Z] w))))
    = w3
    /\ refreshReqChannel w3 = [1%Z]
    /\ RefreshCatalog E w
       = if walkableTree (fst (git_pull E (tree w)))
         then (Ret tt, set_refreshReqChannel [] w3)
         else (Panic, w3).
Proof.
  intros Hfree.
  set (w2 := emitAll (pullEvents E (snd (git_pull E (tree w))))
               (set_tree (fst (git_pull E (tree w))) (set_refreshReqChannel [1%Z] w))).
  assert (RefreshCatalog E w
          = bind (Walk (walkCatalog E) catalogRoot)
              (fun _ => bind receive (fun _ => ret tt)) w2) as ->.
  { unfold RefreshCatalog, trySend.
    unfold bind at 1. rewrite Hfree. cbn [length Nat.ltb Nat.leb app].
    unfold bind at 1. by rewrite pullCatalog_events. }
  pose proof (Walk_outcome w2) as Hwalk.
  assert (refreshReqChannel (snd (Walk (walkCatalog E) catalogRoot w2))
          = refreshReqChannel w2) as Hgate by apply (keepsGate_Walk E w2).
  change (tree w2) with (fst (git_pull E (tree w))) in Hwalk.
  change (refreshReqChannel w2) with [1%Z] in Hgate.
  eexists. split; [reflexivity|]. split; [exact Hgate|].
  unfold bind at 1.
  destruct (Walk (walkCatalog E) catalogRoot w2) as [o w3]. cbn [fst snd] in *. subst o.
  destruct (walkableTree (fst (git_pull E (tree w)))); [|done].
  unfold bind, receive, ret. by rewrite Hgate.
Qed.

Lemma pulls_app e1 e2 : pulls (e1 ++ e2) = (pulls e1 + pulls e2)%nat.
Proof. unfold pulls. by rewrite List.filter_app, length_app. Qed.

Lemma skips_app e1 e2 : skips (e1 ++ e2) = (skips e1 + skips e2)%nat.
Proof. unfold skips. by rewrite List.filter_app, length_app. Qed.

Lemma quiet_counts evs :
  forallb quietEvent evs = true -> pulls evs = 0%nat /\ skips evs = 0%nat.
Proof.
  induction evs as [|e evs IH]; [done|]. cbn [forallb].
  intros [He Hevs]%andb_true_iff. destruct (IH Hevs) as [Hp Hs].
  change (e :: evs) with ([e] ++ evs). rewrite pulls_app, skips_app, Hp, Hs.
  by destruct e as [[] msg | argv].
Qed.

Lemma pullEvents_counts ok :
  pulls (pullEvents E ok) = 1%nat /\ skips (pullEvents E ok) = 0%nat.
Proof. by destruct ok. Qed.

(** One refresh through a free gate that returns. *)
Lemma RefreshCatalog_tick w :
  refreshReqChannel w = [] ->
  walkableTree (fst (git_pull E (tree w))) = true ->
  exists w' evs,
    RefreshCatalog E w = (Ret tt, w')
    /\ refreshReqChannel w' = []
    /\ tree w' = fst (git_pull E (tree w))
    /\ events w' = events w ++ evs
    /\ pulls evs = 1%nat /\ skips evs = 0%nat.
Proof.
  intros Hfree Hok. destruct (RefreshCatalog_free w Hfree) as (w3 & Hw3 & _ & Hrun).
  rewrite Hok in Hrun.
  pose proof (onlyInstalls_Walk E
                (emitAll (pullEvents E (snd (git_pull E (tree w))))
                   (set_tree (fst (git_pull E (tree w)))
                      (set_refreshReqChannel [1%Z] w)))) as Hframe.
  rewrite Hw3 in Hframe. destruct Hframe as (Ht & _ & _ & e2 & He & Hq).
  destruct (quiet_counts e2 Hq) as [Hp2 Hs2].
  destruct (pullEvents_counts (snd (git_pull E (tree w)))) as [Hp1 Hs1].
  exists (set_refreshReqChannel [] w3), (pullEvents E (snd (git_pull E (tree w))) ++ e2).
  rewrite pulls_app, skips_app, Hp1, Hp2, Hs1, Hs2.
  split_and!; [done | done | | | done | done].
  - cbn [tree set_refreshReqChannel]. by rewrite Ht.
  - cbn [events set_refreshReqChannel]. rewrite He. cbn [events emitAll].
    by rewrite app_assoc.
Qed.

(** The background goroutine while the gate stays held: every tick
    skips. *)
Lemma backgroundPoll_held n : forall w,
  refreshReqChannel w <> [] ->
  exists evs,
    backgroundPoll E n w = (Ret tt, emitAll evs w)
    /\ pulls evs = 0%nat /\ skips evs = n.
Proof.
  induction n as [|n IH]; intros w Hheld.
  - exists []. by rewrite emitAll_nil.
  - cbn [backgroundPoll]. unfold bind at 1. unfold logf at 1, modify at 1.
    unfold bind at 1. rewrite RefreshCatalog_skipped by done.
    set (w1 := emit _ (emit _ w)).
    destruct (IH w1 Hheld) as (evs & Hrun & Hp & Hs).
    rewrite Hrun.
    exists ([Log Info "Running background Catalog Refresh Thread at time";
             Log Info Gate.skipMessage] ++ evs).
    rewrite pulls_app, skips_app, Hp, Hs. split_and!; [|done|done].
    f_equal. unfold w1, emitAll, emit. cbn. by rewrite <- !app_assoc.
Qed.

End Outcomes.

(** ** A refresh that panics keeps the gate *)

(** A refresh that finds the gate free makes one pull, however it
    ends. *)
Lemma RefreshCatalog_pulls_once E w :
  refreshReqChannel w = [] ->
  exists evs,
    events (snd (RefreshCatalog E w)) = events w ++ evs
    /\ pulls evs = 1%nat /\ skips evs = 0%nat.
Proof.
  intros Hfree. destruct (RefreshCatalog_free E w Hfree) as (w3 & Hw3 & _ & Hrun).
  pose proof (onlyInstalls_Walk E
                (emitAll (pullEvents E (snd (git_pull E (tree w))))
                   (set_tree (fst (git_pull E (tree w)))
                      (set_refreshReqChannel [1%Z] w)))) as Hframe.
  rewrite Hw3 in Hframe. destruct Hframe as (_ & _ & _ & e2 & He & Hq).
  destruct (quiet_counts e2 Hq) as [Hp2 Hs2].
  destruct (pullEvents_counts E (snd (git_pull E (tree w)))) as [Hp1 Hs1].
  exists (pullEvents E (snd (git_pull E (tree w))) ++ e2).
  rewrite pulls_app, skips_app, Hp1, Hp2, Hs1, Hs2. split_and!; [|done|done].
  rewrite Hrun. cbn [events emitAll] in He.
  destruct (walkableTree (fst (git_pull E (tree w)))); cbn [snd events set_refreshReqChannel];
    by rewrite He, app_assoc.
Qed.

(** C6, where the code departs from it.  A refresh that finds the gate
    free sends on the channel, pulls and walks.  When the walk comes to
    an entry on which [os.Lstat] fails (the root of the catalog that has
    gone, or an entry of a directory that may be read but not searched),
    [walkCatalog] is called without an [os.FileInfo] and panics: the
    refresh ends there, after its one pull and before the receive, and
    nothing takes the value out of the channel (there is no deferred
    receive).  In a process that outlives the panic (net/http recovers
    the panic of a handler) the gate is from then on held with no refresh
    in flight: every later call of [RefreshCatalog] logs that it skips
    and returns, and so does every tick of the background goroutine,
    without a pull. *)
Theorem refresh_panic_leaves_gate_held E w :
  refreshReqChannel w = [] ->
  walkableTree (fst (git_pull E (tree w))) = false ->
  fst (RefreshCatalog E w) = Panic
  /\ refreshReqChannel (snd (RefreshCatalog E w)) = [1%Z]
  /\ (exists evs,
        events (snd (RefreshCatalog E w)) = events w ++ evs
        /\ pulls evs = 1%nat /\ skips evs = 0%nat)
  /\ (forall w2,
        refreshReqChannel w2 = refreshReqChannel (snd (RefreshCatalog E w)) ->
        RefreshCatalog E w2 = (Ret tt, emit (Log Info Gate.skipMessage) w2))
  /\ (forall n, exists evs,
        backgroundPoll E n (snd (RefreshCatalog E w))
        = (Ret tt, emitAll evs (snd (RefreshCatalog E w)))
        /\ pulls evs = 0%nat /\ skips evs = n).
Proof.
  intros Hfree Hbad.
  pose proof (RefreshCatalog_pulls_once E w Hfree) as Hpull.
  destruct (RefreshCatalog_free E w Hfree) as (w3 & _ & Hgate & Hrun).
  rewrite Hbad in Hrun. rewrite Hrun in *. cbn [fst snd].
  split_and!; [done | done | done | |].
  - intros w2 Hw2. apply RefreshCatalog_skipped. by rewrite Hw2, Hgate.
  - intros n. apply backgroundPoll_held. by rewrite Hgate.
Qed.

(** Witness of C6: the pull has brought a template directory [t] whose
    entries cannot be looked at; the refresh panics and leaves the value
    in the channel, and the next refresh skips.  The same happens when
    the pull has left no checkout at all. *)
Lemma refresh_panic_leaves_gate_held_witness :
  let E := Ex.env Ex.ascending Ex.pullLocked in
  let w1 := snd (RefreshCatalog E (Ex.serving Ex.E0)) in
  (fst (RefreshCatalog E (Ex.serving Ex.E0)) = Panic
   /\ refreshReqChannel w1 = [1%Z]
   /\ RefreshCatalog E w1 = (Ret tt, emit (Log Info Gate.skipMessage) w1))
  /\ fst (RefreshCatalog (Ex.env Ex.ascending Ex.pullGone) (Ex.serving Ex.E0)) = Panic.
Proof.
  cbv zeta. split.
  - destruct (refresh_panic_leaves_gate_held (Ex.env Ex.ascending Ex.pullLocked)
                (Ex.serving Ex.E0) eq_refl eq_refl) as (Hpanic & Hgate & _ & Hnext & _).
    split_and!; [exact Hpanic | exact Hgate | by apply Hnext].
  - apply (refresh_panic_leaves_gate_held (Ex.env Ex.ascending Ex.pullGone)
             (Ex.serving Ex.E0) eq_refl eq_refl).
Defined.

(** ** Refreshing again, starting, ticking *)

Lemma rebuilt_idem E T c : rebuilt E T (rebuilt E T c) = rebuilt E T c.
Proof.
  apply map_eq. intros k. rewrite !rebuilt_lookup.
  by destruct (bool_decide (k ∈ discovered T)).
Qed.

(** X9. Refreshing again when upstream has nothing new changes nothing:
    after a refresh through a free gate, a second refresh whose pull
    leaves the tree as it is returns with the same catalog. *)
Theorem refresh_idempotent E w :
  refreshReqChannel w = [] ->
  validTree (fst (git_pull E (tree w))) = true ->
  fst (git_pull E (fst (git_pull E (tree w)))) = fst (git_pull E (tree w)) ->
  fst (RefreshCatalog E (snd (RefreshCatalog E w))) = Ret tt
  /\ Catalog (snd (RefreshCatalog E (snd (RefreshCatalog E w))))
     = Catalog (snd (RefreshCatalog E w)).
Proof.
  intros Hfree Hvalid Hsame.
  destruct (walkableTree (fst (git_pull E (tree w)))) eqn:Hwalk.
  - destruct (RefreshCatalog_acquired E w Hfree Hvalid Hwalk) as (e1 & ->). cbn [snd].
    set (w1 := emitAll e1 _).
    assert (refreshReqChannel w1 = []) as Hfree1 by exact Hfree.
    assert (tree w1 = fst (git_pull E (tree w))) as Htree1 by reflexivity.
    assert (validTree (fst (git_pull E (tree w1))) = true) as Hvalid1
      by by rewrite Htree1, Hsame.
    assert (walkableTree (fst (git_pull E (tree w1))) = true) as Hwalk1
      by by rewrite Htree1, Hsame.
    destruct (RefreshCatalog_acquired E w1 Hfree1 Hvalid1 Hwalk1) as (e2 & ->).
    split; [done|]. cbn [snd Catalog emitAll set_Catalog].
    rewrite Htree1, Hsame. unfold w1. cbn [Catalog emitAll set_Catalog].
    apply rebuilt_idem.
  - destruct (RefreshCatalog_free E w Hfree) as (w3 & _ & Hgate & Hrun).
    rewrite Hwalk in Hrun. rewrite Hrun. cbn [snd].
    rewrite RefreshCatalog_skipped by by rewrite Hgate. done.
Qed.

(** Witness of X9: the example service, upstream unchanged. *)
Lemma refresh_idempotent_witness :
  Catalog (snd (RefreshCatalog Ex.E0 (snd (RefreshCatalog Ex.E0 (Ex.serving Ex.E0)))))
  = Catalog (snd (RefreshCatalog Ex.E0 (Ex.serving Ex.E0))).
Proof.
  apply (refresh_idempotent Ex.E0 (Ex.serving Ex.E0)); reflexivity.
Defined.

(** X10. How a refresh through a free gate ends, whatever names and
    contents the pulled tree has: it makes one pull and walks the tree
    the pull has left; it returns, with the gate free again, when
    [os.Lstat] succeeds on the root and on every entry the walk comes to,
    and it panics, with the gate still held, when it does not. *)
Theorem refresh_gate_outcome E w :
  refreshReqChannel w = [] ->
  fst (RefreshCatalog E w)
  = (if walkableTree (fst (git_pull E (tree w))) then Ret tt else Panic)
  /\ refreshReqChannel (snd (RefreshCatalog E w))
     = (if walkableTree (fst (git_pull E (tree w))) then [] else [1%Z])
  /\ tree (snd (RefreshCatalog E w)) = fst (git_pull E (tree w))
  /\ exists evs,
       events (snd (RefreshCatalog E w)) = events w ++ evs
       /\ pulls evs = 1%nat /\ skips evs = 0%nat.
Proof.
  intros Hfree.
  pose proof (RefreshCatalog_pulls_once E w Hfree) as Hpull.
  destruct (RefreshCatalog_free E w Hfree) as (w3 & Hw3 & Hgate & Hrun).
  pose proof (onlyInstalls_Walk E
                (emitAll (pullEvents E (snd (git_pull E (tree w))))
                   (set_tree (fst (git_pull E (tree w)))
                      (set_refreshReqChannel [1%Z] w)))) as (Htree & _).
  rewrite Hw3 in Htree. cbn [tree emitAll set_tree] in Htree.
  rewrite Hrun in *.
  destruct (walkableTree (fst (git_pull E (tree w)))); cbn [fst snd] in *; by split_and!.
Qed.

(** Witness of X10: the example service, with upstream unchanged, with a
    directory whose entries cannot be looked at, and with no checkout. *)
Lemma refresh_gate_outcome_witness :
  (fst (RefreshCatalog Ex.E0 (Ex.serving Ex.E0)) = Ret tt
   /\ refreshReqChannel (snd (RefreshCatalog Ex.E0 (Ex.serving Ex.E0))) = [])
  /\ (fst (RefreshCatalog (Ex.env Ex.ascending Ex.pullLocked) (Ex.serving Ex.E0)) = Panic
      /\ refreshReqChannel
           (snd (RefreshCatalog (Ex.env Ex.ascending Ex.pullLocked) (Ex.serving Ex.E0)))
         = [1%Z]).
Proof.
  pose proof (refresh_gate_outcome Ex.E0 (Ex.serving Ex.E0) eq_refl) as (H1 & H2 & _).
  pose proof (refresh_gate_outcome (Ex.env Ex.ascending Ex.pullLocked)
                (Ex.serving Ex.E0) eq_refl) as (H3 & H4 & _).
  split; split; [exact H1 | exact H2 | exact H3 | exact H4].
Defined.

(** X11. How [Init] ends.  It never touches the gate.  When [os.Stat]
    fails on the root of the catalog and the clone fails, it ends the
    process at once: nothing but the clone has been logged and run, the
    catalog has not been made and the tree has not been walked.
    Otherwise it walks the tree the synchronisation has left and then
    starts the ticker: it returns when [os.Lstat] succeeds on the root
    and on every entry the walk comes to and the period of the ticker is
    positive; it panics when the walk comes to an entry on which
    [os.Lstat] fails, and it panics in [time.NewTicker], after the walk,
    when the period is not positive. *)
Theorem Init_outcome E w :
  refreshReqChannel (snd (Init E w)) = refreshReqChannel w
  /\ (FS.Stat (tree w) catalogRoot = None ->
      snd (git_clone E (tree w)) = false ->
      Init E w
      = (Exit,
         emitAll [Log Info ("Cloning the catalog from github url " +:+ catalogUrl E);
                  Exec ["git"; "clone"; catalogUrl E; "./DATA"];
                  Log Fatal "Failed to clone the catalog from github"]
           (set_tree (fst (git_clone E (tree w))) w)))
  /\ ((FS.Stat (tree w) catalogRoot = None -> snd (git_clone E (tree w)) = true) ->
      fst (Init E w)
      = if walkableTree (fst (afterSync E w)) && (0 <? tickerPeriod E)%Z
        then Ret tt else Panic).
Proof.
  set (rest := fun _ : unit =>
                 bind (modify (set_Catalog ∅))
                   (fun _ => bind (Walk (walkCatalog E) catalogRoot)
                               (fun _ => startCatalogBackgroundPoll E))).
  assert (Init E w
          = bind (match FS.Stat (tree w) catalogRoot with
                  | Some _ => pullCatalog E
                  | None => cloneCatalog E
                  end) rest w) as Hshape by reflexivity.
  assert (forall w1,
            refreshReqChannel (snd (rest tt w1)) = refreshReqChannel w1
            /\ fst (rest tt w1)
               = if walkableTree (tree w1) && (0 <? tickerPeriod E)%Z
                 then Ret tt else Panic) as Hrest.
  { intros w1.
    assert (rest tt w1
            = bind (Walk (walkCatalog E) catalogRoot)
                (fun _ => startCatalogBackgroundPoll E) (set_Catalog ∅ w1))
      as -> by reflexivity.
    assert (refreshReqChannel (snd (Walk (walkCatalog E) catalogRoot (set_Catalog ∅ w1)))
            = refreshReqChannel w1) as Hgate
      by apply (keepsGate_Walk E (set_Catalog ∅ w1)).
    pose proof (Walk_outcome E (set_Catalog ∅ w1)) as Hout.
    change (tree (set_Catalog ∅ w1)) with (tree w1) in Hout.
    unfold bind, startCatalogBackgroundPoll.
    destruct (Walk (walkCatalog E) catalogRoot (set_Catalog ∅ w1)) as [o w2].
    cbn [fst snd] in *. subst o.
    destruct (walkableTree (tree w1)); cbn [andb]; [|done].
    by destruct (0 <? tickerPeriod E)%Z. }
  rewrite Hshape. unfold afterSync.
  destruct (FS.Stat (tree w) catalogRoot) as [n|] eqn:Hstat.
  - unfold bind. rewrite pullCatalog_events.
    set (w1 := emitAll _ _). destruct (Hrest w1) as [Hgate Hout].
    split_and!; [by rewrite Hgate | done |].
    intros _. exact Hout.
  - unfold bind, cloneCatalog, bind, logf, modify, logFatal, ret.
    cbn [tree emit].
    destruct (git_clone E (tree w)) as [T ok]. cbn [fst snd].
    destruct ok.
    + set (w1 := set_tree _ _). destruct (Hrest w1) as [Hgate Hout].
      split_and!; [by rewrite Hgate | done |].
      intros _. exact Hout.
    + split_and!; [done | | by intros H; discriminate (H eq_refl)].
      intros _ _. f_equal. unfold emitAll, set_tree, emit. cbn.
      by rewrite <- !app_assoc.
Qed.

(** Witness of X11: no checkout and a clone that fails; the example
    catalog; the example catalog with a refresh interval of zero. *)
Lemma Init_outcome_witness :
  fst (Init (mkEnv "u" 60 Ex.decodeConfig Ex.decodeSections Ex.ascending
               Ex.pullGone Ex.upToDate) (Ex.boot None)) = Exit
  /\ fst (Init Ex.E0 (Ex.boot (Some Ex.templates))) = Ret tt
  /\ fst (Init (mkEnv "u" 0 Ex.decodeConfig Ex.decodeSections Ex.ascending
                  Ex.upToDate Ex.upToDate) (Ex.boot (Some Ex.templates))) = Panic.
Proof.
  pose proof (Init_outcome
                (mkEnv "u" 60 Ex.decodeConfig Ex.decodeSections Ex.ascending
                   Ex.pullGone Ex.upToDate) (Ex.boot None))
    as (_ & Hexit & _).
  pose proof (Init_outcome Ex.E0 (Ex.boot (Some Ex.templates))) as (_ & _ & Hret).
  pose proof (Init_outcome
                (mkEnv "u" 0 Ex.decodeConfig Ex.decodeSections Ex.ascending
                   Ex.upToDate Ex.upToDate) (Ex.boot (Some Ex.templates)))
    as (_ & _ & Hpanic).
  split_and!.
  - by rewrite (Hexit eq_refl eq_refl).
  - apply Hret. discriminate.
  - apply Hpanic. discriminate.
Defined.

(** X12. A pull that fails is reported at error level and is otherwise
    survived.  When it leaves a tree in which [os.Lstat] succeeds on
    every entry the walk comes to, [RefreshCatalog] through a free gate
    goes on to rebuild from that tree, frees the gate and returns; so
    does [Init] on an existing checkout, which returns when the period of
    the ticker is positive. *)
Theorem failed_pull_is_survived E w :
  snd (git_pull E (tree w)) = false ->
  validTree (fst (git_pull E (tree w))) = true ->
  walkableTree (fst (git_pull E (tree w))) = true ->
  (refreshReqChannel w = [] ->
   exists w' evs,
     RefreshCatalog E w = (Ret tt, w')
     /\ Catalog w' = rebuilt E (fst (git_pull E (tree w))) (Catalog w)
     /\ refreshReqChannel w' = []
     /\ events w' = events w ++ evs
     /\ Log Error ("Failed to pull the catalog from github repo " +:+ catalogUrl E) ∈ evs)
  /\ (FS.Stat (tree w) catalogRoot <> None ->
      (0 < tickerPeriod E)%Z ->
      exists w' evs,
        Init E w = (Ret tt, w')
        /\ Catalog w' = rebuilt E (fst (git_pull E (tree w))) ∅
        /\ events w' = events w ++ evs
        /\ Log Error ("Failed to pull the catalog from github repo " +:+ catalogUrl E) ∈ evs).
Proof.
  intros Hfail Hvalid Hwalk.
  assert (Log Error ("Failed to pull the catalog from github repo " +:+ catalogUrl E)
          ∈ pullEvents E (snd (git_pull E (tree w)))) as Hlog.
  { rewrite Hfail. unfold pullEvents. apply elem_of_app. right.
    by apply list_elem_of_singleton. }
  split.
  - intros Hfree.
    destruct (RefreshCatalog_spec E w Hfree (validTree_wellNamed _ Hvalid)) as (evs & Hrun & _).
    rewrite Hwalk in Hrun. rewrite Hrun.
    eexists _, (pullEvents E (snd (git_pull E (tree w))) ++ evs).
    split_and!; [reflexivity | reflexivity | reflexivity | reflexivity |].
    apply elem_of_app. by left.
  - intros Hstat Hperiod. unfold Init. unfold bind at 1. unfold gets at 1.
    destruct (FS.Stat (tree w) catalogRoot) as [n|]; [|done].
    unfold bind at 1. rewrite pullCatalog_events.
    unfold bind at 1. unfold modify at 1.
    set (w1 := set_Catalog ∅ _).
    assert (wellNamed (tree w1) = true) as Hvalid1 by exact (validTree_wellNamed _ Hvalid).
    destruct (Walk_spec E w1 Hvalid1) as (e2 & Hrun & _).
    change (tree w1) with (fst (git_pull E (tree w))) in Hrun. rewrite Hwalk in Hrun.
    unfold bind at 1. rewrite Hrun. unfold startCatalogBackgroundPoll.
    apply Z.ltb_lt in Hperiod. rewrite Hperiod. unfold ret.
    eexists _, (pullEvents E (snd (git_pull E (tree w))) ++ e2).
    split_and!; [reflexivity | reflexivity | |].
    + unfold w1. cbn [events emitAll set_Catalog set_refreshReqChannel set_tree].
      by rewrite app_assoc.
    + apply elem_of_app. by left.
Qed.

(** Witness of X12: the pull of the example service fails and leaves the
    tree as it is. *)
Lemma failed_pull_is_survived_witness :
  fst (RefreshCatalog (Ex.env Ex.ascending Ex.pullFails) (Ex.serving Ex.E0)) = Ret tt
  /\ fst (Init (Ex.env Ex.ascending Ex.pullFails) (Ex.boot (Some Ex.templates))) = Ret tt.
Proof.
  split.
  - destruct (failed_pull_is_survived (Ex.env Ex.ascending Ex.pullFails)
                (Ex.serving Ex.E0) eq_refl eq_refl eq_refl) as [Hrefresh _].
    destruct (Hrefresh eq_refl) as (w' & evs & -> & _).
    reflexivity.
  - destruct (failed_pull_is_survived (Ex.env Ex.ascending Ex.pullFails)
                (Ex.boot (Some Ex.templates)) eq_refl eq_refl eq_refl) as [_ Hinit].
    destruct Hinit as (w' & evs & -> & _); [discriminate | reflexivity | reflexivity].
Defined.

(** X13. The background goroutine on its own: when no pull leaves a tree
    in which the walk comes to an entry on which [os.Lstat] fails, every
    tick finds the gate free, pulls once, rebuilds and frees the gate, so
    that [n] ticks make [n] pulls and skip nothing. *)
Theorem backgroundPoll_ticks E n : forall w,
  keepsWalkable E ->
  walkableTree (tree w) = true ->
  refreshReqChannel w = [] ->
  exists w' evs,
    backgroundPoll E n w = (Ret tt, w')
    /\ events w' = events w ++ evs
    /\ pulls evs = n /\ skips evs = 0%nat
    /\ refreshReqChannel w' = []
    /\ walkableTree (tree w') = true.
Proof.
  intros w Hkeeps. revert w.
  induction n as [|n IH]; intros w Htree Hfree.
  - exists w, []. rewrite app_nil_r. by split_and!.
  - cbn [backgroundPoll]. unfold bind at 1. unfold logf at 1, modify at 1.
    set (w0 := emit _ w).
    destruct (RefreshCatalog_tick E w0 Hfree (Hkeeps _ Htree))
      as (w1 & e1 & Hrun & Hfree1 & Htree1 & He1 & Hp1 & Hs1).
    unfold bind at 1. rewrite Hrun.
    assert (walkableTree (tree w1) = true) as Hok1 by (rewrite Htree1; by apply Hkeeps).
    destruct (IH w1 Hok1 Hfree1) as (w' & e2 & Hrest & He2 & Hp2 & Hs2 & Hfree' & Htree').
    exists w', ([Log Info "Running background Catalog Refresh Thread at time"] ++ e1 ++ e2).
    rewrite !pulls_app, !skips_app, Hp1, Hp2, Hs1, Hs2.
    split_and!; try done.
    rewrite He2, He1. unfold w0. cbn [events emit]. by rewrite <- !app_assoc.
Qed.

(** Witness of X13: three ticks on the example service. *)
Lemma backgroundPoll_ticks_witness :
  exists w' evs,
    backgroundPoll Ex.E0 3 (Ex.serving Ex.E0) = (Ret tt, w')
    /\ events w' = events (Ex.serving Ex.E0) ++ evs
    /\ pulls evs = 3%nat /\ skips evs = 0%nat.
Proof.
  destruct (backgroundPoll_ticks Ex.E0 3 (Ex.serving Ex.E0))
    as (w' & evs & Hrun & He & Hp & Hs & _).
  - intros T HT. exact HT.
  - reflexivity.
  - reflexivity.
  - by exists w', evs.
Defined.

(** ** Concurrent refreshes run to completion *)

Section Progress.

Variable E : Env.
Hypothesis pulls_keep_walkable : keepsWalkable E.

Import Gate.

Lemma work_insert ths : forall i p p',
  ths !! i = Some p ->
  (work (<[i := p']> ths) + remaining p = work ths + remaining p')%nat.
Proof.
  unfold work.
  induction ths as [|q ths IH]; intros [|i] p p' Hi; try discriminate.
  - injection Hi as ->. cbn [foldr]. change (<[0%nat := p']> (p :: ths)) with (p' :: ths).
    cbn [foldr]. lia.
  - cbn in Hi. specialize (IH i p p' Hi).
    change (<[S i := p']> (q :: ths)) with (q :: <[i := p']> ths).
    cbn [foldr]. lia.
Qed.

Lemma work_replicate n : work (replicate n Start) = (4 * n)%nat.
Proof. unfold work. induction n as [|n IH]; [done|]. cbn [replicate foldr remaining]. lia. Qed.

(** An action of a goroutine in a healthy state: where it leads. *)
Lemma threadStep_healthy ths w i p l p' w' :
  healthy (ths, w) ->
  ths !! i = Some p ->
  threadStep E p w = Some (l, (p', w')) ->
  p' <> Stuck /\ walkableTree (tree w') = true /\ (remaining p' < remaining p)%nat.
Proof.
  intros ([Hfly Hone] & Htree & Hgood) Hi. cbn [fst snd] in *.
  destruct p; cbn [threadStep]; try discriminate.
  - unfold trySend. destruct (length (refreshReqChannel w) <? 1)%nat.
    + intros [= <- <- <-]. cbn. split_and!; [done | done | lia].
    + intros [= <- <- <-]. cbn. split_and!; [done | done | lia].
  - rewrite pullCatalog_events. cbn [afterwards].
    intros [= <- <- <-]. cbn. split_and!; [done | by apply pulls_keep_walkable | lia].
  - pose proof (Walk_outcome E w) as Hwalk.
    pose proof (onlyInstalls_Walk E w) as (Hsame & _).
    rewrite Htree in Hwalk.
    destruct (Walk (walkCatalog E) catalogRoot w) as [o w1]. cbn [fst snd] in *. subst o.
    cbn [afterwards].
    intros [= <- <- <-]. cbn. split_and!; [done | by rewrite Hsame | lia].
  - pose proof (flying_insert ths i Releasing Start Hi) as Hpos. cbn in Hpos.
    unfold receive. destruct (refreshReqChannel w) as [|v rest] eqn:Hbuf.
    + cbn [length] in Hfly. lia.
    + cbn [afterwards]. intros [= <- <- <-]. cbn. split_and!; [done | done | lia].
Qed.

Lemma step_healthy s x s' :
  healthy s -> step E s x s' ->
  healthy s' /\ (work (fst s') < work (fst s))%nat.
Proof.
  intros Hs Hstep. pose proof Hs as (Hinv & Htree & Hgood).
  pose proof (step_gateInv E s x s' Hinv Hstep) as Hinv'.
  destruct Hstep as [ths w i p l p' w' Hi Hstep].
  destruct (threadStep_healthy ths w i p l p' w' Hs Hi Hstep) as (Hp' & Htree' & Hless).
  pose proof (work_insert ths i p p' Hi) as Hwork.
  cbn [fst snd] in *. split; [|lia].
  split_and!; [done | done |]. cbn [fst]. by apply Forall_insert.
Qed.

Lemma run_healthy s tr s' :
  healthy s -> run E s tr s' ->
  healthy s' /\ (length tr + work (fst s') <= work (fst s))%nat.
Proof.
  intros Hs Hrun. induction Hrun as [s|s x s1 tr s2 Hstep Hrun IH].
  - split; [done | cbn; lia].
  - destruct (step_healthy s x s1 Hs Hstep) as [Hs1 Hless].
    destruct (IH Hs1) as [Hs2 Hle]. split; [done | cbn [length]; lia].
Qed.

Lemma initial_healthy n w : walkableTree (tree w) = true -> healthy (initial n w).
Proof.
  intros Htree. split_and!; [apply initial_gateInv | done |].
  cbn [fst initial]. apply Forall_forall. by intros p [-> _]%elem_of_replicate.
Qed.

(** A goroutine that has not finished can act. *)
Lemma threadStep_enabled p w :
  p <> Done -> p <> Stuck -> is_Some (threadStep E p w).
Proof.
  intros Hd Hs. destruct p; try done; cbn [threadStep]; try by eexists.
  destruct (trySend 1 w) as [[[]| | |] w']; by eexists.
Qed.

End Progress.

Lemma count_cons l x tr :
  Gate.count l (x :: tr)
  = ((if bool_decide (snd x = l) then 1 else 0) + Gate.count l tr)%nat.
Proof. unfold Gate.count. cbn [List.filter]. by destruct (bool_decide (snd x = l)). Qed.

(** What an action of a goroutine logs and runs: the pull runs the one
    [git pull], the skip logs the one entry, nothing else does either. *)
Lemma threadStep_events E p w l p' w' :
  Gate.threadStep E p w = Some (l, (p', w')) ->
  exists evs,
    events w' = events w ++ evs
    /\ pulls evs = (if bool_decide (l = Gate.Pull) then 1 else 0)%nat
    /\ skips evs = (if bool_decide (l = Gate.Skip) then 1 else 0)%nat.
Proof.
  destruct p; cbn [Gate.threadStep]; try discriminate.
  - unfold trySend. destruct (length (refreshReqChannel w) <? 1)%nat.
    + intros [= <- <- <-]. exists []. by rewrite app_nil_r.
    + intros [= <- <- <-]. by exists [Log Info Gate.skipMessage].
  - rewrite pullCatalog_events. cbn [Gate.afterwards]. intros [= <- <- <-].
    exists (pullEvents E (snd (git_pull E (tree w)))).
    destruct (pullEvents_counts E (snd (git_pull E (tree w)))) as [-> ->]. done.
  - pose proof (onlyInstalls_Walk E w) as (_ & _ & _ & evs & He & Hq).
    destruct (quiet_counts evs Hq) as [Hp Hs].
    destruct (Walk (walkCatalog E) catalogRoot w) as [o w1]. cbn [snd] in He.
    intros Hstep. exists evs.
    assert (w' = w1 /\ l = Gate.Rebuild) as [-> ->]
      by (destruct o; cbn [Gate.afterwards] in Hstep; by injection Hstep as <- <- <-).
    by rewrite Hp, Hs.
  - unfold receive. intros Hstep. exists [].
    assert (events w' = events w /\ l = Gate.Release) as [-> ->]
      by (destruct (refreshReqChannel w); cbn [Gate.afterwards] in Hstep;
          by injection Hstep as <- <- <-).
    by rewrite app_nil_r.
Qed.

(** The pulls run and the skips logged in an interleaving are the pull
    and skip actions of its goroutines. *)
Lemma run_events E s tr s' :
  Gate.run E s tr s' ->
  exists evs,
    events (snd s') = events (snd s) ++ evs
    /\ pulls evs = Gate.count Gate.Pull tr
    /\ skips evs = Gate.count Gate.Skip tr.
Proof.
  intros Hrun. induction Hrun as [s|s x s1 tr s2 Hstep Hrun IH].
  - exists []. by rewrite app_nil_r.
  - destruct IH as (e2 & He2 & Hp2 & Hs2).
    destruct Hstep as [ths w i p l p' w' Hi Hstep].
    destruct (threadStep_events E p w l p' w' Hstep) as (e1 & He1 & Hp1 & Hs1).
    exists (e1 ++ e2). cbn [snd] in *.
    rewrite pulls_app, skips_app, !count_cons, Hp1, Hp2, Hs1, Hs2, He2, He1.
    cbn [snd]. by rewrite app_assoc.
Qed.

(** X14. Concurrent refreshes run to completion: when the walk can look
    at every entry of the tree it comes to and every pull leaves it so, in
    every interleaving of [n] calls of [RefreshCatalog] no call panics or
    blocks, the interleaving has at most [4 * n] actions, the [git pull]s
    run and the skips logged are those of the pull and skip actions of
    the calls, and a state in which no call can act is one in which all
    have returned. *)
Theorem refreshes_run_to_completion E n w tr s :
  keepsWalkable E ->
  walkableTree (tree w) = true ->
  Gate.run E (Gate.initial n w) tr s ->
  Forall (fun p => p <> Gate.Stuck) (fst s)
  /\ (length tr + work (fst s) <= 4 * n)%nat
  /\ (exists evs,
        events (snd s) = events w ++ evs
        /\ pulls evs = Gate.count Gate.Pull tr
        /\ skips evs = Gate.count Gate.Skip tr)
  /\ ((forall x s', ~ Gate.step E s x s') ->
      Forall (fun p => p = Gate.Done) (fst s)).
Proof.
  intros Hkeeps Htree Hrun.
  destruct (run_healthy E Hkeeps _ _ _ (initial_healthy n w Htree) Hrun)
    as [(Hinv & Htree' & Hgood) Hle].
  cbn [fst Gate.initial] in Hle. rewrite work_replicate in Hle.
  split_and!; [done | done | exact (run_events E _ _ _ Hrun) |].
  intros Hstop. apply Forall_lookup. intros i p Hi.
  destruct (decide (p = Gate.Done)) as [|Hne]; [done|]. exfalso.
  rewrite Forall_lookup in Hgood.
  destruct (threadStep_enabled E p (snd s) Hne (Hgood i p Hi)) as [[l [p' w']] Hstep].
  destruct s as [ths w0]. cbn [fst snd] in *.
  exact (Hstop _ _ (Gate.step_thread E ths w0 i p l p' w' Hi Hstep)).
Qed.

(** Witness of X14: two calls on the example service, the second of
    which comes while the first holds the gate. *)
Lemma refreshes_run_to_completion_witness :
  exists s,
    Gate.run Ex.E0 (Gate.initial 2 (Ex.serving Ex.E0))
      [(0%nat, Gate.Acquire); (1%nat, Gate.Skip)] s
    /\ fst s = [Gate.Pulling; Gate.Done]
    /\ Forall (fun p => p <> Gate.Stuck) (fst s).
Proof.
  assert (Gate.run Ex.E0 (Gate.initial 2 (Ex.serving Ex.E0))
            [(0%nat, Gate.Acquire); (1%nat, Gate.Skip)]
            ([Gate.Pulling; Gate.Done],
             emit (Log Info Gate.skipMessage)
               (set_refreshReqChannel [1%Z]
                  (set_refreshReqChannel [] (Ex.serving Ex.E0))))) as Hrun.
  { eapply Gate.run_cons.
    - apply (Gate.step_thread Ex.E0 [Gate.Start; Gate.Start] _ 0 Gate.Start
               Gate.Acquire Gate.Pulling
               (set_refreshReqChannel [1%Z] (set_refreshReqChannel [] (Ex.serving Ex.E0))));
        reflexivity.
    - eapply Gate.run_cons; [|apply Gate.run_nil].
      apply (Gate.step_thread Ex.E0 [Gate.Pulling; Gate.Start] _ 1 Gate.Start
               Gate.Skip Gate.Done); reflexivity. }
  eexists. split; [exact Hrun|]. split; [reflexivity|].
  apply (refreshes_run_to_completion Ex.E0 2 (Ex.serving Ex.E0) _ _
           (fun T HT => HT) eq_refl Hrun).
Defined.
